(** * The OBDb signalset linter: rule engine, suggested-metric rule and
    front-end adapters

    A shallow embedding of
    - [src/linter/baseLinter.ts] (class [BaseLinter]),
    - [src/linter/linterCli.ts] (the standalone class [CliSignalLinter]),
    - [src/linter/rules/suggestedMetricSuggestionRule.ts],
    - [src/linter/vscodeAdapter.ts] and the [SignalLinter] class,
    - the result grouping of the [lint] sub-command of [src/cli.ts],
    - the rest of [src/cli.ts] that stands on these: [parseArgs],
      [printUsage] and [main], the pass and the text report of the [lint]
      sub-command, and the application of the edits of the [optimize]
      sub-command,
    - [createTextDocument] of [src/linter/vscodeShim.ts],
    followed by the properties proved of them.

    A call that can throw returns a [Completion].  The rules of the
    registry are taken as functions of their arguments, as the rule
    contract asks of them; what becomes of two successive runs when the
    rule objects keep state is the subject of [Stateful]. *)

From Stdlib Require Import String Ascii List Bool Arith Lia.
From Stdlib Require DecimalString NArith.
From ExtLib Require Import Structures.Monad Data.Monads.EitherMonad.
Import ListNotations.
Import MonadNotation.
Local Open Scope monad_scope.
Local Open Scope string_scope.
Local Open Scope list_scope.

(* ===================================================================== *)
(** * JavaScript values *)
(* ===================================================================== *)

Module Js.
Import BinNat.

(** The values of a parsed tree, as [jsonc.getNodeValue] builds them and
    as [JSON.parse] reads them.  A number is held by the text
    [JSON.stringify] prints for it (its [Number::toString]), which
    identifies a finite double.  An object is its own properties in the
    order of its own property keys ([Object.keys], [JSON.stringify]): the
    names that are array indices first, in ascending order, then the other
    names in the order of their creation.  An object of the tree has no
    prototype ([Object.create(null)]).  A character of a string is one
    code unit. *)
Unset Elimination Schemes.
Inductive JValue : Type :=
| JNull
| JBool (b : bool)
| JNumber (text : string)
| JString (s : string)
| JArray (elements : list JValue)
| JObject (properties : list (string * JValue)).
Set Elimination Schemes.

Definition JsObject : Type := list (string * JValue).

(** An abrupt completion carries the thrown [Error]'s message. *)
Definition JsError : Type := string.

(** The outcome of a call: [inr v] is a normal return of [v], [inl e] a
    [throw]. *)
Definition Completion (A : Type) : Type := (JsError + A)%type.

#[global] Instance Monad_Completion : Monad Completion :=
  Monad_either JsError.

(** [throw new Error(message)] *)
Definition throw {A : Type} (message : JsError) : Completion A :=
  inl message.

(** ** Own properties *)

(** The own property [key] of [o]; [None] is [undefined]. *)
Fixpoint getProp (key : string) (o : JsObject) : option JValue :=
  match o with
  | [] => None
  | (k, v) :: rest => if String.eqb k key then Some v else getProp key rest
  end.

(** The built-in [Object.prototype.hasOwnProperty] on the own properties
    [o]. *)
Definition hasOwnProperty (o : JsObject) (key : string) : bool :=
  match getProp key o with Some _ => true | None => false end.

(** [Object.keys(o)] *)
Definition keys (o : JsObject) : list string := map fst o.

(** A property name that is an array index: the canonical decimal text of
    an integer below [2^32 - 1]. *)
Definition maxArrayIndex : N := 4294967294.

Definition arrayIndex (key : string) : option N :=
  match DecimalString.NilEmpty.uint_of_string key with
  | Some digits =>
      let n := N.of_uint digits in
      if (n <=? maxArrayIndex)%N
         && String.eqb (DecimalString.NilEmpty.string_of_uint (N.to_uint n))
                       key
      then Some n
      else None
  | None => None
  end.

(** The value of an own property that exists is replaced in place. *)
Fixpoint update (key : string) (v : JValue) (o : JsObject) : JsObject :=
  match o with
  | [] => []
  | (k, w) :: rest =>
      if String.eqb k key then (k, v) :: rest else (k, w) :: update key v rest
  end.

(** A new array index goes before the first name that is no smaller
    index. *)
Fixpoint insertIndex (i : N) (key : string) (v : JValue) (o : JsObject)
  : JsObject :=
  match o with
  | [] => [(key, v)]
  | (k, w) :: rest =>
      match arrayIndex k with
      | Some j =>
          if (j <? i)%N then (k, w) :: insertIndex i key v rest
          else (key, v) :: (k, w) :: rest
      | None => (key, v) :: (k, w) :: rest
      end
  end.

(** The own data property [key] is set to [v]: an existing property keeps
    its place, a new array index goes among the indices, any other new
    name goes last. *)
Definition setProp (key : string) (v : JValue) (o : JsObject) : JsObject :=
  if hasOwnProperty o key then update key v o
  else match arrayIndex key with
       | Some i => insertIndex i key v o
       | None => o ++ [(key, v)]
       end.

(** The order of own property keys: ascending array indices, then names
    that are no array index. *)
Definition isName (key : string) : bool :=
  match arrayIndex key with Some _ => false | None => true end.

Fixpoint ownOrder (ks : list string) : bool :=
  match ks with
  | [] => true
  | k :: rest =>
      match arrayIndex k with
      | Some i =>
          match rest with
          | k' :: _ =>
              match arrayIndex k' with
              | Some j => (i <? j)%N
              | None => true
              end
          | [] => true
          end
          && ownOrder rest
      | None => forallb isName rest
      end
  end.

(** ** The own enumerable properties of any value *)

(** [String(n)] for an index. *)
Definition indexKey (n : nat) : string :=
  DecimalString.NilEmpty.string_of_uint (Nat.to_uint n).

Fixpoint indexed (from : nat) (items : list JValue) : JsObject :=
  match items with
  | [] => []
  | x :: rest => (indexKey from, x) :: indexed (S from) rest
  end.

Fixpoint characters (s : string) : list JValue :=
  match s with
  | EmptyString => []
  | String c rest => JString (String c EmptyString) :: characters rest
  end.

(** The own enumerable properties: those of an object, the elements of an
    array and the characters of a string under their indices, none for a
    number or a boolean. *)
Definition entries (v : JValue) : JsObject :=
  match v with
  | JObject properties => properties
  | JArray elements => indexed 0 elements
  | JString s => indexed 0 (characters s)
  | _ => []
  end.

(** [v.key] and [v[key]], for a name that no built-in prototype has and
    that is not [length] (as [id], [path], [fmt], [name],
    [suggestedMetric] and the own keys are); reading a property of [null]
    throws a [TypeError]. *)
Definition member (v : JValue) (key : string) : Completion (option JValue) :=
  match v with
  | JNull =>
      throw ("Cannot read properties of null (reading '" ++ key ++ "')")%string
  | _ => ret (getProp key (entries v))
  end.

(** [Object.keys(v)] *)
Definition objectKeys (v : JValue) : Completion (list string) :=
  match v with
  | JNull => throw "Cannot convert undefined or null to object"
  | _ => ret (keys (entries v))
  end.

(** ** Conversions *)

(** A number text whose digits before the exponent are all zero: the
    number [0]. *)
Fixpoint isZero (text : string) : bool :=
  match text with
  | EmptyString => true
  | String c rest =>
      if Ascii.eqb c "e" || Ascii.eqb c "E" then true
      else if (49 <=? nat_of_ascii c)%nat && (nat_of_ascii c <=? 57)%nat
      then false
      else isZero rest
  end.

(** Truthiness of a value or [undefined]: [if (x)]. *)
Definition truthyValue (x : option JValue) : bool :=
  match x with
  | None => false
  | Some JNull => false
  | Some (JBool b) => b
  | Some (JNumber text) => negb (isZero text)
  | Some (JString s) => negb (String.eqb s "")
  | Some (JArray _) => true
  | Some (JObject _) => true
  end.

(** [ToString] of a value: an array is its elements joined by commas,
    [null] elements giving the empty text; an object of the tree has no
    [toString] to be converted with. *)
Fixpoint toStringValue (v : JValue) : Completion string :=
  match v with
  | JNull => ret "null"
  | JBool true => ret "true"
  | JBool false => ret "false"
  | JNumber text => ret text
  | JString s => ret s
  | JArray elements =>
      (fix joined (items : list JValue) : Completion string :=
         match items with
         | [] => ret ""
         | x :: rest =>
             first <- match x with
                      | JNull => ret ""
                      | _ => toStringValue x
                      end ;;
             match rest with
             | [] => ret first
             | _ :: _ => others <- joined rest ;; ret (first ++ "," ++ others)%string
             end
         end) elements
  | JObject _ => throw "Cannot convert object to primitive value"
  end.

(** [ToString] of a value or [undefined], as [RegExp.prototype.test]
    applies it to its argument. *)
Definition toString (x : option JValue) : Completion string :=
  match x with
  | Some v => toStringValue v
  | None => ret "undefined"
  end.

(** ** An ordinary object *)

(** An object made by [{}]: its own properties, and whether
    [Object.prototype] is still on its prototype chain. *)
Record Ordinary : Type := mkOrdinary {
  own : JsObject;
  inherits : bool
}.

(** [{}] *)
Definition emptyObject : Ordinary := {| own := []; inherits := true |}.

(** [o[key] = v].  The name [__proto__] reaches the setter of
    [Object.prototype], which makes an object or [null] the prototype and
    ignores any other value; an object of the tree or [null] takes
    [Object.prototype] off the chain, an array keeps it.  No own property
    is made. *)
Definition assign (o : Ordinary) (key : string) (v : JValue) : Ordinary :=
  if String.eqb key "__proto__" && inherits o then
    match v with
    | JObject _ => {| own := own o; inherits := false |}
    | JNull => {| own := own o; inherits := false |}
    | _ => o
    end
  else {| own := setProp key v (own o); inherits := inherits o |}.

(** [o.hasOwnProperty(key)]: the method is the built-in one unless an own
    property of that name hides it or [Object.prototype] is off the
    chain; what is found then is not a function. *)
Definition callHasOwnProperty (o : Ordinary) (key : string)
  : Completion bool :=
  if hasOwnProperty (own o) "hasOwnProperty" || negb (inherits o)
  then throw "orderedSignal.hasOwnProperty is not a function"
  else ret (hasOwnProperty (own o) key).

(** ** Strings and arrays of the command line *)

(** Truthiness of a [string | undefined]: [if (x)]. *)
Definition truthy (x : option string) : bool :=
  match x with
  | Some s => negb (String.eqb s "")
  | None => false
  end.

(** [s.includes(sub)] *)
Fixpoint includes (s sub : string) : bool :=
  if String.prefix sub s then true
  else match s with
       | EmptyString => false
       | String _ rest => includes rest sub
       end.

(** [arr.push(...items)] *)
Definition push {A : Type} (arr items : list A) : list A := arr ++ items.

End Js.
Import Js.

(* ===================================================================== *)
(** * jsonc-parser nodes and the rule contract *)
(* ===================================================================== *)

Module jsonc.

(** [jsonc.Node]: a node of the parsed tree, as far as the linter reads
    it: its span in the source and the value [jsonc.getNodeValue] projects
    from it. *)
Record Node : Type := mkNode {
  offset : nat;
  length : nat;
  getNodeValue : JValue
}.

End jsonc.

(** Modelled from the spec: the declarations of [rules/rule.ts]
    ([LintSeverity], [LinterRuleConfig], [LintResult], [ILinterRule],
    [Signal], [SignalGroup], [Command]), which the sources import and the
    spec's data model and rule contract describe. *)
Module Rule.

(** The four members of the enumeration, and any other value a
    [LintSeverity]-typed expression may hold at run time. *)
Module LintSeverity.
Inductive LintSeverity : Type :=
| Error
| Warning
| Information
| Hint
| Unrecognized (raw : string).
End LintSeverity.

Record LinterRuleConfig : Type := mkConfig {
  id : string;
  name : string;
  description : string;
  severity : LintSeverity.LintSeverity;
  enabled : bool
}.

(** One edit of a suggestion: [{ newText, offset, length }]. *)
Module Edit.
Record Edit : Type := mk {
  newText : string;
  offset : nat;
  length : nat
}.
End Edit.

Record Suggestion : Type := mkSuggestion {
  title : string;
  edits : list Edit.Edit
}.

Record LintResult : Type := mkLintResult {
  ruleId : string;
  message : string;
  node : jsonc.Node;
  suggestion : option Suggestion
}.

(** The TypeScript types are not checked at run time: what a caller
    hands over as a signal, a signal group or a command is any value of
    the tree. *)
Definition Signal : Type := JValue.
Definition SignalGroup : Type := JValue.
Definition Command : Type := JValue.

(** [Signal | SignalGroup] *)
Definition Target : Type := JValue.

(** [{ signal: Signal, node: jsonc.Node }] *)
Record SignalInCommand : Type := mkSignalInCommand {
  signal : Signal;
  signalNode : jsonc.Node
}.

(** [LintResult | LintResult[] | null] *)
Inductive RuleReturn : Type :=
| RNull
| ROne (result : LintResult)
| RArray (results : list LintResult).

(** A rule: its configuration and the entry points it implements
    ([None] for a method the rule does not have). *)
Record ILinterRule : Type := mkRule {
  getConfig : LinterRuleConfig;
  validateSignal :
    option (Target -> jsonc.Node -> Completion RuleReturn);
  validateCommand :
    option (Command -> jsonc.Node -> list SignalInCommand ->
            Completion RuleReturn);
  validateCommands :
    option (jsonc.Node -> Completion (option (list LintResult)));
  validateDocument :
    option (jsonc.Node -> Completion (option (list LintResult)))
}.

End Rule.
Import Rule.

(** Modelled from the spec: the rule registry of [ruleRegistry.ts] (spec
    4.2), a catalog of the registered rules in registration order, each
    with the enabled flag its current configuration gives it. *)
Module RuleRegistry.

Record RegisteredRule : Type := mkRegistered {
  rule : ILinterRule;
  isEnabled : bool
}.

Definition RuleRegistry : Type := list RegisteredRule.

(** The ordered subset of the registered rules that are enabled. *)
Definition getEnabledRules (registry : RuleRegistry) : list ILinterRule :=
  map rule (filter isEnabled registry).

(** Point lookup by rule id; [None] when no registered rule has it. *)
Definition getRuleById (registry : RuleRegistry) (ruleId : string)
  : option ILinterRule :=
  find (fun r => String.eqb (id (getConfig r)) ruleId) (map rule registry).

End RuleRegistry.
Import RuleRegistry.

(* ===================================================================== *)
(** * The analysis engine *)
(* ===================================================================== *)

(** [src/linter/baseLinter.ts] *)
Module BaseLinter.

Record BaseLinter : Type := mkBaseLinter {
  ruleRegistry : RuleRegistry
}.

(** The [for (const rule of enabledRules)] loop of [lintSignal], with the
    [results] array built so far. *)
Fixpoint lintSignal_for (enabledRules : list ILinterRule)
    (target : Target) (node : jsonc.Node) (results : list LintResult)
  : Completion (list LintResult) :=
  match enabledRules with
  | [] => ret results
  | rule :: rest =>
      match validateSignal rule with
      | Some validate =>
          ruleResult <- validate target node ;;
          match ruleResult with
          | RArray rs => lintSignal_for rest target node (push results rs)
          | ROne r => lintSignal_for rest target node (push results [r])
          | RNull => lintSignal_for rest target node results
          end
      | None => lintSignal_for rest target node results
      end
  end.

Definition lintSignal (self : BaseLinter) (target : Target)
    (node : jsonc.Node) : Completion (list LintResult) :=
  let results := [] in
  let enabledRules := getEnabledRules (ruleRegistry self) in
  lintSignal_for enabledRules target node results.

Fixpoint lintCommand_for (enabledRules : list ILinterRule)
    (command : Command) (commandNode : jsonc.Node)
    (signalsInCommand : list SignalInCommand) (results : list LintResult)
  : Completion (list LintResult) :=
  match enabledRules with
  | [] => ret results
  | rule :: rest =>
      match validateCommand rule with
      | Some validate =>
          ruleResult <- validate command commandNode signalsInCommand ;;
          match ruleResult with
          | RArray rs =>
              lintCommand_for rest command commandNode signalsInCommand
                (push results rs)
          | ROne r =>
              lintCommand_for rest command commandNode signalsInCommand
                (push results [r])
          | RNull =>
              lintCommand_for rest command commandNode signalsInCommand
                results
          end
      | None =>
          lintCommand_for rest command commandNode signalsInCommand results
      end
  end.

Definition lintCommand (self : BaseLinter) (command : Command)
    (commandNode : jsonc.Node) (signalsInCommand : list SignalInCommand)
  : Completion (list LintResult) :=
  let results := [] in
  let enabledRules := getEnabledRules (ruleRegistry self) in
  lintCommand_for enabledRules command commandNode signalsInCommand results.

Fixpoint lintCommands_for (enabledRules : list ILinterRule)
    (commandsNode : jsonc.Node) (results : list LintResult)
  : Completion (list LintResult) :=
  match enabledRules with
  | [] => ret results
  | rule :: rest =>
      match validateCommands rule with
      | Some validate =>
          ruleResult <- validate commandsNode ;;
          match ruleResult with
          | Some rs => lintCommands_for rest commandsNode (push results rs)
          | None => lintCommands_for rest commandsNode results
          end
      | None => lintCommands_for rest commandsNode results
      end
  end.

Definition lintCommands (self : BaseLinter) (commandsNode : jsonc.Node)
  : Completion (list LintResult) :=
  let results := [] in
  let enabledRules := getEnabledRules (ruleRegistry self) in
  lintCommands_for enabledRules commandsNode results.

Fixpoint lintDocument_for (enabledRules : list ILinterRule)
    (rootNode : jsonc.Node) (results : list LintResult)
  : Completion (list LintResult) :=
  match enabledRules with
  | [] => ret results
  | rule :: rest =>
      match validateDocument rule with
      | Some validate =>
          ruleResult <- validate rootNode ;;
          match ruleResult with
          | Some rs => lintDocument_for rest rootNode (push results rs)
          | None => lintDocument_for rest rootNode results
          end
      | None => lintDocument_for rest rootNode results
      end
  end.

Definition lintDocument (self : BaseLinter) (rootNode : jsonc.Node)
  : Completion (list LintResult) :=
  let results := [] in
  let enabledRules := getEnabledRules (ruleRegistry self) in
  lintDocument_for enabledRules rootNode results.

End BaseLinter.

(** [src/linter/linterCli.ts]: the standalone class, with its own copy of
    the four methods. *)
Module CliSignalLinter.

Record CliSignalLinter : Type := mkCliSignalLinter {
  ruleRegistry : RuleRegistry
}.

Fixpoint lintSignal_for (enabledRules : list ILinterRule)
    (target : Target) (node : jsonc.Node) (results : list LintResult)
  : Completion (list LintResult) :=
  match enabledRules with
  | [] => ret results
  | rule :: rest =>
      match validateSignal rule with
      | Some validate =>
          ruleResult <- validate target node ;;
          match ruleResult with
          | RArray rs => lintSignal_for rest target node (push results rs)
          | ROne r => lintSignal_for rest target node (push results [r])
          | RNull => lintSignal_for rest target node results
          end
      | None => lintSignal_for rest target node results
      end
  end.

Definition lintSignal (self : CliSignalLinter) (target : Target)
    (node : jsonc.Node) : Completion (list LintResult) :=
  let results := [] in
  let enabledRules := getEnabledRules (ruleRegistry self) in
  lintSignal_for enabledRules target node results.

Fixpoint lintCommand_for (enabledRules : list ILinterRule)
    (command : Command) (commandNode : jsonc.Node)
    (signalsInCommand : list SignalInCommand) (results : list LintResult)
  : Completion (list LintResult) :=
  match enabledRules with
  | [] => ret results
  | rule :: rest =>
      match validateCommand rule with
      | Some validate =>
          ruleResult <- validate command commandNode signalsInCommand ;;
          match ruleResult with
          | RArray rs =>
              lintCommand_for rest command commandNode signalsInCommand
                (push results rs)
          | ROne r =>
              lintCommand_for rest command commandNode signalsInCommand
                (push results [r])
          | RNull =>
              lintCommand_for rest command commandNode signalsInCommand
                results
          end
      | None =>
          lintCommand_for rest command commandNode signalsInCommand results
      end
  end.

Definition lintCommand (self : CliSignalLinter) (command : Command)
    (commandNode : jsonc.Node) (signalsInCommand : list SignalInCommand)
  : Completion (list LintResult) :=
  let results := [] in
  let enabledRules := getEnabledRules (ruleRegistry self) in
  lintCommand_for enabledRules command commandNode signalsInCommand results.

Fixpoint lintCommands_for (enabledRules : list ILinterRule)
    (commandsNode : jsonc.Node) (results : list LintResult)
  : Completion (list LintResult) :=
  match enabledRules with
  | [] => ret results
  | rule :: rest =>
      match validateCommands rule with
      | Some validate =>
          ruleResult <- validate commandsNode ;;
          match ruleResult with
          | Some rs => lintCommands_for rest commandsNode (push results rs)
          | None => lintCommands_for rest commandsNode results
          end
      | None => lintCommands_for rest commandsNode results
      end
  end.

Definition lintCommands (self : CliSignalLinter) (commandsNode : jsonc.Node)
  : Completion (list LintResult) :=
  let results := [] in
  let enabledRules := getEnabledRules (ruleRegistry self) in
  lintCommands_for enabledRules commandsNode results.

Fixpoint lintDocument_for (enabledRules : list ILinterRule)
    (rootNode : jsonc.Node) (results : list LintResult)
  : Completion (list LintResult) :=
  match enabledRules with
  | [] => ret results
  | rule :: rest =>
      match validateDocument rule with
      | Some validate =>
          ruleResult <- validate rootNode ;;
          match ruleResult with
          | Some rs => lintDocument_for rest rootNode (push results rs)
          | None => lintDocument_for rest rootNode results
          end
      | None => lintDocument_for rest rootNode results
      end
  end.

Definition lintDocument (self : CliSignalLinter) (rootNode : jsonc.Node)
  : Completion (list LintResult) :=
  let results := [] in
  let enabledRules := getEnabledRules (ruleRegistry self) in
  lintDocument_for enabledRules rootNode results.

End CliSignalLinter.

(* ===================================================================== *)
(** * What the engine is specified to return *)
(* ===================================================================== *)

Module EngineSpec.

(** The elements one rule return contributes: a single result is one
    element, an array its elements in order, [null] nothing. *)
Definition flatten (ruleResult : RuleReturn) : list LintResult :=
  match ruleResult with
  | RNull => []
  | ROne r => [r]
  | RArray rs => rs
  end.

Definition flattenArray (ruleResult : option (list LintResult))
  : list LintResult :=
  match ruleResult with
  | None => []
  | Some rs => rs
  end.

(** The contribution of one rule at one granularity: nothing, without
    error, when the rule lacks the entry point; otherwise its flattened
    return, or the error it throws. *)
Definition contribution {R : Type} (flat : R -> list LintResult)
    (call : option (Completion R)) : Completion (list LintResult) :=
  match call with
  | None => ret []
  | Some c => r <- c ;; ret (flat r)
  end.

(** The calls of the rules one after the other, stopping at the first
    that throws. *)
Fixpoint sequence {A : Type} (calls : list (Completion A))
  : Completion (list A) :=
  match calls with
  | [] => ret []
  | c :: rest => x <- c ;; xs <- sequence rest ;; ret (x :: xs)
  end.

(** Concatenation, in rule order, of the rules' contributions. *)
Definition concatenated {R : Type} (flat : R -> list LintResult)
    (entry : ILinterRule -> option (Completion R))
    (enabledRules : list ILinterRule) : Completion (list LintResult) :=
  parts <- sequence (map (fun rule => contribution flat (entry rule))
                         enabledRules) ;;
  ret (concat parts).

Definition signalEntry (target : Target) (node : jsonc.Node)
    (rule : ILinterRule) : option (Completion RuleReturn) :=
  option_map (fun validate => validate target node) (validateSignal rule).

Definition commandEntry (command : Command) (commandNode : jsonc.Node)
    (signalsInCommand : list SignalInCommand) (rule : ILinterRule)
  : option (Completion RuleReturn) :=
  option_map (fun validate => validate command commandNode signalsInCommand)
             (validateCommand rule).

Definition commandsEntry (commandsNode : jsonc.Node) (rule : ILinterRule)
  : option (Completion (option (list LintResult))) :=
  option_map (fun validate => validate commandsNode) (validateCommands rule).

Definition documentEntry (rootNode : jsonc.Node) (rule : ILinterRule)
  : option (Completion (option (list LintResult))) :=
  option_map (fun validate => validate rootNode) (validateDocument rule).

(** [appended results c]: the outcome [c] with [results] put in front of
    the sequence it returns; what a loop of the engine returns when it
    starts with [results] already collected. *)
Definition appended (results : list LintResult)
    (c : Completion (list LintResult)) : Completion (list LintResult) :=
  rs <- c ;; ret (results ++ rs).

End EngineSpec.

(* ===================================================================== *)
(** * JSON text *)
(* ===================================================================== *)

(** [JSON.stringify] as the rule calls it (one argument, so no indentation),
    and the reading of a JSON value from a text, which stands for the
    external parser when an edited source is parsed again.  Strings are
    sequences of bytes; bytes above 127 (UTF-8) are copied as they are. *)
Module JSON.
Local Open Scope string_scope.

Definition dquote : ascii :=
  Ascii false true false false false true false false.
Definition backslash : ascii :=
  Ascii false false true true true false true false.
Definition backspace : ascii :=
  Ascii false false false true false false false false.
Definition tab : ascii :=
  Ascii true false false true false false false false.
Definition newline : ascii :=
  Ascii false true false true false false false false.
Definition formfeed : ascii :=
  Ascii false false true true false false false false.
Definition carriage : ascii :=
  Ascii true false true true false false false false.

Definition hexDigits : list ascii :=
  ["0"; "1"; "2"; "3"; "4"; "5"; "6"; "7";
   "8"; "9"; "a"; "b"; "c"; "d"; "e"; "f"]%char.

Definition hexDigit (n : nat) : ascii := nth n hexDigits "0"%char.

(** The escape of one character inside a JSON string ([QuoteJSONString]). *)
Definition escapeChar (c : ascii) : string :=
  if Ascii.eqb c dquote then String backslash (String dquote "")
  else if Ascii.eqb c backslash then String backslash (String backslash "")
  else if Ascii.eqb c backspace then String backslash "b"
  else if Ascii.eqb c tab then String backslash "t"
  else if Ascii.eqb c newline then String backslash "n"
  else if Ascii.eqb c formfeed then String backslash "f"
  else if Ascii.eqb c carriage then String backslash "r"
  else if (nat_of_ascii c <? 32)%nat then
    String backslash
      (String "u" (String "0" (String "0"
         (String (hexDigit (nat_of_ascii c / 16))
            (String (hexDigit (nat_of_ascii c mod 16)) "")))))
  else String c "".

Fixpoint escape (s : string) : string :=
  match s with
  | EmptyString => ""
  | String c rest => escapeChar c ++ escape rest
  end.

Definition quote (s : string) : string :=
  String dquote (escape s ++ String dquote "").

(** [parts.join(",")] *)
Fixpoint join (parts : list string) : string :=
  match parts with
  | [] => ""
  | [p] => p
  | p :: rest => p ++ "," ++ join rest
  end.

Fixpoint stringify (v : JValue) : string :=
  match v with
  | JNull => "null"
  | JBool true => "true"
  | JBool false => "false"
  | JNumber text => text
  | JString s => quote s
  | JArray elements => "[" ++ join (map stringify elements) ++ "]"
  | JObject properties =>
      "{" ++ join (map (fun kv : string * JValue =>
                          let (k, x) := kv in quote k ++ ":" ++ stringify x)
                       properties) ++ "}"
  end.

(** ** Reading a value back *)

Definition isWhitespace (c : ascii) : bool :=
  Ascii.eqb c " " || Ascii.eqb c tab || Ascii.eqb c newline
  || Ascii.eqb c carriage.

Fixpoint skipWhitespace (s : string) : string :=
  match s with
  | String c rest => if isWhitespace c then skipWhitespace rest else s
  | EmptyString => s
  end.

(** The characters a number token is made of. *)
Definition isNumberChar (c : ascii) : bool :=
  ((48 <=? nat_of_ascii c)%nat && (nat_of_ascii c <=? 57)%nat)
  || Ascii.eqb c "-" || Ascii.eqb c "+" || Ascii.eqb c "."
  || Ascii.eqb c "e" || Ascii.eqb c "E".

(** The longest prefix of number characters, and what follows it. *)
Fixpoint spanNumber (s : string) : string * string :=
  match s with
  | String c rest =>
      if isNumberChar c
      then let (text, after) := spanNumber rest in (String c text, after)
      else ("", s)
  | EmptyString => ("", s)
  end.

Definition hexValue (c : ascii) : option nat :=
  let n := nat_of_ascii c in
  if ((48 <=? n) && (n <=? 57))%nat then Some (n - 48)
  else if ((97 <=? n) && (n <=? 102))%nat then Some (n - 87)
  else if ((65 <=? n) && (n <=? 70))%nat then Some (n - 55)
  else None.

(** The characters of a string token after its opening quote, up to the
    closing quote; [\u] escapes are read for code units below 256. *)
Fixpoint parseChars (s : string) : option (string * string) :=
  match s with
  | EmptyString => None
  | String c rest =>
      if Ascii.eqb c dquote then Some ("", rest)
      else if Ascii.eqb c backslash then
        match rest with
        | String e rest1 =>
            if Ascii.eqb e "u" then
              match rest1 with
              | String h1 (String h2 (String h3 (String h4 rest2))) =>
                  match hexValue h1, hexValue h2, hexValue h3, hexValue h4 with
                  | Some 0, Some 0, Some d3, Some d4 =>
                      match parseChars rest2 with
                      | Some (text, final) =>
                          Some (String (ascii_of_nat (16 * d3 + d4)) text,
                                final)
                      | None => None
                      end
                  | _, _, _, _ => None
                  end
              | _ => None
              end
            else
              let decoded :=
                if Ascii.eqb e "b" then Some backspace
                else if Ascii.eqb e "t" then Some tab
                else if Ascii.eqb e "n" then Some newline
                else if Ascii.eqb e "f" then Some formfeed
                else if Ascii.eqb e "r" then Some carriage
                else if Ascii.eqb e dquote then Some dquote
                else if Ascii.eqb e backslash then Some backslash
                else if Ascii.eqb e "/" then Some "/"%char
                else None in
              match decoded with
              | Some d =>
                  match parseChars rest1 with
                  | Some (text, final) => Some (String d text, final)
                  | None => None
                  end
              | None => None
              end
        | EmptyString => None
        end
      else if (nat_of_ascii c <? 32)%nat then None
      else
        match parseChars rest with
        | Some (text, final) => Some (String c text, final)
        | None => None
        end
  end.

(** [expect word s]: [s] without its prefix [word]. *)
Fixpoint expect (word s : string) : option string :=
  match word with
  | EmptyString => Some s
  | String w word' =>
      match s with
      | String c rest => if Ascii.eqb c w then expect word' rest else None
      | EmptyString => None
      end
  end.

Section Containers.

(** The reading of one value, given by the enclosing [parseValue]. *)
Variable parseValue : string -> option (JValue * string).

(** The elements of an array after the first, up to the closing bracket. *)
Fixpoint parseElements (budget : nat) (s : string)
  : option (list JValue * string) :=
  match budget with
  | 0 => None
  | S budget' =>
      match skipWhitespace s with
      | String c rest =>
          if Ascii.eqb c "]" then Some ([], rest)
          else if Ascii.eqb c "," then
            match parseValue rest with
            | Some (v, after) =>
                match parseElements budget' after with
                | Some (vs, final) => Some (v :: vs, final)
                | None => None
                end
            | None => None
            end
          else None
      | EmptyString => None
      end
  end.

(** One [key : value] member. *)
Definition parseMember (s : string) : option (string * JValue * string) :=
  match skipWhitespace s with
  | String c rest =>
      if Ascii.eqb c dquote then
        match parseChars rest with
        | Some (key, after) =>
            match skipWhitespace after with
            | String colon after' =>
                if Ascii.eqb colon ":" then
                  match parseValue after' with
                  | Some (v, final) => Some (key, v, final)
                  | None => None
                  end
                else None
            | EmptyString => None
            end
        | None => None
        end
      else None
  | EmptyString => None
  end.

(** The members of an object after the first, up to the closing brace; a
    member is stored as [obj[key] = value] stores it. *)
Fixpoint parseMembers (budget : nat) (obj : JsObject) (s : string)
  : option (JsObject * string) :=
  match budget with
  | 0 => None
  | S budget' =>
      match skipWhitespace s with
      | String c rest =>
          if Ascii.eqb c "}" then Some (obj, rest)
          else if Ascii.eqb c "," then
            match parseMember rest with
            | Some (key, v, after) =>
                parseMembers budget' (setProp key v obj) after
            | None => None
            end
          else None
      | EmptyString => None
      end
  end.

End Containers.

(** A value at the head of [s], and the text after it; [fuel] bounds the
    nesting and the number of elements read. *)
Fixpoint parseValue (fuel : nat) (s : string) : option (JValue * string) :=
  match fuel with
  | 0 => None
  | S fuel' =>
      match skipWhitespace s with
      | EmptyString => None
      | String c rest =>
          if Ascii.eqb c "n" then
            option_map (fun after => (JNull, after)) (expect "ull" rest)
          else if Ascii.eqb c "t" then
            option_map (fun after => (JBool true, after)) (expect "rue" rest)
          else if Ascii.eqb c "f" then
            option_map (fun after => (JBool false, after))
                       (expect "alse" rest)
          else if Ascii.eqb c dquote then
            option_map (fun r : string * string => (JString (fst r), snd r))
                       (parseChars rest)
          else if Ascii.eqb c "[" then
            match skipWhitespace rest with
            | String c' rest' =>
                if Ascii.eqb c' "]" then Some (JArray [], rest')
                else
                  match parseValue fuel' rest with
                  | Some (v, after) =>
                      match parseElements (parseValue fuel') fuel' after with
                      | Some (vs, final) => Some (JArray (v :: vs), final)
                      | None => None
                      end
                  | None => None
                  end
            | EmptyString => None
            end
          else if Ascii.eqb c "{" then
            match skipWhitespace rest with
            | String c' rest' =>
                if Ascii.eqb c' "}" then Some (JObject [], rest')
                else
                  match parseMember (parseValue fuel') rest with
                  | Some (key, v, after) =>
                      match parseMembers (parseValue fuel') fuel'
                              (setProp key v []) after with
                      | Some (obj, final) => Some (JObject obj, final)
                      | None => None
                      end
                  | None => None
                  end
            | EmptyString => None
            end
          else if isNumberChar c then
            let (text, after) := spanNumber (String c rest) in
            Some (JNumber text, after)
          else None
      end
  end.

(** [s.slice(n)] and [s.slice(0, n)] *)
Fixpoint drop (n : nat) (s : string) : string :=
  match n, s with
  | S n', String _ rest => drop n' rest
  | _, _ => s
  end.

Fixpoint take (n : nat) (s : string) : string :=
  match n, s with
  | S n', String c rest => String c (take n' rest)
  | _, _ => ""
  end.

(** The value that starts at [offset] in [source]. *)
Definition parseAt (source : string) (offset : nat) : option JValue :=
  option_map fst (parseValue (String.length source) (drop offset source)).

(** The value whose text is the [length] characters of [source] from
    [offset] on. *)
Definition parseSpan (source : string) (offset length : nat)
  : option JValue :=
  match parseValue (S length) (take length (drop offset source)) with
  | Some (v, EmptyString) => Some v
  | _ => None
  end.

(** A value the parser can produce: number tokens are non-empty runs of
    number characters, no object has a property twice, and the properties
    of an object are in the order of its own keys. *)
Fixpoint uniqueKeys (seen : list string) (ks : list string) : bool :=
  match ks with
  | [] => true
  | k :: rest =>
      negb (existsb (String.eqb k) seen) && uniqueKeys (k :: seen) rest
  end.

Fixpoint allNumberChars (s : string) : bool :=
  match s with
  | EmptyString => true
  | String c rest => isNumberChar c && allNumberChars rest
  end.

Definition numberText (text : string) : bool :=
  negb (String.eqb text "") && allNumberChars text.

Fixpoint wellFormed (v : JValue) : bool :=
  match v with
  | JNull | JBool _ | JString _ => true
  | JNumber text => numberText text
  | JArray elements => forallb wellFormed elements
  | JObject properties =>
      uniqueKeys [] (map fst properties)
      && ownOrder (map fst properties)
      && forallb (fun kv : string * JValue => let (_, x) := kv in wellFormed x)
                 properties
  end.

End JSON.

(* ===================================================================== *)
(** * The suggested-metric rule *)
(* ===================================================================== *)

(** Modelled from the spec: the pattern type of
    [utils/suggestedMetricPatterns.ts] (spec 4.4): an optional id-matching
    rule, an optional name-matching rule, an optional name-based exclusion
    rule, the suggested value and its rationale.  A regular expression is
    what its [test] method answers on a subject (the patterns carry no
    [g] or [y] flag, so [test] keeps no position between calls).  The table
    [METRIC_PATTERNS] itself is a parameter of the rule. *)
Module suggestedMetricPatterns.

Record RegExp : Type := mkRegExp {
  test : string -> bool
}.

Record MetricPattern : Type := mkMetricPattern {
  idPattern : option RegExp;
  namePattern : option RegExp;
  excludeNamePattern : option RegExp;
  suggestedMetric : string;
  description : string
}.

End suggestedMetricPatterns.

(** [src/linter/rules/suggestedMetricSuggestionRule.ts] *)
Module SuggestedMetricSuggestionRule.
Import suggestedMetricPatterns.
Local Open Scope string_scope.

Definition getConfig : LinterRuleConfig :=
  {| id := "suggested-metric-suggestion";
     name := "Suggested Metric Suggestion";
     Rule.description :=
       "Suggests adding suggestedMetric properties based on signal ID and name patterns";
     severity := LintSeverity.Information;
     enabled := false |}.

(** [if (signalObj.key !== undefined) orderedSignal.key = signalObj.key] *)
Definition copyIfDefined (key : string) (signalObj : JValue)
    (orderedSignal : Ordinary) : Completion Ordinary :=
  value <- member signalObj key ;;
  match value with
  | Some v => ret (assign orderedSignal key v)
  | None => ret orderedSignal
  end.

(** The body of [for (const key of Object.keys(signalObj))]; an own key
    has a value. *)
Definition copyIfMissing (signalObj : JValue) (orderedSignal : Ordinary)
    (key : string) : Completion Ordinary :=
  has <- callHasOwnProperty orderedSignal key ;;
  if negb has
  then value <- member signalObj key ;;
       match value with
       | Some v => ret (assign orderedSignal key v)
       | None => ret orderedSignal
       end
  else ret orderedSignal.

(** [for (const key of keys)] *)
Fixpoint copyRemaining (signalObj : JValue) (keys : list string)
    (orderedSignal : Ordinary) : Completion Ordinary :=
  match keys with
  | [] => ret orderedSignal
  | key :: rest =>
      orderedSignal <- copyIfMissing signalObj orderedSignal key ;;
      copyRemaining signalObj rest orderedSignal
  end.

Definition createSignalWithSuggestedMetric (signal : Signal)
    (node : jsonc.Node) (suggestedMetric : string) : Completion string :=
  let signalObj := jsonc.getNodeValue node in
  let orderedSignal := emptyObject in
  orderedSignal <- copyIfDefined "id" signalObj orderedSignal ;;
  orderedSignal <- copyIfDefined "path" signalObj orderedSignal ;;
  orderedSignal <- copyIfDefined "fmt" signalObj orderedSignal ;;
  orderedSignal <- copyIfDefined "name" signalObj orderedSignal ;;
  let orderedSignal :=
    assign orderedSignal "suggestedMetric" (JString suggestedMetric) in
  keys <- objectKeys signalObj ;;
  orderedSignal <- copyRemaining signalObj keys orderedSignal ;;
  ret (JSON.stringify (JObject (own orderedSignal))).

Definition quoted (s : string) : string :=
  String JSON.dquote (s ++ String JSON.dquote "").

(** [re ? re.test(x) : false], and [re && re.test(x)] where it is used
    as a condition. *)
Definition testOptional (re : option RegExp) (x : option JValue)
  : Completion bool :=
  match re with
  | Some re => subject <- toString x ;; ret (test re subject)
  | None => ret false
  end.

Section WithPatterns.

(** [private readonly metricPatterns = METRIC_PATTERNS] *)
Variable metricPatterns : list MetricPattern.

(** [for (const pattern of this.metricPatterns)], with the values read
    from the signal. *)
Fixpoint validateSignal_for (patterns : list MetricPattern)
    (signal : Signal) (node : jsonc.Node) (signalId signalName : option JValue)
  : Completion (option LintResult) :=
  match patterns with
  | [] => ret None
  | pattern :: rest =>
      idMatches <- testOptional (idPattern pattern) signalId ;;
      nameMatches <- testOptional (namePattern pattern) signalName ;;
      excludedByName <-
        testOptional (excludeNamePattern pattern) signalName ;;
      if (idMatches || nameMatches) && negb excludedByName
      then
        newText <-
          createSignalWithSuggestedMetric signal node
            (suggestedMetric pattern) ;;
        ret (Some
               {| ruleId := id getConfig;
                  message :=
                    "Consider adding suggestedMetric: "
                    ++ quoted (suggestedMetric pattern)
                    ++ " (" ++ description pattern ++ ")";
                  node := node;
                  suggestion :=
                    Some {| title :=
                              "Add suggestedMetric: "
                              ++ quoted (suggestedMetric pattern);
                            edits :=
                              [ {| Edit.newText := newText;
                                   Edit.offset := jsonc.offset node;
                                   Edit.length := jsonc.length node |} ]
                         |} |})
      else validateSignal_for rest signal node signalId signalName
  end.

Definition validateSignal (signal : Signal) (node : jsonc.Node)
  : Completion (option LintResult) :=
  signalSuggestedMetric <- member signal "suggestedMetric" ;;
  if truthyValue signalSuggestedMetric then ret None
  else
    signalId <- member signal "id" ;;
    signalName <- member signal "name" ;;
    if negb (truthyValue signalId) || negb (truthyValue signalName)
    then ret None
    else validateSignal_for metricPatterns signal node signalId signalName.

(** The rule as the registry holds it: only [validateSignal] is
    implemented. *)
Definition asRule : ILinterRule :=
  {| Rule.getConfig := getConfig;
     Rule.validateSignal :=
       Some (fun target node =>
               result <- validateSignal target node ;;
               ret (match result with
                    | Some r => ROne r
                    | None => RNull
                    end));
     Rule.validateCommand := None;
     Rule.validateCommands := None;
     Rule.validateDocument := None |}.

End WithPatterns.

End SuggestedMetricSuggestionRule.

(** Modelled from the spec: applying one edit of a suggestion to the source
    buffer its offsets refer to (spec 3: an edit is a replacement text, an
    offset and a length over the original source). *)
Module TextEdit.
Local Open Scope string_scope.

Definition applyEdit (source : string) (edit : Edit.Edit) : string :=
  JSON.take (Edit.offset edit) source
  ++ Edit.newText edit
  ++ JSON.drop (Edit.offset edit + Edit.length edit) source.

End TextEdit.

(* ===================================================================== *)
(** * The editor adapter *)
(* ===================================================================== *)

(** The part of the [vscode] API the adapter uses ([vscodeShim.ts] gives
    the same shapes and the numbering of the severities). *)
Module vscode.

Module DiagnosticSeverity.
Inductive DiagnosticSeverity : Type :=
| Error
| Warning
| Information
| Hint.

Definition value (s : DiagnosticSeverity) : nat :=
  match s with
  | Error => 0
  | Warning => 1
  | Information => 2
  | Hint => 3
  end.
End DiagnosticSeverity.

Record Position : Type := mkPosition {
  line : nat;
  character : nat
}.

Record Range : Type := mkRange {
  start : Position;
  end_ : Position
}.

Record Diagnostic : Type := mkDiagnostic {
  range : Range;
  message : string;
  severity : DiagnosticSeverity.DiagnosticSeverity;
  code : option string;
  source : option string
}.

Record TextDocument : Type := mkTextDocument {
  getText : string;
  positionAt : nat -> Position
}.

End vscode.

(** [src/linter/vscodeAdapter.ts] *)
Module vscodeAdapter.

Definition mapToVscodeSeverity (severity : LintSeverity.LintSeverity)
  : vscode.DiagnosticSeverity.DiagnosticSeverity :=
  match severity with
  | LintSeverity.Error => vscode.DiagnosticSeverity.Error
  | LintSeverity.Warning => vscode.DiagnosticSeverity.Warning
  | LintSeverity.Information => vscode.DiagnosticSeverity.Information
  | LintSeverity.Hint => vscode.DiagnosticSeverity.Hint
  | _ => vscode.DiagnosticSeverity.Warning
  end.

(** The [for (const result of results)] loop, with the [diagnostics] array
    built so far. *)
Fixpoint convertToVscodeDiagnostics_for (document : vscode.TextDocument)
    (results : list LintResult)
    (getRuleSeverity : string -> Completion LintSeverity.LintSeverity)
    (diagnostics : list vscode.Diagnostic)
  : Completion (list vscode.Diagnostic) :=
  match results with
  | [] => ret diagnostics
  | result :: rest =>
      severity <- getRuleSeverity (ruleId result) ;;
      let vscodeSeverity := mapToVscodeSeverity severity in
      let startPos :=
        vscode.positionAt document (jsonc.offset (node result)) in
      let endPos :=
        vscode.positionAt document
          (jsonc.offset (node result) + jsonc.length (node result)) in
      let range := vscode.mkRange startPos endPos in
      let diagnostic :=
        vscode.mkDiagnostic range (message result) vscodeSeverity None None in
      let diagnostic :=
        vscode.mkDiagnostic (vscode.range diagnostic)
          (vscode.message diagnostic) (vscode.severity diagnostic)
          (Some (ruleId result)) (vscode.source diagnostic) in
      let diagnostic :=
        vscode.mkDiagnostic (vscode.range diagnostic)
          (vscode.message diagnostic) (vscode.severity diagnostic)
          (vscode.code diagnostic) (Some "obdb-linter"%string) in
      convertToVscodeDiagnostics_for document rest getRuleSeverity
        (push diagnostics [diagnostic])
  end.

Definition convertToVscodeDiagnostics (document : vscode.TextDocument)
    (results : list LintResult)
    (getRuleSeverity : string -> Completion LintSeverity.LintSeverity)
  : Completion (list vscode.Diagnostic) :=
  let diagnostics := [] in
  convertToVscodeDiagnostics_for document results getRuleSeverity diagnostics.

End vscodeAdapter.

(** The [SignalLinter] class of the editor front-end, which extends
    [BaseLinter]. *)
Module SignalLinter.
Local Open Scope string_scope.

Record SignalLinter : Type := mkSignalLinter {
  ruleRegistry : RuleRegistry;
  lastResults : list LintResult
}.

Definition getLastResults (self : SignalLinter) : list LintResult :=
  lastResults self.

Definition setLastResults (self : SignalLinter) (results : list LintResult)
  : SignalLinter :=
  {| ruleRegistry := ruleRegistry self; lastResults := results |}.

(** The callback [toDiagnostics] passes as [getRuleSeverity]. *)
Definition ruleSeverity (self : SignalLinter) (ruleId : string)
  : Completion LintSeverity.LintSeverity :=
  let rule := getRuleById (ruleRegistry self) ruleId in
  match rule with
  | None => throw ("Rule not found: " ++ ruleId)
  | Some rule => ret (severity (getConfig rule))
  end.

(** The linter after the call, and the outcome of the call. *)
Definition toDiagnostics (self : SignalLinter)
    (document : vscode.TextDocument) (results : list LintResult)
  : SignalLinter * Completion (list vscode.Diagnostic) :=
  let self := setLastResults self results in
  (self,
   vscodeAdapter.convertToVscodeDiagnostics document results
     (ruleSeverity self)).

End SignalLinter.

(* ===================================================================== *)
(** * The grouping of results by the [lint] sub-command *)
(* ===================================================================== *)

(** [src/cli.ts], function [lintCommand], the three [filter] calls that
    group [allResults] before printing. *)
Module cli.
Local Open Scope string_scope.

(** Sameness of two values.  [Array.prototype.includes] compares objects by
    identity; an object is the same as itself here, and two results that
    are the same here have the same [ruleId] and [message], which is all
    the grouping reads. *)
Fixpoint sameValue (a b : JValue) : bool :=
  match a, b with
  | JNull, JNull => true
  | JBool x, JBool y => Bool.eqb x y
  | JNumber x, JNumber y => String.eqb x y
  | JString x, JString y => String.eqb x y
  | JArray xs, JArray ys =>
      (fix all2 (xs ys : list JValue) : bool :=
         match xs, ys with
         | [], [] => true
         | x :: xs', y :: ys' => sameValue x y && all2 xs' ys'
         | _, _ => false
         end) xs ys
  | JObject ps, JObject qs =>
      (fix all2 (ps qs : list (string * JValue)) : bool :=
         match ps, qs with
         | [], [] => true
         | (k, x) :: ps', (l, y) :: qs' =>
             String.eqb k l && sameValue x y && all2 ps' qs'
         | _, _ => false
         end) ps qs
  | _, _ => false
  end.

Definition sameNode (a b : jsonc.Node) : bool :=
  Nat.eqb (jsonc.offset a) (jsonc.offset b)
  && Nat.eqb (jsonc.length a) (jsonc.length b)
  && sameValue (jsonc.getNodeValue a) (jsonc.getNodeValue b).

Definition sameEdit (a b : Edit.Edit) : bool :=
  String.eqb (Edit.newText a) (Edit.newText b)
  && Nat.eqb (Edit.offset a) (Edit.offset b)
  && Nat.eqb (Edit.length a) (Edit.length b).

Fixpoint sameEdits (xs ys : list Edit.Edit) : bool :=
  match xs, ys with
  | [], [] => true
  | x :: xs', y :: ys' => sameEdit x y && sameEdits xs' ys'
  | _, _ => false
  end.

Definition sameSuggestion (a b : option Suggestion) : bool :=
  match a, b with
  | None, None => true
  | Some x, Some y =>
      String.eqb (title x) (title y) && sameEdits (edits x) (edits y)
  | _, _ => false
  end.

Definition sameResult (a b : LintResult) : bool :=
  String.eqb (ruleId a) (ruleId b)
  && String.eqb (message a) (message b)
  && sameNode (node a) (node b)
  && sameSuggestion (suggestion a) (suggestion b).

(** [arr.includes(r)] *)
Definition includesResult (arr : list LintResult) (r : LintResult) : bool :=
  existsb (sameResult r) arr.

Definition isError (r : LintResult) : bool :=
  includes (ruleId r) "Error" || includes (message r) "error".

Definition isWarning (r : LintResult) : bool :=
  includes (ruleId r) "Warning" || includes (message r) "warning".

Definition errors (allResults : list LintResult) : list LintResult :=
  filter isError allResults.

Definition warnings (allResults : list LintResult) : list LintResult :=
  filter isWarning allResults.

Definition info (allResults : list LintResult) : list LintResult :=
  filter (fun r => negb (includesResult (errors allResults) r)
                   && negb (includesResult (warnings allResults) r))
         allResults.

End cli.

(* ===================================================================== *)
(** * Notions used in the proofs *)
(* ===================================================================== *)

Module JsonText.
Import JSON.
Local Open Scope string_scope.

(** Induction on a value, with the property at hand for every element of
    an array and every property value of an object. *)
Definition JValue_induction (P : JValue -> Prop)
    (Hnull : P JNull)
    (Hbool : forall b, P (JBool b))
    (Hnumber : forall text, P (JNumber text))
    (Hstring : forall s, P (JString s))
    (Harray : forall elements, Forall P elements -> P (JArray elements))
    (Hobject : forall properties,
        Forall (fun kv : string * JValue => P (snd kv)) properties ->
        P (JObject properties))
  : forall v, P v :=
  fix go (v : JValue) : P v :=
    match v with
    | JNull => Hnull
    | JBool b => Hbool b
    | JNumber text => Hnumber text
    | JString s => Hstring s
    | JArray elements =>
        Harray elements
          ((fix all (l : list JValue) : Forall P l :=
              match l with
              | [] => Forall_nil P
              | x :: l' => Forall_cons x (go x) (all l')
              end) elements)
    | JObject properties =>
        Hobject properties
          ((fix all (l : list (string * JValue))
              : Forall (fun kv : string * JValue => P (snd kv)) l :=
              match l with
              | [] => Forall_nil _
              | kv :: l' => Forall_cons kv (go (snd kv)) (all l')
              end) properties)
    end.

(** The text of the elements of an array after the first: each with its
    comma in front. *)
Fixpoint tailText (parts : list string) : string :=
  match parts with
  | [] => ""
  | p :: rest => "," ++ p ++ tailText rest
  end.

(** The text of one member of an object. *)
Definition memberText (kv : string * JValue) : string :=
  let (k, x) := kv in quote k ++ ":" ++ stringify x.

(** A text that can follow a number token: it does not go on with a
    number character. *)
Definition follows (rest : string) : bool :=
  match rest with
  | String c _ => negb (isNumberChar c)
  | EmptyString => true
  end.

(** The text after a value reads on from it only when the value is a
    number. *)
Definition delimited (v : JValue) (rest : string) : bool :=
  match v with
  | JNumber _ => follows rest
  | _ => true
  end.

(** The reader [parseValue] reads the printed value [v] back, whatever
    text that may follow it comes after. *)
Definition reads (parseValue : string -> option (JValue * string))
    (v : JValue) : Prop :=
  forall rest, delimited v rest = true ->
               parseValue (stringify v ++ rest) = Some (v, rest).

(** Own properties with no key twice, in the order of own keys, and with
    well-formed values. *)
Definition goodObject (o : JsObject) : Prop :=
  NoDup (keys o)
  /\ ownOrder (keys o) = true
  /\ Forall (fun kv : string * JValue => wellFormed (snd kv) = true) o.

(** Fuel that suffices to read a value. *)
Fixpoint size (v : JValue) : nat :=
  match v with
  | JArray elements =>
      S (List.length elements + list_sum (map size elements))
  | JObject properties =>
      S (List.length properties
         + list_sum (map (fun kv : string * JValue => size (snd kv))
                         properties))
  | _ => 1
  end.

End JsonText.

(* ===================================================================== *)
(** * What the suggested-metric rule is specified to do *)
(* ===================================================================== *)

Module SuggestionSpec.
Import suggestedMetricPatterns.
Local Open Scope string_scope.

(** An optional matching rule matches a subject when it is present and its
    test answers yes. *)
Definition matchesOpt (re : option RegExp) (subject : string) : bool :=
  match re with
  | Some r => test r subject
  | None => false
  end.

(** (id matches OR name matches) AND NOT excluded-by-name *)
Definition wins (pattern : MetricPattern) (id name : string) : bool :=
  (matchesOpt (idPattern pattern) id || matchesOpt (namePattern pattern) name)
  && negb (matchesOpt (excludeNamePattern pattern) name).

(** The signal is one the rule goes on with: it is not [null], its
    suggestedMetric is absent or falsy, its id and its name are truthy,
    and these two convert to the texts [id] and [name]. *)
Definition ready (signal : Signal) (id name : string) : Prop :=
  signal <> JNull
  /\ truthyValue (getProp "suggestedMetric" (entries signal)) = false
  /\ truthyValue (getProp "id" (entries signal)) = true
  /\ truthyValue (getProp "name" (entries signal)) = true
  /\ toString (getProp "id" (entries signal)) = ret id
  /\ toString (getProp "name" (entries signal)) = ret name.

(** The result for a pattern, with the replacement text [newText]. *)
Definition resultWith (pattern : MetricPattern) (node : jsonc.Node)
    (newText : string) : LintResult :=
  {| ruleId := "suggested-metric-suggestion";
     message :=
       "Consider adding suggestedMetric: "
       ++ String JSON.dquote
            (suggestedMetric pattern ++ String JSON.dquote "")
       ++ " (" ++ description pattern ++ ")";
     node := node;
     suggestion :=
       Some {| title :=
                 "Add suggestedMetric: "
                 ++ String JSON.dquote
                      (suggestedMetric pattern ++ String JSON.dquote "");
               edits :=
                 [ {| Edit.newText := newText;
                      Edit.offset := jsonc.offset node;
                      Edit.length := jsonc.length node |} ] |} |}.

(** The properties emitted first, when the signal has them. *)
Definition knownFirst : list string := ["id"; "path"; "fmt"; "name"].

Definition present (signalObj : JsObject) (key : string) : JsObject :=
  match getProp key signalObj with
  | Some v => [(key, v)]
  | None => []
  end.

Definition isRemaining (kv : string * JValue) : bool :=
  negb (existsb (String.eqb (fst kv)) (knownFirst ++ ["suggestedMetric"])%list).

(** Canonical order, as the specification has it: id, path, fmt, name
    (each only if originally present), then suggestedMetric, then the
    remaining original properties in their original relative order. *)
Definition canonical (signalObj : JsObject) (suggestedMetric : string)
  : JsObject :=
  (flat_map (present signalObj) knownFirst
   ++ [("suggestedMetric", JString suggestedMetric)]
   ++ filter isRemaining signalObj)%list.

(** The properties whose name is an array index, and the others. *)
Definition indexPart (signalObj : JsObject) : JsObject :=
  filter (fun kv => negb (isName (fst kv))) signalObj.

Definition namePart (signalObj : JsObject) : JsObject :=
  filter (fun kv => isName (fst kv)) signalObj.

(** A remaining property that is kept: one that is not named
    [__proto__]. *)
Definition isKept (kv : string * JValue) : bool :=
  isRemaining kv && negb (String.eqb (fst kv) "__proto__").

(** The properties the code sets first: id, path, fmt and name, each if
    the signal has it, then suggestedMetric. *)
Definition headProperties (signalObj : JsObject) (suggestedMetric : string)
  : JsObject :=
  (flat_map (present signalObj) knownFirst
   ++ [("suggestedMetric", JString suggestedMetric)])%list.

(** The order of the code: the array indices first, as in every object,
    then the canonical order of the names, without [__proto__]. *)
Definition rewritten (signalObj : JsObject) (suggestedMetric : string)
  : JsObject :=
  (indexPart signalObj
   ++ headProperties signalObj suggestedMetric
   ++ filter isKept (namePart signalObj))%list.

(** What the rule returns for a pattern that wins: the result with the
    text of the rewritten signal, or the error of the rewriting. *)
Definition suggestionOf (pattern : MetricPattern) (signal : Signal)
    (node : jsonc.Node) : Completion (option LintResult) :=
  newText <-
    SuggestedMetricSuggestionRule.createSignalWithSuggestedMetric signal node
      (suggestedMetric pattern) ;;
  ret (Some (resultWith pattern node newText)).

(** The error of a call of [orderedSignal.hasOwnProperty] when that is
    not a function. *)
Definition notAFunction : JsError :=
  "orderedSignal.hasOwnProperty is not a function".

(** A property after which [orderedSignal.hasOwnProperty] is no longer a
    function: one named [hasOwnProperty], or one named [__proto__] whose
    value is an object or [null]. *)
Definition isBreaker (kv : string * JValue) : bool :=
  String.eqb (fst kv) "hasOwnProperty"
  || (String.eqb (fst kv) "__proto__"
      && match snd kv with
         | JObject _ => true
         | JNull => true
         | _ => false
         end).

(** Such a property comes before the last. *)
Fixpoint breaksEarly (signalObj : JsObject) : bool :=
  match signalObj with
  | [] => false
  | kv :: rest =>
      match rest with
      | [] => false
      | _ :: _ => isBreaker kv || breaksEarly rest
      end
  end.

(** The names of the properties are plain: none is an array index,
    [__proto__] or [hasOwnProperty]. *)
Definition plainNames (signalObj : JsObject) : bool :=
  forallb (fun kv : string * JValue =>
             isName (fst kv)
             && negb (String.eqb (fst kv) "__proto__")
             && negb (String.eqb (fst kv) "hasOwnProperty"))
          signalObj.

(** No property is named [__proto__] or [hasOwnProperty]. *)
Definition ordinaryNames (signalObj : JsObject) : bool :=
  forallb (fun kv : string * JValue =>
             negb (String.eqb (fst kv) "__proto__")
             && negb (String.eqb (fst kv) "hasOwnProperty"))
          signalObj.

(** The own properties of a value are listed once each and in the order
    of own keys (as those of every object are; an array or a string has
    them so up to the largest array index). *)
Definition listed (v : JValue) : bool :=
  JSON.uniqueKeys [] (keys (entries v)) && ownOrder (keys (entries v)).

End SuggestionSpec.

(** What the adapter is specified to build. *)
Module AdapterSpec.

(** The diagnostic the loop of [convertToVscodeDiagnostics] builds for one
    result whose rule has severity [severity]. *)
Definition diagnosticOf (document : vscode.TextDocument)
    (result : LintResult) (severity : LintSeverity.LintSeverity)
  : vscode.Diagnostic :=
  {| vscode.range :=
       {| vscode.start :=
            vscode.positionAt document (jsonc.offset (node result));
          vscode.end_ :=
            vscode.positionAt document
              (jsonc.offset (node result) + jsonc.length (node result)) |};
     vscode.message := message result;
     vscode.severity := vscodeAdapter.mapToVscodeSeverity severity;
     vscode.code := Some (ruleId result);
     vscode.source := Some "obdb-linter"%string |}.

(** A result whose rule id resolves to no registered rule. *)
Definition unresolved (registry : RuleRegistry) (result : LintResult)
  : bool :=
  match getRuleById registry (ruleId result) with
  | Some _ => false
  | None => true
  end.

End AdapterSpec.

(* ===================================================================== *)
(** * Sample data *)
(* ===================================================================== *)

Module Samples.
Import suggestedMetricPatterns.
Local Open Scope string_scope.

(** [/RPM$/] and [/rpm/i] on the subjects used below, as predicates. *)
Definition endsWith (suffix s : string) : bool :=
  String.eqb (JSON.drop (String.length s - String.length suffix) s) suffix.

Definition rpmById : MetricPattern :=
  {| idPattern := Some (mkRegExp (endsWith "RPM"));
     namePattern := None;
     excludeNamePattern := None;
     suggestedMetric := "rpm";
     description := "Engine speed" |}.

Definition speedByName : MetricPattern :=
  {| idPattern := Some (mkRegExp (endsWith "RPM"));
     namePattern := Some (mkRegExp (fun s => includes s "Speed"));
     excludeNamePattern := Some (mkRegExp (fun s => includes s "Engine"));
     suggestedMetric := "speed";
     description := "Vehicle speed" |}.

(** [{"id":"X1","name":"Engine RPM","unit":"rpm"}] *)
Definition signalX1 : Signal :=
  JObject
    [("id", JString "X1"); ("name", JString "Engine RPM");
   ("unit", JString "rpm")].

Definition nodeX1 : jsonc.Node :=
  {| jsonc.offset := 31; jsonc.length := 44;
     jsonc.getNodeValue := signalX1 |}.

(** [{"id":"X1","name":"Engine RPM","suggestedMetric":"rpm","unit":"rpm"}] *)
Definition rewrittenX1 : string :=
  "{" ++ SuggestedMetricSuggestionRule.quoted "id" ++ ":"
  ++ SuggestedMetricSuggestionRule.quoted "X1" ++ ","
  ++ SuggestedMetricSuggestionRule.quoted "name" ++ ":"
  ++ SuggestedMetricSuggestionRule.quoted "Engine RPM" ++ ","
  ++ SuggestedMetricSuggestionRule.quoted "suggestedMetric" ++ ":"
  ++ SuggestedMetricSuggestionRule.quoted "rpm" ++ ","
  ++ SuggestedMetricSuggestionRule.quoted "unit" ++ ":"
  ++ SuggestedMetricSuggestionRule.quoted "rpm" ++ "}".

(** A second pattern on ids that end in RPM. *)
Definition revsById : MetricPattern :=
  {| idPattern := Some (mkRegExp (endsWith "RPM"));
     namePattern := None;
     excludeNamePattern := None;
     suggestedMetric := "revs";
     description := "Revolutions" |}.

(** [/RPM/] on the name. *)
Definition rpmByName : MetricPattern :=
  {| idPattern := None;
     namePattern := Some (mkRegExp (fun s => includes s "RPM"));
     excludeNamePattern := None;
     suggestedMetric := "rpm";
     description := "Engine speed" |}.

(** [{"id":"ENGINE_RPM","name":"Engine RPM"}] *)
Definition signalEngineRpm : Signal :=
  JObject
    [("id", JString "ENGINE_RPM"); ("name", JString "Engine RPM")].

Definition nodeEngineRpm : jsonc.Node :=
  {| jsonc.offset := 31; jsonc.length := 39;
     jsonc.getNodeValue := signalEngineRpm |}.

(** The signal ENGINE_RPM, Engine RPM, with an empty suggestedMetric. *)
Definition signalEmptyMetric : Signal :=
  JObject
    [("id", JString "ENGINE_RPM"); ("name", JString "Engine RPM");
   ("suggestedMetric", JString "")].

Definition nodeEmptyMetric : jsonc.Node :=
  {| jsonc.offset := 31; jsonc.length := 60;
     jsonc.getNodeValue := signalEmptyMetric |}.

(** A source with the signal [signalEngineRpm] at offset 31. *)
Definition sourceEngineRpm : string :=
  "{ " ++ SuggestedMetricSuggestionRule.quoted "commands"
  ++ ": [ { " ++ SuggestedMetricSuggestionRule.quoted "signals" ++ ": [ "
  ++ JSON.stringify signalEngineRpm ++ " ] } ] }".

(** A signal that has its suggestedMetric already. *)
Definition signalWithMetric : Signal :=
  JObject
    [("id", JString "ENGINE_RPM"); ("name", JString "Engine RPM");
   ("suggestedMetric", JString "rpm")].

(** The signal X1, Engine RPM, with a property named [0], which is the
    first of its own keys wherever it stands in the text. *)
Definition signalWithIndex : Signal :=
  JObject
    [("0", JString "a"); ("id", JString "X1");
     ("name", JString "Engine RPM")].

Definition nodeWithIndex : jsonc.Node :=
  {| jsonc.offset := 31; jsonc.length := 41;
     jsonc.getNodeValue := signalWithIndex |}.

(** The signal ENGINE_RPM, Engine RPM, with the suggestedMetric [v]. *)
Definition signalWithValue (v : JValue) : Signal :=
  JObject
    [("id", JString "ENGINE_RPM"); ("name", JString "Engine RPM");
     ("suggestedMetric", v)].

(** A rule that implements only [validateDocument] and reports nothing. *)
Definition quietDocumentRule : ILinterRule :=
  {| getConfig :=
       {| id := "quiet-document"; name := "Quiet";
          Rule.description := "Reports nothing";
          severity := LintSeverity.Hint; enabled := false |};
     validateSignal := None;
     validateCommand := None;
     validateCommands := None;
     validateDocument := Some (fun _ => ret None) |}.

(** A result whose message holds both [error] and [warning]. *)
Definition resultBoth : LintResult :=
  {| ruleId := "signal-bit-overlap";
     message := "Bit overlap: treated as error, not warning";
     node := nodeX1;
     suggestion := None |}.

End Samples.

(* ===================================================================== *)
(** * The command line: arguments and dispatch *)
(* ===================================================================== *)

(** The part of Node's [process] and [console] the command line uses: a
    run writes lines to the two output streams and either returns or ends
    the process with an exit code. *)
Module process.

Inductive Stream : Type :=
| stdout
| stderr.

(** The lines written so far, oldest first. *)
Definition Console : Type := list (Stream * string).

Inductive Run (A : Type) : Type :=
| Returned (value : A)
| Exited (code : nat).
Arguments Returned {A} value.
Arguments Exited {A} code.

Definition Process (A : Type) : Type := Console -> Run A * Console.

#[global] Instance Monad_Process : Monad Process :=
  {| ret := fun A (a : A) console => (Returned a, console);
     bind := fun A B (m : Process A) (k : A -> Process B) console =>
               match m console with
               | (Returned a, console') => k a console'
               | (Exited code, console') => (Exited code, console')
               end |}.

(** [console.log(line)] *)
Definition console_log (line : string) : Process unit :=
  fun console => (Returned tt, console ++ [(stdout, line)]).

(** [console.error(line)] *)
Definition console_error (line : string) : Process unit :=
  fun console => (Returned tt, console ++ [(stderr, line)]).

(** [process.exit(code)] *)
Definition exit {A : Type} (code : nat) : Process A :=
  fun console => (Exited code, console).

(** [if (!x) no else yes(x)] for a [string | undefined]. *)
Definition ifMissing {A : Type} (x : option string) (no : A)
    (yes : string -> A) : A :=
  match x with
  | Some s => if String.eqb s "" then no else yes s
  | None => no
  end.

End process.

(** [src/cli.ts]: [parseArgs], [printUsage] and [main]. *)
Module cliMain.
Import process.
Local Open Scope string_scope.

(** [CommandSupportOptions], which extends [CliOptions]. *)
Record CommandSupportOptions : Type := mkOptions {
  command : string;
  workspacePath : option string;
  commandId : option string;
  commit : bool;
  json : bool
}.

Definition usage : list string :=
  [ "Usage: obdb <command> <workspace-path> [options]";
    "";
    "Commands:";
    "  lint <workspace-path>             Lint signalset for issues and warnings";
    "  optimize <workspace-path>         Parse and optimize signalset";
    "  command-support <workspace-path> <command-id>  Show supported and unsupported model years for a command";
    "";
    "Options:";
    "  --commit                          Apply the optimizations to the file";
    "  --json                            Output results in JSON format (for lint)" ].

Fixpoint logAll (lines : list string) : Process unit :=
  match lines with
  | [] => ret tt
  | line :: rest => console_log line ;; logAll rest
  end.

Definition printUsage : Process unit := logAll usage.

(** The [for (let i = 1; i < args.length; i++)] loop of [parseArgs], over
    the arguments after the command. *)
Fixpoint parseArgs_for (command : string) (args : list string)
    (workspacePath commandId : option string) (commit json : bool)
  : CommandSupportOptions :=
  match args with
  | [] => mkOptions command workspacePath commandId commit json
  | arg :: rest =>
      if String.eqb arg "--commit" then
        parseArgs_for command rest workspacePath commandId true json
      else if String.eqb arg "--json" then
        parseArgs_for command rest workspacePath commandId commit true
      else if negb (truthy workspacePath) then
        parseArgs_for command rest (Some arg) commandId commit json
      else if negb (truthy commandId)
              && String.eqb command "command-support" then
        parseArgs_for command rest workspacePath (Some arg) commit json
      else
        parseArgs_for command rest workspacePath commandId commit json
  end.

(** [parseArgs], on [args = process.argv.slice(2)]. *)
Definition parseArgs (args : list string) : Process CommandSupportOptions :=
  match args with
  | [] => printUsage ;; exit 1
  | command :: rest =>
      ret (parseArgs_for command rest None None false false)
  end.

Section Main.

(** The three sub-commands, which read and write files. *)
Variable lintCommand : string -> bool -> Process unit.
Variable optimizeCommand : string -> bool -> Process unit.
Variable commandSupportCommand : string -> string -> Process unit.

(** [console.error(message); printUsage(); process.exit(1)] *)
Definition fail (message : string) : Process unit :=
  console_error message ;; printUsage ;; exit 1.

Definition main (args : list string) : Process unit :=
  options <- parseArgs args ;;
  if String.eqb (command options) "lint" then
    ifMissing (workspacePath options)
      (fail "Error: workspace-path is required for lint command")
      (fun workspacePath => lintCommand workspacePath (json options))
  else if String.eqb (command options) "optimize" then
    ifMissing (workspacePath options)
      (fail "Error: workspace-path is required for optimize command")
      (fun workspacePath => optimizeCommand workspacePath (commit options))
  else if String.eqb (command options) "command-support" then
    ifMissing (workspacePath options)
      (fail "Error: workspace-path is required for command-support")
      (fun workspacePath =>
         ifMissing (commandId options)
           (fail "Error: command-id is required for command-support")
           (fun commandId => commandSupportCommand workspacePath commandId))
  else
    fail ("Error: Unknown command '" ++ command options ++ "'").

End Main.

End cliMain.

(** What the arguments are specified to mean. *)
Module ArgsSpec.
Local Open Scope string_scope.

Definition isFlag (arg : string) : bool :=
  String.eqb arg "--commit" || String.eqb arg "--json".

(** The arguments that are not flags, in order. *)
Definition positional (args : list string) : list string :=
  filter (fun arg => negb (isFlag arg)) args.

Definition nonEmpty (arg : string) : bool := negb (String.eqb arg "").

(** The value a variable ends with when each candidate in turn is
    assigned to it as long as it is unset or empty: the first non-empty
    candidate, or the empty string when there are only empty ones. *)
Definition firstKept (candidates : list string) : option string :=
  match find nonEmpty candidates with
  | Some arg => Some arg
  | None => match candidates with
            | [] => None
            | _ :: _ => Some ""
            end
  end.

(** The candidates after the first non-empty one. *)
Fixpoint afterFirstKept (candidates : list string) : list string :=
  match candidates with
  | [] => []
  | arg :: rest => if nonEmpty arg then rest else afterFirstKept rest
  end.

(** The same two, for a variable that may be set already. *)
Definition keep (current : option string) (candidates : list string)
  : option string :=
  if truthy current then current
  else match firstKept candidates with
       | Some arg => Some arg
       | None => current
       end.

Definition leftAfter (current : option string) (candidates : list string)
  : list string :=
  if truthy current then candidates else afterFirstKept candidates.

End ArgsSpec.

(* ===================================================================== *)
(** * The [lint] sub-command: the pass over the tree and the report *)
(* ===================================================================== *)

(** [src/cli.ts], function [lintCommand]: the collection of the results
    over the parsed tree and the report in text form. *)
Module cliLint.
Import process.
Local Open Scope string_scope.

Section Tree.

(** The tree around a node, as the parser gives it: [node.children] and
    [jsonc.findNodeAtLocation(node, path)]. *)
Variable children : jsonc.Node -> option (list jsonc.Node).
Variable findNodeAtLocation :
  jsonc.Node -> list string -> option jsonc.Node.

(** [signalsNode?.children] *)
Definition childrenOf (signalsNode : option jsonc.Node)
  : option (list jsonc.Node) :=
  match signalsNode with
  | Some signalsNode => children signalsNode
  | None => None
  end.

(** [signalsNode?.children?.map(...) || []] *)
Definition signalsInCommandOf (signalsNode : option jsonc.Node)
  : list SignalInCommand :=
  match childrenOf signalsNode with
  | Some signalNodes =>
      map (fun signalNode =>
             {| signal := jsonc.getNodeValue signalNode; signalNode := signalNode |})
          signalNodes
  | None => []
  end.

(** [for (const signalNode of signalsNode.children)] *)
Fixpoint lintSignals_for (linter : CliSignalLinter.CliSignalLinter)
    (signalNodes : list jsonc.Node) (allResults : list LintResult)
  : Completion (list LintResult) :=
  match signalNodes with
  | [] => ret allResults
  | signalNode :: rest =>
      let signal := jsonc.getNodeValue signalNode in
      signalResults <- CliSignalLinter.lintSignal linter signal signalNode ;;
      lintSignals_for linter rest (push allResults signalResults)
  end.

(** [for (const commandNode of commandsNode.children)] *)
Fixpoint lintEachCommand_for (linter : CliSignalLinter.CliSignalLinter)
    (commandNodes : list jsonc.Node) (allResults : list LintResult)
  : Completion (list LintResult) :=
  match commandNodes with
  | [] => ret allResults
  | commandNode :: rest =>
      let command := jsonc.getNodeValue commandNode in
      let signalsNode := findNodeAtLocation commandNode ["signals"] in
      cmdResults <-
        CliSignalLinter.lintCommand linter command commandNode
          (signalsInCommandOf signalsNode) ;;
      let allResults := push allResults cmdResults in
      allResults <-
        match childrenOf signalsNode with
        | Some signalNodes => lintSignals_for linter signalNodes allResults
        | None => ret allResults
        end ;;
      lintEachCommand_for linter rest allResults
  end.

(** Lines 343 to 379: [allResults] after the four kinds of calls. *)
Definition collectResults (linter : CliSignalLinter.CliSignalLinter)
    (rootNode : jsonc.Node) : Completion (list LintResult) :=
  let allResults := [] in
  documentResults <- CliSignalLinter.lintDocument linter rootNode ;;
  let allResults := push allResults documentResults in
  let commandsNode := findNodeAtLocation rootNode ["commands"] in
  match childrenOf commandsNode, commandsNode with
  | Some commandNodes, Some commandsNode =>
      commandResults <- CliSignalLinter.lintCommands linter commandsNode ;;
      let allResults := push allResults commandResults in
      lintEachCommand_for linter commandNodes allResults
  | _, _ => ret allResults
  end.

End Tree.

(** [`${n}`] for a length. *)
Definition decimal (n : nat) : string :=
  DecimalString.NilEmpty.string_of_uint (Nat.to_uint n).

Definition noIssuesLine : string := "[bold green]‚úì No issues found![/bold green]".
Definition errorMark : string := "[red]‚úó[/red]".
Definition warningMark : string := "[yellow]‚ö†[/yellow]".
Definition infoMark : string := "[cyan]‚Ñπ[/cyan]".

(** [`  ${mark} ${issue.ruleId}: ${issue.message}`] *)
Definition issueLine (mark : string) (issue : LintResult) : string :=
  "  " ++ mark ++ " " ++ ruleId issue ++ ": " ++ message issue.

(** [for (const issue of issues) console.log(...)] *)
Fixpoint logIssues (mark : string) (issues : list LintResult)
  : Process unit :=
  match issues with
  | [] => ret tt
  | issue :: rest =>
      console_log (issueLine mark issue) ;; logIssues mark rest
  end.

(** [if (cond) { body }] *)
Definition when (cond : bool) (body : Process unit) : Process unit :=
  if cond then body else ret tt.

(** Lines 386 to 427: the report in text form. *)
Definition reportText (signalsetPath : string)
    (allResults : list LintResult) : Process unit :=
  if Nat.eqb (List.length allResults) 0 then
    console_log noIssuesLine
  else
    console_log ("[bold]Linting Results:[/bold] " ++ signalsetPath) ;;
    console_log
      ("[dim]Found " ++ decimal (List.length allResults)
       ++ " issue(s)[/dim]") ;;
    console_log "" ;;
    let errors := cli.errors allResults in
    let warnings := cli.warnings allResults in
    let info := cli.info allResults in
    when (Nat.ltb 0 (List.length errors))
      (console_log
         ("[bold red]Errors (" ++ decimal (List.length errors)
          ++ ")[/bold red]") ;;
       logIssues errorMark errors ;;
       console_log "") ;;
    when (Nat.ltb 0 (List.length warnings))
      (console_log
         ("[bold yellow]Warnings (" ++ decimal (List.length warnings)
          ++ ")[/bold yellow]") ;;
       logIssues warningMark warnings ;;
       console_log "") ;;
    when (Nat.ltb 0 (List.length info))
      (console_log
         ("[bold cyan]Info (" ++ decimal (List.length info)
          ++ ")[/bold cyan]") ;;
       logIssues infoMark (firstn 10 info) ;;
       when (Nat.ltb 10 (List.length info))
         (console_log
            ("  ... and " ++ decimal (List.length info - 10) ++ " more")) ;;
       console_log "") ;;
    console_log
      ("[dim]Total: " ++ decimal (List.length allResults)
       ++ " issue(s)[/dim]").

End cliLint.

(** What the pass is specified to collect. *)
Module PassSpec.
Import EngineSpec cliLint.

Section Tree.

Variable children : jsonc.Node -> option (list jsonc.Node).
Variable findNodeAtLocation :
  jsonc.Node -> list string -> option jsonc.Node.

(** The signal nodes of a command: the children of its [signals], none
    when it has no [signals] or they have no children. *)
Definition signalNodesOf (commandNode : jsonc.Node) : list jsonc.Node :=
  match childrenOf children (findNodeAtLocation commandNode ["signals"]) with
  | Some signalNodes => signalNodes
  | None => []
  end.

(** The results for one signal node. *)
Definition ofSignal (linter : CliSignalLinter.CliSignalLinter)
    (signalNode : jsonc.Node) : Completion (list LintResult) :=
  CliSignalLinter.lintSignal linter (jsonc.getNodeValue signalNode) signalNode.

(** The results for one command node: those of the command, then those of
    each of its signals in order. *)
Definition ofCommand (linter : CliSignalLinter.CliSignalLinter)
    (commandNode : jsonc.Node) : Completion (list LintResult) :=
  commandResults <-
    CliSignalLinter.lintCommand linter (jsonc.getNodeValue commandNode) commandNode
      (signalsInCommandOf children
         (findNodeAtLocation commandNode ["signals"])) ;;
  signalResults <-
    sequence (map (ofSignal linter) (signalNodesOf commandNode)) ;;
  ret (commandResults ++ concat signalResults).

(** The [commands] node and its children, when the root has both. *)
Definition commandsOf (rootNode : jsonc.Node)
  : option (jsonc.Node * list jsonc.Node) :=
  match findNodeAtLocation rootNode ["commands"] with
  | Some commandsNode =>
      match children commandsNode with
      | Some commandNodes => Some (commandsNode, commandNodes)
      | None => None
      end
  | None => None
  end.

(** Document, then commands, then command by command. *)
Definition inOrder (linter : CliSignalLinter.CliSignalLinter)
    (rootNode : jsonc.Node) : Completion (list LintResult) :=
  documentResults <- CliSignalLinter.lintDocument linter rootNode ;;
  match commandsOf rootNode with
  | Some (commandsNode, commandNodes) =>
      commandsResults <- CliSignalLinter.lintCommands linter commandsNode ;;
      perCommand <- sequence (map (ofCommand linter) commandNodes) ;;
      ret (documentResults ++ commandsResults ++ concat perCommand)
  | None => ret documentResults
  end.

End Tree.

(** [null] or one result, as a list. *)
Definition resultList (result : option LintResult) : list LintResult :=
  match result with
  | Some r => [r]
  | None => []
  end.

End PassSpec.

(** What the text report is specified to write. *)
Module ReportSpec.
Import process cliLint.
Local Open Scope string_scope.

(** [writes p lines]: from any console, [p] returns after it has written
    [lines], in order, on the standard output. *)
Definition writes (p : Process unit) (lines : list string) : Prop :=
  forall console,
    p console = (Returned tt, (console ++ map (pair stdout) lines)%list).

(** One group of the report: nothing for an empty group; otherwise the
    title with the size of the group, the lines of the issues shown, the
    note on those left out, and an empty line. *)
Definition groupLines (title : string) (mark : string)
    (group shown : list LintResult) (note : list string) : list string :=
  match group with
  | [] => []
  | _ :: _ =>
      (title :: map (issueLine mark) shown ++ note ++ [""])%list
  end.

Definition headerLine (signalsetPath : string) : string :=
  "[bold]Linting Results:[/bold] " ++ signalsetPath.

Definition foundLine (n : nat) : string :=
  "[dim]Found " ++ decimal n ++ " issue(s)[/dim]".

Definition totalLine (n : nat) : string :=
  "[dim]Total: " ++ decimal n ++ " issue(s)[/dim]".

Definition errorsTitle (n : nat) : string :=
  "[bold red]Errors (" ++ decimal n ++ ")[/bold red]".

Definition warningsTitle (n : nat) : string :=
  "[bold yellow]Warnings (" ++ decimal n ++ ")[/bold yellow]".

Definition infoTitle (n : nat) : string :=
  "[bold cyan]Info (" ++ decimal n ++ ")[/bold cyan]".

Definition moreLine (n : nat) : string :=
  "  ... and " ++ decimal (n - 10) ++ " more".

Definition moreNote (info : list LintResult) : list string :=
  if Nat.ltb 10 (List.length info)
  then [moreLine (List.length info)]
  else [].

Definition reportLines (signalsetPath : string)
    (allResults : list LintResult) : list string :=
  match allResults with
  | [] => [noIssuesLine]
  | _ :: _ =>
      let errors := cli.errors allResults in
      let warnings := cli.warnings allResults in
      let info := cli.info allResults in
      ([headerLine signalsetPath;
        foundLine (List.length allResults);
        ""]
       ++ groupLines (errorsTitle (List.length errors))
            errorMark errors errors []
       ++ groupLines (warningsTitle (List.length warnings))
            warningMark warnings warnings []
       ++ groupLines (infoTitle (List.length info))
            infoMark info (firstn 10 info) (moreNote info)
       ++ [totalLine (List.length allResults)])%list
  end.

End ReportSpec.

(* ===================================================================== *)
(** * The text document of the command line *)
(* ===================================================================== *)

(** [src/linter/vscodeShim.ts]: [createTextDocument].  A line number is
    an integer; a character of the model is one code unit of the
    JavaScript string. *)
Module vscodeShim.
Import BinInt.
Local Open Scope string_scope.

Record Position : Type := mkPosition {
  line : Z;
  character : nat
}.

Record Range : Type := mkRange {
  start : Position;
  end_ : Position
}.

Record TextLine : Type := mkTextLine {
  text : string;
  lineNumber : Z;
  range : Range
}.

Record TextDocument : Type := mkTextDocument {
  getText : unit -> string;
  getWordRangeAtPosition : Position -> option Range;
  lineAt : Z -> TextLine
}.

(** [content.split('\n')] *)
Fixpoint split (content : string) : list string :=
  match content with
  | EmptyString => [EmptyString]
  | String c rest =>
      if Ascii.eqb c JSON.newline then EmptyString :: split rest
      else String c (hd EmptyString (split rest)) :: tl (split rest)
  end.

(** [lines[lineNumber]] *)
Definition at_ (lines : list string) (lineNumber : Z) : option string :=
  if (lineNumber <? 0)%Z then None
  else nth_error lines (Z.to_nat lineNumber).

(** [s || ''] *)
Definition orEmpty (s : option string) : string :=
  if truthy s then match s with Some s => s | None => "" end else "".

(** [s?.length || 0] *)
Definition lengthOrZero (s : option string) : nat :=
  match s with
  | Some s => if Nat.eqb (String.length s) 0 then 0 else String.length s
  | None => 0
  end.

Definition createTextDocument (content : string) : TextDocument :=
  let lines := split content in
  {| getText := fun _ => content;
     getWordRangeAtPosition := fun _ => None;
     lineAt := fun lineNumber =>
       {| text := orEmpty (at_ lines lineNumber);
          lineNumber := lineNumber;
          range :=
            {| start := {| line := lineNumber; character := 0 |};
               end_ := {| line := lineNumber;
                          character := lengthOrZero (at_ lines lineNumber)
                       |} |} |} |}.

End vscodeShim.

(** Notions used to state the properties of the text document. *)
Module DocumentSpec.
Import BinInt.

(** The number of line feeds of a text. *)
Fixpoint lineFeeds (content : string) : nat :=
  match content with
  | EmptyString => 0
  | String c rest =>
      (if Ascii.eqb c JSON.newline then 1 else 0) + lineFeeds rest
  end.

(** The texts of the lines [0 .. count - 1] of a document. *)
Definition lineTexts (document : vscodeShim.TextDocument) (count : nat)
  : list string :=
  map (fun n => vscodeShim.text (vscodeShim.lineAt document (Z.of_nat n)))
      (seq 0 count).

Definition lineFeed : string := String JSON.newline EmptyString.

(** [c] occurs in [s]. *)
Fixpoint occurs (c : ascii) (s : string) : bool :=
  match s with
  | EmptyString => false
  | String d rest => Ascii.eqb d c || occurs c rest
  end.

End DocumentSpec.

(* ===================================================================== *)
(** * The four entry points of the engine taken together *)
(* ===================================================================== *)

(** Notions used to state a property of [lintSignal], [lintCommand],
    [lintCommands] and [lintDocument] at once. *)
Module EngineCalls.
Import EngineSpec.

(** A call of one of the four entry points, with its arguments. *)
Inductive Call : Type :=
| OnSignal (target : Target) (node : jsonc.Node)
| OnCommand (command : Command) (commandNode : jsonc.Node)
    (signalsInCommand : list SignalInCommand)
| OnCommands (commandsNode : jsonc.Node)
| OnDocument (rootNode : jsonc.Node).

(** The call made on a linter. *)
Definition lintAt (call : Call) (self : BaseLinter.BaseLinter)
  : Completion (list LintResult) :=
  match call with
  | OnSignal target node => BaseLinter.lintSignal self target node
  | OnCommand command commandNode signalsInCommand =>
      BaseLinter.lintCommand self command commandNode signalsInCommand
  | OnCommands commandsNode => BaseLinter.lintCommands self commandsNode
  | OnDocument rootNode => BaseLinter.lintDocument self rootNode
  end.

(** What one rule contributes to the call. *)
Definition contributionTo (call : Call) (rule : ILinterRule)
  : Completion (list LintResult) :=
  match call with
  | OnSignal target node =>
      contribution flatten (signalEntry target node rule)
  | OnCommand command commandNode signalsInCommand =>
      contribution flatten
        (commandEntry command commandNode signalsInCommand rule)
  | OnCommands commandsNode =>
      contribution flattenArray (commandsEntry commandsNode rule)
  | OnDocument rootNode =>
      contribution flattenArray (documentEntry rootNode rule)
  end.

(** The linter over a registry. *)
Definition linterOf (registry : RuleRegistry) : BaseLinter.BaseLinter :=
  {| BaseLinter.ruleRegistry := registry |}.

(** One outcome after the other: the results of both, or the first
    throw. *)
Definition andThen (first second : Completion (list LintResult))
  : Completion (list LintResult) :=
  xs <- first ;; ys <- second ;; ret (xs ++ ys).

End EngineCalls.

(* ===================================================================== *)
(** * The [optimize] sub-command: applying the edits *)
(* ===================================================================== *)

(** [src/cli.ts], function [optimizeCommand], lines 177 to 240: the edits
    are put in descending order of command index and applied one after
    the other to the text of the signalset.  What the regular expressions
    of the loop compute is taken as given; the rest of the loop is as
    written. *)
Module cliOptimize.
Import process.
Local Open Scope string_scope.

(** [newFilter: any | null]: a value, [null] among them, or
    [undefined]. *)
Record OptimizationEdit : Type := mkOptimizationEdit {
  commandId : string;
  newFilter : option JValue;
  commandIndex : nat;
  useDbgTrue : bool
}.

(** [s.substring(start, end)], for [start <= end] as at its uses. *)
Definition substring (start end_ : nat) (s : string) : string :=
  JSON.take (end_ - start) (JSON.drop start s).

(** [s.substring(start)] *)
Definition substringFrom (start : nat) (s : string) : string :=
  JSON.drop start s.

(** [sort((a, b) => b.commandIndex - a.commandIndex)] on a copy of the
    array: the sort is stable, so the result is the one an insertion of
    each edit before the first edit that does not have to come before it
    gives. *)
Fixpoint insert (edit : OptimizationEdit) (sorted : list OptimizationEdit)
  : list OptimizationEdit :=
  match sorted with
  | [] => [edit]
  | x :: rest =>
      if Nat.leb (commandIndex x) (commandIndex edit)
      then edit :: x :: rest
      else x :: insert edit rest
  end.

Definition sort (editsToApply : list OptimizationEdit)
  : list OptimizationEdit :=
  fold_right insert [] editsToApply.

(** [edit.useDbgTrue ? 'Set "dbg": true' : 'Set dbgfilter'] *)
Definition action (edit : OptimizationEdit) : string :=
  if useDbgTrue edit
  then "Set " ++ SuggestedMetricSuggestionRule.quoted "dbg" ++ ": true"
  else "Set dbgfilter".

Definition appliedLine (edit : OptimizationEdit) : string :=
  "  ‚úÖ " ++ action edit ++ " for " ++ commandId edit.

(** [s.endsWith(',')] *)
Definition endsWithComma (s : string) : bool :=
  String.eqb (JSON.drop (String.length s - 1) s) ",".

(** [lines.join('\n')] *)
Fixpoint joinLines (lines : list string) : string :=
  match lines with
  | [] => ""
  | [line] => line
  | line :: rest => line ++ String JSON.newline (joinLines rest)
  end.

(** [filter.key], where [filter] is [edit.newFilter!]: the assertion is
    not checked at run time, and reading a property of [null] or
    [undefined] throws. *)
Definition readFilter (filter : option JValue) (key : string)
  : Completion (option JValue) :=
  match filter with
  | Some filter => member filter key
  | None =>
      throw ("Cannot read properties of undefined (reading '" ++ key ++ "')")
  end.

(** [if (filter.key !== undefined) orderedFilter.key = filter.key] *)
Definition copyFilter (key : string) (filter : option JValue)
    (orderedFilter : Ordinary) : Completion Ordinary :=
  value <- readFilter filter key ;;
  match value with
  | Some v => ret (assign orderedFilter key v)
  | None => ret orderedFilter
  end.

Section Apply.

(** The regular expressions of lines 184 to 233, each what it computes
    from the text it is applied to: the four that remove [dbg] and
    [dbgfilter] from the text of a command; the one that cleans the
    first line, with [trim]; the replacement of the comma that ends the
    first line by a text; the seven that space out the JSON text of the
    filter. *)
Variable removeDebugSettings : string -> string.
Variable tidy : string -> string.
Variable replaceTrailingComma : string -> string -> string.
Variable spaced : string -> string.

(** Lines 202 to 208 and 226 to 230: the setting put at the end of the
    first line. *)
Definition withSetting (firstLine setting : string) : string :=
  if endsWithComma firstLine
  then replaceTrailingComma firstLine (", " ++ setting ++ ",")
  else firstLine ++ ", " ++ setting.

(** Lines 184 to 233: the text of one command without its [dbg] and
    [dbgfilter] and with the new setting on its first line. *)
Definition rewriteCommandText (edit : OptimizationEdit)
    (commandText : string) : Completion string :=
  let commandText := removeDebugSettings commandText in
  let lines := vscodeShim.split commandText in
  match lines with
  | firstLine :: others =>
      let firstLine := tidy firstLine in
      firstLine <-
        (if useDbgTrue edit
         then
           ret (withSetting firstLine
                  (SuggestedMetricSuggestionRule.quoted "dbg" ++ ": true"))
         else
           let filter := newFilter edit in
           let orderedFilter := emptyObject in
           orderedFilter <- copyFilter "to" filter orderedFilter ;;
           orderedFilter <- copyFilter "years" filter orderedFilter ;;
           orderedFilter <- copyFilter "from" filter orderedFilter ;;
           let filterJson :=
             spaced (JSON.stringify (JObject (own orderedFilter))) in
           ret (withSetting firstLine
                  (SuggestedMetricSuggestionRule.quoted "dbgfilter"
                   ++ ": " ++ filterJson))) ;;
      ret (joinLines (firstLine :: others))
  | [] => ret commandText
  end.

(** [for (const edit of sortedEdits)], with the [content] and the console
    so far.  Reading the offset of a command node that is not there
    throws, and so does the rewriting of an edit that sets a filter and
    has none. *)
Fixpoint applyEdits_for (commandNodes : list jsonc.Node)
    (sortedEdits : list OptimizationEdit) (content : string)
    (console : Console) : Completion string * Console :=
  match sortedEdits with
  | [] => (ret content, console)
  | edit :: rest =>
      match nth_error commandNodes (commandIndex edit) with
      | None =>
          (throw "Cannot read properties of undefined (reading 'offset')",
           console)
      | Some commandNode =>
          let commandStart := jsonc.offset commandNode in
          let commandEnd :=
            jsonc.offset commandNode + jsonc.length commandNode in
          let commandText := substring commandStart commandEnd content in
          match rewriteCommandText edit commandText with
          | inl e => (inl e, console)
          | inr commandText =>
              let content :=
                substring 0 commandStart content ++ commandText
                ++ substringFrom commandEnd content in
              let console :=
                (console ++ [(stdout, appliedLine edit)])%list in
              applyEdits_for commandNodes rest content console
          end
      end
  end.

Definition applyEdits (commandNodes : list jsonc.Node)
    (editsToApply : list OptimizationEdit) (content : string)
    (console : Console) : Completion string * Console :=
  let sortedEdits := sort editsToApply in
  applyEdits_for commandNodes sortedEdits content console.

End Apply.

End cliOptimize.

(** What applying the edits is specified to give. *)
Module OptimizeSpec.
Import cliOptimize.
Local Open Scope string_scope.

(** The offset after the last character of a node. *)
Definition spanEnd (node : jsonc.Node) : nat :=
  jsonc.offset node + jsonc.length node.

(** The spans of the nodes come one after the other from [from] on,
    without overlap, and end by [limit]. *)
Fixpoint spansInOrder (from limit : nat) (nodes : list jsonc.Node) : Prop :=
  match nodes with
  | [] => from <= limit
  | node :: rest =>
      from <= jsonc.offset node /\ spansInOrder (spanEnd node) limit rest
  end.

(** The text [content] from [from] on, with the span of each node
    replaced by the text that goes with it. *)
Fixpoint assembled (from : nat) (content : string)
    (pieces : list (jsonc.Node * string)) : string :=
  match pieces with
  | [] => substringFrom from content
  | (node, text) :: rest =>
      substring from (jsonc.offset node) content ++ text
      ++ assembled (spanEnd node) content rest
  end.

(** The text a rewriting returns. *)
Definition returned (outcome : Completion string) : string :=
  match outcome with
  | inr text => text
  | inl _ => ""
  end.

(** For each edit, the node of its command and the rewriting of the text
    the node spans in [content]. *)
Definition piecesOf
    (rewriteCommandText : OptimizationEdit -> string -> Completion string)
    (commandNodes : list jsonc.Node) (editsToApply : list OptimizationEdit)
    (content : string) : list (jsonc.Node * string) :=
  flat_map
    (fun edit =>
       match nth_error commandNodes (commandIndex edit) with
       | Some node =>
           [(node,
             returned
               (rewriteCommandText edit
                  (substring (jsonc.offset node) (spanEnd node) content)))]
       | None => []
       end)
    editsToApply.

(** The edit has what it sets: it sets [dbg], or its filter is a value
    other than [null]. *)
Definition hasSetting (edit : OptimizationEdit) : bool :=
  useDbgTrue edit
  || match newFilter edit with
     | Some JNull => false
     | Some _ => true
     | None => false
     end.

(** The edits are in the order of their commands, one edit at most for a
    command, as the analysis loop pushes them. *)
Fixpoint ascendingFrom (least : nat) (indices : list nat) : Prop :=
  match indices with
  | [] => True
  | index :: rest => least <= index /\ ascendingFrom (S index) rest
  end.

Definition byCommand (editsToApply : list OptimizationEdit) : Prop :=
  ascendingFrom 0 (map commandIndex editsToApply).

End OptimizeSpec.

(* ===================================================================== *)
(** * Sample data for the command line and the engine *)
(* ===================================================================== *)

Module Examples.
Import suggestedMetricPatterns.
Local Open Scope string_scope.

(** The tree of [Samples.sourceEngineRpm]: the root, its [commands]
    array, the one command, its [signals] array and the one signal. *)
Definition signalsNode : jsonc.Node :=
  {| jsonc.offset := 29; jsonc.length := 43;
     jsonc.getNodeValue := JArray [Samples.signalEngineRpm] |}.

Definition commandNode : jsonc.Node :=
  {| jsonc.offset := 16; jsonc.length := 58;
     jsonc.getNodeValue :=
       JObject [("signals", jsonc.getNodeValue signalsNode)] |}.

Definition commandsNode : jsonc.Node :=
  {| jsonc.offset := 14; jsonc.length := 62;
     jsonc.getNodeValue := JArray [jsonc.getNodeValue commandNode] |}.

Definition rootNode : jsonc.Node :=
  {| jsonc.offset := 0; jsonc.length := 78;
     jsonc.getNodeValue :=
       JObject [("commands", jsonc.getNodeValue commandsNode)] |}.

(** The children of the two arrays of the tree. *)
Definition children (node : jsonc.Node) : option (list jsonc.Node) :=
  if Nat.eqb (jsonc.offset node) 14 then Some [commandNode]
  else if Nat.eqb (jsonc.offset node) 29 then Some [Samples.nodeEngineRpm]
  else None.

Definition findNodeAtLocation (node : jsonc.Node) (path : list string)
  : option jsonc.Node :=
  match path with
  | [key] =>
      if Nat.eqb (jsonc.offset node) 0 && String.eqb key "commands"
      then Some commandsNode
      else if Nat.eqb (jsonc.offset node) 16 && String.eqb key "signals"
      then Some signalsNode
      else None
  | _ => None
  end.

(** The same tree with [null] in the place of the signal. *)
Definition nodeNull : jsonc.Node :=
  {| jsonc.offset := 31; jsonc.length := 4;
     jsonc.getNodeValue := JNull |}.

Definition childrenWithNull (node : jsonc.Node)
  : option (list jsonc.Node) :=
  if Nat.eqb (jsonc.offset node) 14 then Some [commandNode]
  else if Nat.eqb (jsonc.offset node) 29 then Some [nodeNull]
  else None.

(** A tree whose [commands] array is empty. *)
Definition emptyArrays (node : jsonc.Node) : option (list jsonc.Node) :=
  Some [].

(** A tree in which nothing is found. *)
Definition noChildren (node : jsonc.Node) : option (list jsonc.Node) :=
  None.

Definition nothingAt (node : jsonc.Node) (path : list string)
  : option jsonc.Node :=
  None.

(** A linter with no rule, and one with the suggested-metric rule. *)
Definition withoutRules : CliSignalLinter.CliSignalLinter :=
  CliSignalLinter.mkCliSignalLinter [].

Definition withSuggestions : CliSignalLinter.CliSignalLinter :=
  CliSignalLinter.mkCliSignalLinter
    [ {| rule := SuggestedMetricSuggestionRule.asRule [Samples.rpmByName];
         isEnabled := true |} ].

(** Sub-commands that write their name and arguments. *)
Definition echoCommand (name : string) (workspacePath : string)
    (flag : bool) : process.Process unit :=
  process.console_log (name ++ " " ++ workspacePath).

Definition echoSupport (workspacePath commandId : string)
  : process.Process unit :=
  process.console_log ("command-support " ++ workspacePath ++ " " ++ commandId).

(** A rule whose [validateSignal] throws. *)
Definition throwingRule : ILinterRule :=
  {| getConfig :=
       {| id := "throwing"; name := "Throwing";
          Rule.description := "Throws on every signal";
          severity := LintSeverity.Error; enabled := true |};
     validateSignal := Some (fun _ _ => throw "Unexpected signal");
     validateCommand := None;
     validateCommands := None;
     validateDocument := None |}.

(** The signal X1 as the rule rewrites it with the metric [rpm]. *)
Definition nodeRewrittenX1 : jsonc.Node :=
  {| jsonc.offset := 31; jsonc.length := 66;
     jsonc.getNodeValue :=
       JObject [("id", JString "X1"); ("name", JString "Engine RPM");
                ("suggestedMetric", JString "rpm");
                ("unit", JString "rpm")] |}.

(** The signal X1 with its properties in another order and one more. *)
Definition signalX1Reordered : Signal :=
  JObject
    [("fmt", JObject []); ("name", JString "Engine RPM");
     ("id", JString "X1")].

(** A text with two commands, [{a}] at offset 1 and [{b}] at offset 5. *)
Definition twoCommands : string := "[{a},{b}]".

Definition twoCommandNodes : list jsonc.Node :=
  [ {| jsonc.offset := 1; jsonc.length := 3;
       jsonc.getNodeValue := JObject [] |};
    {| jsonc.offset := 5; jsonc.length := 3;
       jsonc.getNodeValue := JObject [] |} ].

Definition twoEdits : list cliOptimize.OptimizationEdit :=
  [ {| cliOptimize.commandId := "7E0.221100";
       cliOptimize.newFilter := Some JNull;
       cliOptimize.commandIndex := 0;
       cliOptimize.useDbgTrue := true |};
    {| cliOptimize.commandId := "7E0.221101";
       cliOptimize.newFilter := Some (JObject [("from", JNumber "2020")]);
       cliOptimize.commandIndex := 1;
       cliOptimize.useDbgTrue := false |} ].

(** An edit that sets a filter and has none. *)
Definition editWithoutFilter : cliOptimize.OptimizationEdit :=
  {| cliOptimize.commandId := "7E0.221102";
     cliOptimize.newFilter := Some JNull;
     cliOptimize.commandIndex := 0;
     cliOptimize.useDbgTrue := false |}.

(** Regular expressions that find nothing to remove, to clean or to
    space out, and the replacement of a final comma. *)
Definition unchanged (text : string) : string := text.

Definition commaReplaced (firstLine replacement : string) : string :=
  JSON.take (String.length firstLine - 1) firstLine ++ replacement.

End Examples.

(* ===================================================================== *)
(** * Successive calls: what the rule objects keep *)
(* ===================================================================== *)

(** A rule is an object.  Between two calls it keeps its fields, and the
    regular expressions it holds keep their [lastIndex].  A call reads
    the store it finds and leaves the store the next call finds; a throw
    leaves the store as it was when it was thrown. *)
Module Stateful.

Definition Step (Store A : Type) : Type := Store -> Completion A * Store.

#[global] Instance Monad_Step (Store : Type) : Monad (Step Store) :=
  {| ret := fun A (x : A) store => (inr x, store);
     bind := fun A B (c : Step Store A) (f : A -> Step Store B) store =>
               match c store with
               | (inl e, store') => (inl e, store')
               | (inr x, store') => f x store'
               end |}.

(** A computation of the engine that touches no store. *)
Definition lift {Store A : Type} (c : Completion A) : Step Store A :=
  fun store => (c, store).

Section WithStore.

Variable Store : Type.

(** [ILinterRule], the methods being run on the store. *)
Record ILinterRule : Type := mkRule {
  getConfig : LinterRuleConfig;
  validateSignal :
    option (Target -> jsonc.Node -> Step Store RuleReturn);
  validateCommand :
    option (Command -> jsonc.Node -> list SignalInCommand ->
            Step Store RuleReturn);
  validateCommands :
    option (jsonc.Node -> Step Store (option (list LintResult)));
  validateDocument :
    option (jsonc.Node -> Step Store (option (list LintResult)))
}.

Record RegisteredRule : Type := mkRegistered {
  rule : ILinterRule;
  isEnabled : bool
}.

Definition RuleRegistry : Type := list RegisteredRule.

Definition getEnabledRules (registry : RuleRegistry) : list ILinterRule :=
  map rule (filter isEnabled registry).

(** The four loops of [BaseLinter], each rule called on the store the
    rule before it left. *)
Fixpoint lintSignal_for (enabledRules : list ILinterRule)
    (target : Target) (node : jsonc.Node) (results : list LintResult)
  : Step Store (list LintResult) :=
  match enabledRules with
  | [] => ret results
  | rule :: rest =>
      match validateSignal rule with
      | Some validate =>
          ruleResult <- validate target node ;;
          match ruleResult with
          | RArray rs => lintSignal_for rest target node (push results rs)
          | ROne r => lintSignal_for rest target node (push results [r])
          | RNull => lintSignal_for rest target node results
          end
      | None => lintSignal_for rest target node results
      end
  end.

Definition lintSignal (ruleRegistry : RuleRegistry) (target : Target)
    (node : jsonc.Node) : Step Store (list LintResult) :=
  let results := [] in
  let enabledRules := getEnabledRules ruleRegistry in
  lintSignal_for enabledRules target node results.

Fixpoint lintCommand_for (enabledRules : list ILinterRule)
    (command : Command) (commandNode : jsonc.Node)
    (signalsInCommand : list SignalInCommand) (results : list LintResult)
  : Step Store (list LintResult) :=
  match enabledRules with
  | [] => ret results
  | rule :: rest =>
      match validateCommand rule with
      | Some validate =>
          ruleResult <- validate command commandNode signalsInCommand ;;
          match ruleResult with
          | RArray rs =>
              lintCommand_for rest command commandNode signalsInCommand
                (push results rs)
          | ROne r =>
              lintCommand_for rest command commandNode signalsInCommand
                (push results [r])
          | RNull =>
              lintCommand_for rest command commandNode signalsInCommand
                results
          end
      | None =>
          lintCommand_for rest command commandNode signalsInCommand results
      end
  end.

Definition lintCommand (ruleRegistry : RuleRegistry) (command : Command)
    (commandNode : jsonc.Node) (signalsInCommand : list SignalInCommand)
  : Step Store (list LintResult) :=
  let results := [] in
  let enabledRules := getEnabledRules ruleRegistry in
  lintCommand_for enabledRules command commandNode signalsInCommand results.

Fixpoint lintCommands_for (enabledRules : list ILinterRule)
    (commandsNode : jsonc.Node) (results : list LintResult)
  : Step Store (list LintResult) :=
  match enabledRules with
  | [] => ret results
  | rule :: rest =>
      match validateCommands rule with
      | Some validate =>
          ruleResult <- validate commandsNode ;;
          match ruleResult with
          | Some rs => lintCommands_for rest commandsNode (push results rs)
          | None => lintCommands_for rest commandsNode results
          end
      | None => lintCommands_for rest commandsNode results
      end
  end.

Definition lintCommands (ruleRegistry : RuleRegistry)
    (commandsNode : jsonc.Node) : Step Store (list LintResult) :=
  let results := [] in
  let enabledRules := getEnabledRules ruleRegistry in
  lintCommands_for enabledRules commandsNode results.

Fixpoint lintDocument_for (enabledRules : list ILinterRule)
    (rootNode : jsonc.Node) (results : list LintResult)
  : Step Store (list LintResult) :=
  match enabledRules with
  | [] => ret results
  | rule :: rest =>
      match validateDocument rule with
      | Some validate =>
          ruleResult <- validate rootNode ;;
          match ruleResult with
          | Some rs => lintDocument_for rest rootNode (push results rs)
          | None => lintDocument_for rest rootNode results
          end
      | None => lintDocument_for rest rootNode results
      end
  end.

Definition lintDocument (ruleRegistry : RuleRegistry)
    (rootNode : jsonc.Node) : Step Store (list LintResult) :=
  let results := [] in
  let enabledRules := getEnabledRules ruleRegistry in
  lintDocument_for enabledRules rootNode results.

(** The outcomes of the four traversal calls made one after the other. *)
Record Outcomes : Type := mkOutcomes {
  ofDocument : Completion (list LintResult);
  ofCommands : Completion (list LintResult);
  ofCommand : Completion (list LintResult);
  ofSignal : Completion (list LintResult)
}.

Definition fourCalls (ruleRegistry : RuleRegistry)
    (rootNode commandsNode : jsonc.Node)
    (command : Command) (commandNode : jsonc.Node)
    (signalsInCommand : list SignalInCommand)
    (target : Target) (node : jsonc.Node) (store : Store)
  : Outcomes * Store :=
  let (document, store) := lintDocument ruleRegistry rootNode store in
  let (commands, store) := lintCommands ruleRegistry commandsNode store in
  let (one, store) :=
    lintCommand ruleRegistry command commandNode signalsInCommand store in
  let (signal, store) := lintSignal ruleRegistry target node store in
  ({| ofDocument := document; ofCommands := commands;
      ofCommand := one; ofSignal := signal |}, store).

(** The rule contract: what a method returns or throws is a function of
    its arguments, whatever store it finds. *)
Definition sameOnEveryStore {A : Type} (c : Step Store A) : Prop :=
  forall first second, fst (c first) = fst (c second).

Definition keepsContract (r : ILinterRule) : Prop :=
  (forall validate, validateSignal r = Some validate ->
     forall target node, sameOnEveryStore (validate target node))
  /\ (forall validate, validateCommand r = Some validate ->
        forall command commandNode signalsInCommand,
          sameOnEveryStore (validate command commandNode signalsInCommand))
  /\ (forall validate, validateCommands r = Some validate ->
        forall commandsNode, sameOnEveryStore (validate commandsNode))
  /\ (forall validate, validateDocument r = Some validate ->
        forall rootNode, sameOnEveryStore (validate rootNode)).

(** The rule as the engine of [BaseLinter] has it, its methods read on
    the store [store]. *)
Definition readOn (store : Store) (r : ILinterRule) : Rule.ILinterRule :=
  {| Rule.getConfig := getConfig r;
     Rule.validateSignal :=
       option_map (fun validate target node =>
                     fst (validate target node store))
                  (validateSignal r);
     Rule.validateCommand :=
       option_map (fun validate command commandNode signalsInCommand =>
                     fst (validate command commandNode signalsInCommand
                            store))
                  (validateCommand r);
     Rule.validateCommands :=
       option_map (fun validate commandsNode =>
                     fst (validate commandsNode store))
                  (validateCommands r);
     Rule.validateDocument :=
       option_map (fun validate rootNode => fst (validate rootNode store))
                  (validateDocument r) |}.

Definition registryOn (store : Store) (registry : RuleRegistry)
  : RuleRegistry.RuleRegistry :=
  map (fun registered =>
         {| RuleRegistry.rule := readOn store (rule registered);
            RuleRegistry.isEnabled := isEnabled registered |})
      registry.

End WithStore.

Arguments getConfig {Store}.
Arguments validateSignal {Store}.
Arguments validateCommand {Store}.
Arguments validateCommands {Store}.
Arguments validateDocument {Store}.
Arguments rule {Store}.
Arguments isEnabled {Store}.
Arguments mkRegistered {Store}.
Arguments getEnabledRules {Store}.
Arguments lintSignal_for {Store}.
Arguments lintSignal {Store}.
Arguments lintCommand_for {Store}.
Arguments lintCommand {Store}.
Arguments lintCommands_for {Store}.
Arguments lintCommands {Store}.
Arguments lintDocument_for {Store}.
Arguments lintDocument {Store}.
Arguments fourCalls {Store}.
Arguments sameOnEveryStore {Store A}.
Arguments keepsContract {Store}.
Arguments readOn {Store}.
Arguments registryOn {Store}.

End Stateful.

(** The regular expressions of a pattern table as objects: [test] starts
    at [lastIndex] and sets it when the expression has the [g] or the
    [y] flag, and starts at 0 and leaves it alone otherwise. *)
Module RegExpObject.
Import Stateful.
Local Open Scope string_scope.

(** [lastIndex] of the regular expression at each address. *)
Definition Store : Type := nat -> nat.

Definition setLastIndex (address index : nat) (store : Store) : Store :=
  fun a => if Nat.eqb a address then index else store a.

(** A regular expression: where it is, its two flags, and its matcher,
    which gives the end of the match found from a start index on. *)
Record RegExp : Type := mkRegExp {
  address : nat;
  global : bool;
  sticky : bool;
  matchFrom : nat -> string -> option nat
}.

(** [RegExp.prototype.test] *)
Definition test (re : RegExp) (subject : string) : Step Store bool :=
  fun store =>
    let keepsIndex := global re || sticky re in
    let lastIndex := if keepsIndex then store (address re) else 0 in
    match matchFrom re lastIndex subject with
    | Some e =>
        (ret true,
         if keepsIndex then setLastIndex (address re) e store else store)
    | None =>
        (ret false,
         if keepsIndex then setLastIndex (address re) 0 store else store)
    end.

Record MetricPattern : Type := mkMetricPattern {
  idPattern : option RegExp;
  namePattern : option RegExp;
  excludeNamePattern : option RegExp;
  suggestedMetric : string;
  description : string
}.

(** [re ? re.test(x) : false] *)
Definition testOptional (re : option RegExp) (x : option JValue)
  : Step Store bool :=
  match re with
  | Some re => subject <- lift (toString x) ;; test re subject
  | None => ret false
  end.

Section WithPatterns.

Variable metricPatterns : list MetricPattern.

(** [validateSignal] of the suggested-metric rule, line by line as in
    [SuggestedMetricSuggestionRule], on the store. *)
Fixpoint validateSignal_for (patterns : list MetricPattern)
    (signal : Signal) (node : jsonc.Node) (signalId signalName : option JValue)
  : Step Store (option LintResult) :=
  match patterns with
  | [] => ret None
  | pattern :: rest =>
      idMatches <- testOptional (idPattern pattern) signalId ;;
      nameMatches <- testOptional (namePattern pattern) signalName ;;
      excludedByName <-
        testOptional (excludeNamePattern pattern) signalName ;;
      if (idMatches || nameMatches) && negb excludedByName
      then
        newText <-
          lift (SuggestedMetricSuggestionRule.createSignalWithSuggestedMetric
                  signal node (suggestedMetric pattern)) ;;
        ret (Some
               {| ruleId := id SuggestedMetricSuggestionRule.getConfig;
                  message :=
                    "Consider adding suggestedMetric: "
                    ++ SuggestedMetricSuggestionRule.quoted
                         (suggestedMetric pattern)
                    ++ " (" ++ description pattern ++ ")";
                  node := node;
                  suggestion :=
                    Some {| title :=
                              "Add suggestedMetric: "
                              ++ SuggestedMetricSuggestionRule.quoted
                                   (suggestedMetric pattern);
                            edits :=
                              [ {| Edit.newText := newText;
                                   Edit.offset := jsonc.offset node;
                                   Edit.length := jsonc.length node |} ]
                         |} |})
      else validateSignal_for rest signal node signalId signalName
  end.

Definition validateSignal (signal : Signal) (node : jsonc.Node)
  : Step Store (option LintResult) :=
  signalSuggestedMetric <- lift (member signal "suggestedMetric") ;;
  if truthyValue signalSuggestedMetric then ret None
  else
    signalId <- lift (member signal "id") ;;
    signalName <- lift (member signal "name") ;;
    if negb (truthyValue signalId) || negb (truthyValue signalName)
    then ret None
    else validateSignal_for metricPatterns signal node signalId signalName.

Definition asRule : Stateful.ILinterRule Store :=
  {| Stateful.getConfig := SuggestedMetricSuggestionRule.getConfig;
     Stateful.validateSignal :=
       Some (fun target node =>
               result <- validateSignal target node ;;
               ret (match result with
                    | Some r => ROne r
                    | None => RNull
                    end));
     Stateful.validateCommand := None;
     Stateful.validateCommands := None;
     Stateful.validateDocument := None |}.

End WithPatterns.

(** No regular expression of the table has the [g] or the [y] flag. *)
Definition keepsNoIndex (re : option RegExp) : bool :=
  match re with
  | Some re => negb (global re || sticky re)
  | None => true
  end.

Definition withoutFlags (metricPatterns : list MetricPattern) : bool :=
  forallb (fun pattern =>
             keepsNoIndex (idPattern pattern)
             && keepsNoIndex (namePattern pattern)
             && keepsNoIndex (excludeNamePattern pattern))
          metricPatterns.

(** A regular expression without these flags is its test from index 0. *)
Definition plainRegExp (re : RegExp) : suggestedMetricPatterns.RegExp :=
  suggestedMetricPatterns.mkRegExp
    (fun subject =>
       match matchFrom re 0 subject with
       | Some _ => true
       | None => false
       end).

Definition plainPattern (pattern : MetricPattern)
  : suggestedMetricPatterns.MetricPattern :=
  {| suggestedMetricPatterns.idPattern :=
       option_map plainRegExp (idPattern pattern);
     suggestedMetricPatterns.namePattern :=
       option_map plainRegExp (namePattern pattern);
     suggestedMetricPatterns.excludeNamePattern :=
       option_map plainRegExp (excludeNamePattern pattern);
     suggestedMetricPatterns.suggestedMetric := suggestedMetric pattern;
     suggestedMetricPatterns.description := description pattern |}.

(** The end of the first occurrence of [needle] in [subject] that starts
    at [start] or later: the matcher of a regular expression that is a
    literal text. *)
Fixpoint startsWith (needle subject : string) : bool :=
  match needle, subject with
  | EmptyString, _ => true
  | String a needle', String b subject' =>
      Ascii.eqb a b && startsWith needle' subject'
  | String _ _, EmptyString => false
  end.

Fixpoint searchIn (needle subject : string) (position : nat) : option nat :=
  if startsWith needle subject
  then Some (position + String.length needle)
  else match subject with
       | EmptyString => None
       | String _ rest => searchIn needle rest (S position)
       end.

Definition literalFrom (needle : string) (start : nat) (subject : string)
  : option nat :=
  if Nat.ltb (String.length subject) start then None
  else searchIn needle (JSON.drop start subject) start.

(** [/RPM/g] on the id. *)
Definition rpmGlobal : MetricPattern :=
  {| idPattern :=
       Some {| address := 0; global := true; sticky := false;
               matchFrom := literalFrom "RPM" |};
     namePattern := None;
     excludeNamePattern := None;
     suggestedMetric := "rpm";
     description := "Engine speed" |}.

(** [/RPM/] on the id. *)
Definition rpmPlain : MetricPattern :=
  {| idPattern :=
       Some {| address := 0; global := false; sticky := false;
               matchFrom := literalFrom "RPM" |};
     namePattern := None;
     excludeNamePattern := None;
     suggestedMetric := "rpm";
     description := "Engine speed" |}.

(** Every [lastIndex] is 0, as when the table has just been loaded. *)
Definition fresh : Store := fun _ => 0.

End RegExpObject.

(* ===================================================================== *)
(** * Properties of the analysis engine *)
(* ===================================================================== *)


Module SequenceFacts.
Import EngineSpec.

(** When every call returns normally the calls in sequence return the
    list of what they return. *)
Lemma sequence_normal {A B : Type} (f : A -> B) (xs : list A) :
  sequence (map (fun x => ret (f x)) xs) = ret (map f xs).
Proof.
  induction xs as [|x xs IH]; [reflexivity|].
  cbn [sequence map]. rewrite IH. reflexivity.
Qed.

End SequenceFacts.

Module EngineFacts.
Import EngineSpec.

Lemma appended_nil (c : Completion (list LintResult)) : appended [] c = c.
Proof. destruct c; reflexivity. Qed.

Lemma concatenated_nil {R : Type} (flat : R -> list LintResult)
    (entry : ILinterRule -> option (Completion R)) results :
  appended results (concatenated flat entry []) = ret results.
Proof. unfold appended, concatenated. simpl. now rewrite app_nil_r. Qed.

Lemma concatenated_cons {R : Type} (flat : R -> list LintResult)
    (entry : ILinterRule -> option (Completion R)) rule rest results :
  appended results (concatenated flat entry (rule :: rest)) =
  match entry rule with
  | None => appended results (concatenated flat entry rest)
  | Some c =>
      r <- c ;; appended (results ++ flat r) (concatenated flat entry rest)
  end.
Proof.
  unfold appended, concatenated. simpl.
  destruct (entry rule) as [c|]; simpl.
  - destruct c as [e|r]; simpl; [reflexivity|].
    destruct (sequence _) as [e|parts]; simpl; [reflexivity|].
    now rewrite app_assoc.
  - destruct (sequence _) as [e|parts]; reflexivity.
Qed.

Ltac loop_step IH :=
  simpl; unfold push; simpl; rewrite ?app_nil_r; rewrite ?IH; reflexivity.

Lemma lintSignal_for_spec enabledRules target node results :
  BaseLinter.lintSignal_for enabledRules target node results =
  appended results
    (concatenated flatten (signalEntry target node) enabledRules).
Proof.
  revert results.
  induction enabledRules as [|rule rest IH]; intros results.
  - now rewrite concatenated_nil.
  - rewrite concatenated_cons. simpl. unfold signalEntry at 1.
    destruct (validateSignal rule) as [validate|]; simpl; [|apply IH].
    destruct (validate target node) as [e|[|r|rs]]; loop_step IH.
Qed.

Lemma lintCommand_for_spec enabledRules command commandNode signals results :
  BaseLinter.lintCommand_for enabledRules command commandNode signals results
  = appended results
      (concatenated flatten (commandEntry command commandNode signals)
         enabledRules).
Proof.
  revert results.
  induction enabledRules as [|rule rest IH]; intros results.
  - now rewrite concatenated_nil.
  - rewrite concatenated_cons. simpl. unfold commandEntry at 1.
    destruct (validateCommand rule) as [validate|]; simpl; [|apply IH].
    destruct (validate command commandNode signals) as [e|[|r|rs]];
      loop_step IH.
Qed.

Lemma lintCommands_for_spec enabledRules commandsNode results :
  BaseLinter.lintCommands_for enabledRules commandsNode results =
  appended results
    (concatenated flattenArray (commandsEntry commandsNode) enabledRules).
Proof.
  revert results.
  induction enabledRules as [|rule rest IH]; intros results.
  - now rewrite concatenated_nil.
  - rewrite concatenated_cons. simpl. unfold commandsEntry at 1.
    destruct (validateCommands rule) as [validate|]; simpl; [|apply IH].
    destruct (validate commandsNode) as [e|[rs|]]; loop_step IH.
Qed.

Lemma lintDocument_for_spec enabledRules rootNode results :
  BaseLinter.lintDocument_for enabledRules rootNode results =
  appended results
    (concatenated flattenArray (documentEntry rootNode) enabledRules).
Proof.
  revert results.
  induction enabledRules as [|rule rest IH]; intros results.
  - now rewrite concatenated_nil.
  - rewrite concatenated_cons. simpl. unfold documentEntry at 1.
    destruct (validateDocument rule) as [validate|]; simpl; [|apply IH].
    destruct (validate rootNode) as [e|[rs|]]; loop_step IH.
Qed.

(** The standalone linter's loops are the engine's loops. *)
Lemma cli_lintSignal_for enabledRules target node results :
  CliSignalLinter.lintSignal_for enabledRules target node results =
  BaseLinter.lintSignal_for enabledRules target node results.
Proof.
  revert results.
  induction enabledRules as [|rule rest IH]; intros results; simpl.
  - reflexivity.
  - destruct (validateSignal rule) as [validate|]; [|apply IH].
    destruct (validate target node) as [e|[|r|rs]]; simpl;
      rewrite ?IH; reflexivity.
Qed.

Lemma cli_lintCommand_for enabledRules command commandNode signals results :
  CliSignalLinter.lintCommand_for enabledRules command commandNode signals
    results =
  BaseLinter.lintCommand_for enabledRules command commandNode signals results.
Proof.
  revert results.
  induction enabledRules as [|rule rest IH]; intros results; simpl.
  - reflexivity.
  - destruct (validateCommand rule) as [validate|]; [|apply IH].
    destruct (validate command commandNode signals) as [e|[|r|rs]]; simpl;
      rewrite ?IH; reflexivity.
Qed.

Lemma cli_lintCommands_for enabledRules commandsNode results :
  CliSignalLinter.lintCommands_for enabledRules commandsNode results =
  BaseLinter.lintCommands_for enabledRules commandsNode results.
Proof.
  revert results.
  induction enabledRules as [|rule rest IH]; intros results; simpl.
  - reflexivity.
  - destruct (validateCommands rule) as [validate|]; [|apply IH].
    destruct (validate commandsNode) as [e|[rs|]]; simpl;
      rewrite ?IH; reflexivity.
Qed.

Lemma cli_lintDocument_for enabledRules rootNode results :
  CliSignalLinter.lintDocument_for enabledRules rootNode results =
  BaseLinter.lintDocument_for enabledRules rootNode results.
Proof.
  revert results.
  induction enabledRules as [|rule rest IH]; intros results; simpl.
  - reflexivity.
  - destruct (validateDocument rule) as [validate|]; [|apply IH].
    destruct (validate rootNode) as [e|[rs|]]; simpl;
      rewrite ?IH; reflexivity.
Qed.

(** C1.  Each of the four traversal entry points returns the
    concatenation, in the order of the enabled rules, of what each rule
    contributes: the flattened non-null return of a rule that implements
    the matching method (one element for a single result, the elements in
    order for an array), and nothing, without error, for a rule that does
    not implement it.  Nothing is merged or removed across rules; a throw
    of a rule is the outcome of the call. *)
Theorem lint_returns_concatenation (self : BaseLinter.BaseLinter)
    (target : Target) (node : jsonc.Node)
    (command : Command) (commandNode : jsonc.Node)
    (signalsInCommand : list SignalInCommand)
    (commandsNode rootNode : jsonc.Node) :
  let enabledRules := getEnabledRules (BaseLinter.ruleRegistry self) in
  BaseLinter.lintSignal self target node =
    concatenated flatten (signalEntry target node) enabledRules
  /\ BaseLinter.lintCommand self command commandNode signalsInCommand =
       concatenated flatten
         (commandEntry command commandNode signalsInCommand) enabledRules
  /\ BaseLinter.lintCommands self commandsNode =
       concatenated flattenArray (commandsEntry commandsNode) enabledRules
  /\ BaseLinter.lintDocument self rootNode =
       concatenated flattenArray (documentEntry rootNode) enabledRules.
Proof.
  intros enabledRules.
  unfold BaseLinter.lintSignal, BaseLinter.lintCommand,
    BaseLinter.lintCommands, BaseLinter.lintDocument.
  rewrite lintSignal_for_spec, lintCommand_for_spec,
    lintCommands_for_spec, lintDocument_for_spec.
  now rewrite !appended_nil.
Qed.

(** C10.  On every registry and every input, each of the four methods of
    the standalone [CliSignalLinter] returns what the method of the same
    name of [BaseLinter] returns. *)
Theorem cli_linter_equivalent (registry : RuleRegistry)
    (target : Target) (node : jsonc.Node)
    (command : Command) (commandNode : jsonc.Node)
    (signalsInCommand : list SignalInCommand)
    (commandsNode rootNode : jsonc.Node) :
  let cli := CliSignalLinter.mkCliSignalLinter registry in
  let base := BaseLinter.mkBaseLinter registry in
  CliSignalLinter.lintSignal cli target node =
    BaseLinter.lintSignal base target node
  /\ CliSignalLinter.lintCommand cli command commandNode signalsInCommand =
       BaseLinter.lintCommand base command commandNode signalsInCommand
  /\ CliSignalLinter.lintCommands cli commandsNode =
       BaseLinter.lintCommands base commandsNode
  /\ CliSignalLinter.lintDocument cli rootNode =
       BaseLinter.lintDocument base rootNode.
Proof.
  intros cli base.
  unfold CliSignalLinter.lintSignal, CliSignalLinter.lintCommand,
    CliSignalLinter.lintCommands, CliSignalLinter.lintDocument,
    BaseLinter.lintSignal, BaseLinter.lintCommand,
    BaseLinter.lintCommands, BaseLinter.lintDocument.
  simpl.
  now rewrite cli_lintSignal_for, cli_lintCommand_for,
    cli_lintCommands_for, cli_lintDocument_for.
Qed.

End EngineFacts.

(* ===================================================================== *)
(** * Properties of the editor adapter *)
(* ===================================================================== *)

Module AdapterFacts.
Import EngineSpec AdapterSpec.

Lemma convert_for_spec document results getRuleSeverity diagnostics :
  vscodeAdapter.convertToVscodeDiagnostics_for document results
    getRuleSeverity diagnostics =
  (ds <- sequence
           (map (fun result =>
                   severity <- getRuleSeverity (ruleId result) ;;
                   ret (diagnosticOf document result severity))
                results) ;;
   ret (diagnostics ++ ds)).
Proof.
  revert diagnostics.
  induction results as [|result rest IH]; intros diagnostics.
  - simpl. now rewrite app_nil_r.
  - cbn [vscodeAdapter.convertToVscodeDiagnostics_for map sequence].
    destruct (getRuleSeverity (ruleId result)) as [e|severity];
      [reflexivity|].
    cbn [bind ret Monad_Completion Monad_either].
    rewrite IH. unfold push, diagnosticOf. cbn.
    destruct (sequence _) as [e|ds]; [reflexivity|].
    cbn. now rewrite <- app_assoc.
Qed.

Lemma convert_spec document results getRuleSeverity :
  vscodeAdapter.convertToVscodeDiagnostics document results getRuleSeverity =
  sequence
    (map (fun result =>
            severity <- getRuleSeverity (ruleId result) ;;
            ret (diagnosticOf document result severity))
         results).
Proof.
  unfold vscodeAdapter.convertToVscodeDiagnostics.
  rewrite convert_for_spec.
  destruct (sequence _) as [e|ds]; reflexivity.
Qed.

(** C8.  [convertToVscodeDiagnostics] maps the results to diagnostics one
    for one and in the same order: for a callback that returns a severity
    for every rule id, the outcome is the list of the diagnostics of the
    results, each with the range from [positionAt offset] to
    [positionAt (offset + length)] of the result's node, the result's
    message, the mapped severity and the rule id as code.  The mapping
    sends Error, Warning, Information and Hint to the editor severities of
    the same names and every other value to Warning. *)
Theorem diagnostics_one_to_one (document : vscode.TextDocument)
    (results : list LintResult)
    (severityOf : string -> LintSeverity.LintSeverity) :
  vscodeAdapter.convertToVscodeDiagnostics document results
    (fun ruleId => ret (severityOf ruleId)) =
  ret (map (fun result =>
              {| vscode.range :=
                   {| vscode.start :=
                        vscode.positionAt document
                          (jsonc.offset (node result));
                      vscode.end_ :=
                        vscode.positionAt document
                          (jsonc.offset (node result)
                           + jsonc.length (node result)) |};
                 vscode.message := message result;
                 vscode.severity :=
                   vscodeAdapter.mapToVscodeSeverity
                     (severityOf (ruleId result));
                 vscode.code := Some (ruleId result);
                 vscode.source := Some "obdb-linter"%string |})
           results)
  /\ vscodeAdapter.mapToVscodeSeverity LintSeverity.Error =
       vscode.DiagnosticSeverity.Error
  /\ vscodeAdapter.mapToVscodeSeverity LintSeverity.Warning =
       vscode.DiagnosticSeverity.Warning
  /\ vscodeAdapter.mapToVscodeSeverity LintSeverity.Information =
       vscode.DiagnosticSeverity.Information
  /\ vscodeAdapter.mapToVscodeSeverity LintSeverity.Hint =
       vscode.DiagnosticSeverity.Hint
  /\ (forall raw : string,
        vscodeAdapter.mapToVscodeSeverity (LintSeverity.Unrecognized raw) =
        vscode.DiagnosticSeverity.Warning).
Proof.
  split; [|repeat split; reflexivity].
  rewrite convert_spec.
  exact (SequenceFacts.sequence_normal
           (fun result => diagnosticOf document result
                            (severityOf (ruleId result))) results).
Qed.

End AdapterFacts.

Module SignalLinterFacts.
Import EngineSpec AdapterSpec AdapterFacts.

(** A sequence of calls throws what its first throwing call throws. *)
Lemma sequence_first_throw {A B : Type} (g : A -> Completion B)
    (pre : list A) (x : A) (post : list A) (e : JsError) :
  (forall y, In y pre -> exists b, g y = inr b) ->
  g x = inl e ->
  sequence (map g (pre ++ x :: post)) = inl e.
Proof.
  intros Hpre Hx.
  induction pre as [|y pre IH]; cbn [app map sequence].
  - now rewrite Hx.
  - destruct (Hpre y (or_introl eq_refl)) as [b Hb]. rewrite Hb.
    rewrite IH; [reflexivity|].
    intros z Hz. apply Hpre. now right.
Qed.

Lemma sequence_all_normal {A B : Type} (g : A -> Completion B)
    (xs : list A) :
  (forall x, In x xs -> exists b, g x = inr b) ->
  exists bs, sequence (map g xs) = inr bs
             /\ List.length bs = List.length xs.
Proof.
  induction xs as [|x xs IH]; intros Hall; cbn [map sequence].
  - exists []. split; reflexivity.
  - destruct (Hall x (or_introl eq_refl)) as [b Hb]. rewrite Hb.
    destruct IH as [bs [Hbs Hlen]].
    { intros y Hy. apply Hall. now right. }
    rewrite Hbs. exists (b :: bs). split; [reflexivity|].
    simpl. now rewrite Hlen.
Qed.

(** The first element of a list with a decidable property, and the
    elements before it. *)
Lemma first_such {A : Type} (p : A -> bool) (xs : list A) :
  (exists x, In x xs /\ p x = true) ->
  exists pre x post,
    xs = pre ++ x :: post /\ p x = true
    /\ forall y, In y pre -> p y = false.
Proof.
  induction xs as [|x xs IH]; intros [z [Hin Hz]]; [destruct Hin|].
  destruct (p x) eqn:Hpx.
  - exists [], x, xs. repeat split; [assumption|intros y []].
  - destruct IH as [pre [w [post [Heq [Hw Hpre]]]]].
    { destruct Hin as [->|Hin]; [congruence|]. now exists z. }
    exists (x :: pre), w, post. rewrite Heq.
    repeat split; [assumption|].
    intros y [<-|Hy]; [assumption|now apply Hpre].
Qed.

(** C7.  [toDiagnostics] throws when the rule id of a result resolves to no
    registered rule: the error is [Rule not found: <ruleId>] for such a
    result, and no severity is put in its place.  When the rule id of
    every result resolves, the call returns normally, with one diagnostic
    for each result. *)
Theorem toDiagnostics_unknown_rule_throws (self : SignalLinter.SignalLinter)
    (document : vscode.TextDocument) (results : list LintResult) :
  let registry := SignalLinter.ruleRegistry self in
  let outcome := snd (SignalLinter.toDiagnostics self document results) in
  ((exists result, In result results
                   /\ getRuleById registry (ruleId result) = None) ->
   exists result, In result results
                  /\ getRuleById registry (ruleId result) = None
                  /\ outcome =
                       throw ("Rule not found: " ++ ruleId result)%string)
  /\ ((forall result, In result results ->
                      getRuleById registry (ruleId result) <> None) ->
      exists diagnostics,
        outcome = ret diagnostics
        /\ List.length diagnostics = List.length results).
Proof.
  intros registry outcome. subst outcome.
  unfold SignalLinter.toDiagnostics. cbn [snd].
  rewrite convert_spec. split.
  - intros Hex.
    destruct (first_such (unresolved registry) results)
      as [pre [x [post [Heq [Hx Hpre]]]]].
    { destruct Hex as [r [Hin Hr]]. exists r. split; [assumption|].
      unfold unresolved. now rewrite Hr. }
    assert (Hnone : getRuleById registry (ruleId x) = None).
    { unfold unresolved in Hx.
      destruct (getRuleById registry (ruleId x)); [discriminate|reflexivity]. }
    exists x. split; [rewrite Heq; apply in_elt|]. split; [assumption|].
    rewrite Heq. apply sequence_first_throw.
    + intros y Hy. specialize (Hpre y Hy). unfold unresolved in Hpre.
      unfold SignalLinter.ruleSeverity. cbn [SignalLinter.ruleRegistry
        SignalLinter.setLastResults]. fold registry.
      destruct (getRuleById registry (ruleId y)) as [rule|];
        [|discriminate].
      eexists. reflexivity.
    + unfold SignalLinter.ruleSeverity. cbn [SignalLinter.ruleRegistry
        SignalLinter.setLastResults]. fold registry.
      now rewrite Hnone.
  - intros Hall. apply sequence_all_normal.
    intros x Hx. specialize (Hall x Hx).
    unfold SignalLinter.ruleSeverity. cbn [SignalLinter.ruleRegistry
      SignalLinter.setLastResults]. fold registry.
    destruct (getRuleById registry (ruleId x)) as [rule|];
      [|congruence].
    eexists. reflexivity.
Qed.

End SignalLinterFacts.
(* ===================================================================== *)
(** * Properties of objects *)
(* ===================================================================== *)

Module ObjectFacts.
Import BinNat.
Local Open Scope string_scope.

Lemma flat_map_agree {A B : Type} (f g : A -> list B) (l : list A) :
  (forall a, In a l -> f a = g a) -> flat_map f l = flat_map g l.
Proof.
  induction l as [|a l IH]; intros H; simpl; [reflexivity|].
  rewrite (H a (or_introl eq_refl)), IH; [reflexivity|].
  intros b Hb. apply H. now right.
Qed.

Lemma getProp_app key (o1 o2 : JsObject) :
  getProp key (o1 ++ o2)%list =
  match getProp key o1 with
  | Some v => Some v
  | None => getProp key o2
  end.
Proof.
  induction o1 as [|[k v] o1 IH]; simpl; [reflexivity|].
  destruct (String.eqb k key); [reflexivity|exact IH].
Qed.

Lemma getProp_In key (o : JsObject) :
  getProp key o = None <-> ~ In key (keys o).
Proof.
  induction o as [|[k v] o IH]; simpl; [tauto|].
  destruct (String.eqb_spec k key) as [->|Hne].
  - split; [discriminate|]. intros H. exfalso. apply H. now left.
  - rewrite IH. split; [intros H [E|I]; [exact (Hne E)|exact (H I)]|tauto].
Qed.

(** In an object each property is read back at its own key. *)
Lemma getProp_own (o : JsObject) :
  NoDup (keys o) ->
  forall k v, In (k, v) o -> getProp k o = Some v.
Proof.
  induction o as [|[k0 v0] o IH]; simpl; intros Hnd k v Hin; [destruct Hin|].
  inversion Hnd as [|? ? Hnotin Hnd']; subst.
  destruct Hin as [E|Hin].
  - inversion E; subst. now rewrite String.eqb_refl.
  - destruct (String.eqb_spec k0 k) as [->|Hne].
    + exfalso. apply Hnotin. unfold keys.
      change k with (fst (k, v)). now apply in_map.
    + now apply IH.
Qed.

Lemma hasOwnProperty_app (o1 o2 : JsObject) key :
  hasOwnProperty (o1 ++ o2)%list key =
  hasOwnProperty o1 key || hasOwnProperty o2 key.
Proof.
  unfold hasOwnProperty. rewrite getProp_app.
  destruct (getProp key o1); reflexivity.
Qed.

Lemma hasOwnProperty_false key (o : JsObject) :
  hasOwnProperty o key = false <-> getProp key o = None.
Proof.
  unfold hasOwnProperty. destruct (getProp key o); split; congruence.
Qed.

(** ** The order of own keys *)

Lemma isName_arrayIndex (key : string) :
  isName key = true <-> arrayIndex key = None.
Proof.
  unfold isName. destruct (arrayIndex key); split; congruence.
Qed.

Lemma ownOrder_names (ks : list string) :
  forallb isName ks = true -> ownOrder ks = true.
Proof.
  induction ks as [|k ks IH]; [reflexivity|]. cbn [forallb ownOrder].
  intros H. apply andb_true_iff in H. destruct H as [Hk Hks].
  apply isName_arrayIndex in Hk. now rewrite Hk.
Qed.

Lemma ownOrder_tail (k : string) (ks : list string) :
  ownOrder (k :: ks) = true -> ownOrder ks = true.
Proof.
  cbn [ownOrder]. destruct (arrayIndex k).
  - intros H. now apply andb_true_iff in H.
  - apply ownOrder_names.
Qed.

Lemma ownOrder_app_l (front back : list string) :
  ownOrder (front ++ back) = true -> ownOrder front = true.
Proof.
  induction front as [|k front IH]; [reflexivity|].
  cbn [app ownOrder]. destruct (arrayIndex k) as [i|].
  - intros H. apply andb_true_iff in H. destruct H as [Hnext Hrest].
    rewrite (IH Hrest), andb_true_r.
    destruct front as [|k' front]; [reflexivity|exact Hnext].
  - rewrite forallb_app. intros H. now apply andb_true_iff in H.
Qed.

Lemma ownOrder_app_r (front back : list string) :
  ownOrder (front ++ back) = true -> ownOrder back = true.
Proof.
  induction front as [|k front IH]; [trivial|].
  cbn [app]. intros H. apply IH. exact (ownOrder_tail _ _ H).
Qed.

(** Before an array index there are only smaller array indices. *)
Lemma ownOrder_before_index (ks : list string) (key : string) (i : N) :
  ownOrder (ks ++ [key]) = true -> arrayIndex key = Some i ->
  Forall (fun k => exists j, arrayIndex k = Some j /\ (j < i)%N) ks.
Proof.
  intros Hord Hkey. induction ks as [|k ks IH]; [constructor|].
  cbn [app ownOrder] in Hord.
  destruct (arrayIndex k) as [j|] eqn:Hk.
  - apply andb_true_iff in Hord. destruct Hord as [Hnext Hrest].
    specialize (IH Hrest). constructor; [|exact IH].
    exists j. split; [exact Hk|].
    destruct ks as [|k' ks]; cbn [app] in Hnext.
    + rewrite Hkey in Hnext. now apply N.ltb_lt.
    + inversion IH as [|? ? [j' [Hj' Hlt]] _]; subst.
      rewrite Hj' in Hnext. apply N.ltb_lt in Hnext.
      exact (N.lt_trans _ _ _ Hnext Hlt).
  - exfalso. rewrite forallb_app in Hord.
    apply andb_true_iff in Hord. destruct Hord as [_ Hlast].
    cbn [forallb] in Hlast. unfold isName in Hlast.
    rewrite Hkey in Hlast. discriminate.
Qed.

(** After a name there are only names. *)
Lemma ownOrder_after_name (ks : list string) (key : string)
    (back : list string) :
  ownOrder (ks ++ key :: back) = true -> arrayIndex key = None ->
  forallb isName back = true.
Proof.
  intros Hord Hkey. apply ownOrder_app_r in Hord.
  cbn [ownOrder] in Hord. now rewrite Hkey in Hord.
Qed.

(** ** Setting an own property *)

Lemma insertIndex_last (i : N) (key : string) (v : JValue) (o : JsObject) :
  Forall (fun k => exists j, arrayIndex k = Some j /\ (j < i)%N) (keys o) ->
  insertIndex i key v o = (o ++ [(key, v)])%list.
Proof.
  induction o as [|[k w] o IH]; intros Hall; [reflexivity|].
  cbn [keys map fst] in Hall.
  inversion Hall as [|? ? [j [Hj Hlt]] Hrest]; subst.
  cbn [insertIndex app]. rewrite Hj.
  apply N.ltb_lt in Hlt. rewrite Hlt. now rewrite (IH Hrest).
Qed.

(** A new array index goes between the smaller indices and what comes
    after them. *)
Lemma insertIndex_between (i : N) (key : string) (v : JValue)
    (front back : JsObject) :
  Forall (fun k => exists j, arrayIndex k = Some j /\ (j < i)%N)
         (keys front) ->
  match back with
  | (k, _) :: _ =>
      match arrayIndex k with Some j => (i <= j)%N | None => True end
  | [] => True
  end ->
  insertIndex i key v (front ++ back)%list =
  (front ++ (key, v) :: back)%list.
Proof.
  induction front as [|[k w] front IH]; intros Hall Hback.
  - cbn [app]. destruct back as [|[k w] back]; [reflexivity|].
    cbn [insertIndex]. destruct (arrayIndex k) as [j|]; [|reflexivity].
    apply N.ltb_ge in Hback. now rewrite Hback.
  - cbn [keys map fst] in Hall.
    inversion Hall as [|? ? [j [Hj Hlt]] Hrest]; subst.
    cbn [insertIndex app]. rewrite Hj.
    apply N.ltb_lt in Hlt. rewrite Hlt. now rewrite (IH Hrest Hback).
Qed.

(** A new name goes last. *)
Lemma setProp_name key v (o : JsObject) :
  getProp key o = None -> arrayIndex key = None ->
  setProp key v o = (o ++ [(key, v)])%list.
Proof.
  intros Hfresh Hname. unfold setProp.
  rewrite (proj2 (hasOwnProperty_false key o) Hfresh). now rewrite Hname.
Qed.

(** A new key that is last in the order of own keys goes last. *)
Lemma setProp_last key v (o : JsObject) :
  getProp key o = None ->
  ownOrder (keys o ++ [key]) = true ->
  setProp key v o = (o ++ [(key, v)])%list.
Proof.
  intros Hfresh Hord. unfold setProp.
  rewrite (proj2 (hasOwnProperty_false key o) Hfresh).
  destruct (arrayIndex key) as [i|] eqn:Hkey; [|reflexivity].
  apply insertIndex_last. exact (ownOrder_before_index _ _ _ Hord Hkey).
Qed.

Lemma setProp_nil key v : setProp key v [] = [(key, v)].
Proof. unfold setProp. cbn. now destruct (arrayIndex key). Qed.

Lemma getProp_update_same key v (o : JsObject) :
  getProp key o <> None -> getProp key (update key v o) = Some v.
Proof.
  induction o as [|[k w] o IH]; cbn [getProp update]; [congruence|].
  destruct (String.eqb k key) eqn:E; cbn [getProp]; rewrite E;
    [reflexivity|exact IH].
Qed.

Lemma getProp_update_other key k v (o : JsObject) :
  k <> key -> getProp k (update key v o) = getProp k o.
Proof.
  intros Hne. induction o as [|[k0 w] o IH]; cbn [getProp update];
    [reflexivity|].
  destruct (String.eqb_spec k0 key) as [->|Hk0]; cbn [getProp].
  - destruct (String.eqb_spec key k) as [E|_]; [now symmetry in E|].
    reflexivity.
  - destruct (String.eqb k0 k); [reflexivity|exact IH].
Qed.

Lemma getProp_insertIndex i key k v (o : JsObject) :
  getProp key o = None ->
  getProp k (insertIndex i key v o) =
  if String.eqb key k then Some v else getProp k o.
Proof.
  induction o as [|[k0 w] o IH]; intros Hfresh; cbn [getProp insertIndex];
    [reflexivity|].
  cbn [getProp] in Hfresh.
  destruct (String.eqb_spec k0 key) as [->|Hk0]; [discriminate|].
  destruct (arrayIndex k0) as [j|]; [|reflexivity].
  destruct (j <? i)%N; [|reflexivity].
  cbn [getProp]. rewrite (IH Hfresh).
  destruct (String.eqb_spec k0 k) as [->|_]; [|reflexivity].
  destruct (String.eqb_spec key k) as [E|_]; [now symmetry in E|].
  reflexivity.
Qed.

(** After [o[key] = v] the property [key] is [v] and the others are as
    before. *)
Lemma getProp_setProp key k v (o : JsObject) :
  getProp k (setProp key v o) =
  if String.eqb key k then Some v else getProp k o.
Proof.
  unfold setProp, hasOwnProperty.
  destruct (getProp key o) as [w|] eqn:Hkey.
  - destruct (String.eqb_spec key k) as [<-|Hne].
    + apply getProp_update_same. congruence.
    + apply getProp_update_other. congruence.
  - destruct (arrayIndex key) as [i|].
    + now apply getProp_insertIndex.
    + rewrite getProp_app, (String.eqb_sym key k). cbn [getProp].
      rewrite (String.eqb_sym k key).
      destruct (String.eqb_spec key k) as [<-|_]; [now rewrite Hkey|].
      now destruct (getProp k o).
Qed.

End ObjectFacts.

(* ===================================================================== *)
(** * Reading back what [JSON.stringify] prints *)
(* ===================================================================== *)

Module JsonFacts.
Import JSON JsonText ObjectFacts.
Local Open Scope string_scope.

Lemma append_assoc (a b c : string) : (a ++ b) ++ c = a ++ (b ++ c).
Proof. induction a as [|x a IH]; simpl; [reflexivity|now rewrite IH]. Qed.

Lemma append_nil_r (a : string) : a ++ "" = a.
Proof. induction a as [|x a IH]; simpl; [reflexivity|now rewrite IH]. Qed.

Lemma length_append (a b : string) :
  String.length (a ++ b) = String.length a + String.length b.
Proof. induction a as [|x a IH]; simpl; [reflexivity|now rewrite IH]. Qed.

(** ** String tokens *)

Lemma parseChars_escapeChar (c : ascii) (tail text final : string) :
  parseChars tail = Some (text, final) ->
  parseChars (escapeChar c ++ tail) = Some (String c text, final).
Proof.
  intros H.
  assert (E : parseChars (escapeChar c ++ tail) =
              match parseChars tail with
              | Some (t, f) => Some (String c t, f)
              | None => None
              end).
  { destruct c as [[] [] [] [] [] [] [] []]; reflexivity. }
  now rewrite E, H.
Qed.

Lemma parseChars_escape (s rest : string) :
  parseChars (escape s ++ String dquote rest) = Some (s, rest).
Proof.
  induction s as [|c s IH]; [reflexivity|].
  cbn [escape]. rewrite append_assoc.
  now apply parseChars_escapeChar.
Qed.

Lemma quote_append (s rest : string) :
  quote s ++ rest = String dquote (escape s ++ String dquote rest).
Proof. unfold quote. cbn [append]. now rewrite append_assoc. Qed.


(** ** Number tokens *)

(** A number character is none of the characters the reader branches on
    before it tries a number. *)
Lemma number_char_plain (c : ascii) :
  isNumberChar c = true ->
  isWhitespace c = false
  /\ Ascii.eqb c "n" = false /\ Ascii.eqb c "t" = false
  /\ Ascii.eqb c "f" = false /\ Ascii.eqb c dquote = false
  /\ Ascii.eqb c "[" = false /\ Ascii.eqb c "{" = false
  /\ Ascii.eqb c "]" = false /\ Ascii.eqb c "}" = false
  /\ Ascii.eqb c "," = false.
Proof.
  destruct c as [[] [] [] [] [] [] [] []]; intros H;
    solve [discriminate H | repeat split; reflexivity].
Qed.

Lemma spanNumber_text (text rest : string) :
  allNumberChars text = true -> follows rest = true ->
  spanNumber (text ++ rest) = (text, rest).
Proof.
  intros Htext Hrest.
  induction text as [|c text IH]; cbn [append].
  - destruct rest as [|c rest]; [reflexivity|].
    cbn [spanNumber]. cbn [follows] in Hrest.
    now destruct (isNumberChar c).
  - cbn [allNumberChars] in Htext. apply andb_true_iff in Htext.
    destruct Htext as [Hc Htext].
    cbn [spanNumber]. now rewrite Hc, (IH Htext).
Qed.

Lemma parseValue_number (fuel : nat) (c : ascii) (tail : string) :
  isNumberChar c = true ->
  parseValue (S fuel) (String c tail) =
  (let (text, after) := spanNumber (String c tail) in
   Some (JNumber text, after)).
Proof.
  intros H. destruct (number_char_plain c H)
    as (Hws & Hn & Ht & Hf & Hq & Hb & Ho & _).
  cbn [parseValue skipWhitespace].
  now rewrite Hws, Hn, Ht, Hf, Hq, Hb, Ho, H.
Qed.

(** ** The first character of a printed value *)

Lemma value_head (v : JValue) :
  wellFormed v = true ->
  exists c tail,
    stringify v = String c tail
    /\ isWhitespace c = false /\ Ascii.eqb c "]" = false.
Proof.
  destruct v as [|[|]|text|s|elements|properties]; intros Hwf;
    try (eexists; eexists; split; [reflexivity|split; reflexivity]).
  cbn [wellFormed] in Hwf. unfold numberText in Hwf.
  destruct text as [|c text]; [discriminate|].
  cbn [allNumberChars] in Hwf. cbn in Hwf.
  apply andb_true_iff in Hwf. destruct Hwf as [Hc _].
  destruct (number_char_plain c Hc) as (Hws & _ & _ & _ & _ & _ & _ & Hb & _).
  exists c, text. repeat split; assumption.
Qed.


(** ** Arrays and objects *)

Lemma join_cons (p : string) (ps : list string) :
  join (p :: ps) = p ++ tailText ps.
Proof.
  revert p. induction ps as [|q qs IH]; intros p.
  - cbn. now rewrite append_nil_r.
  - change (join (p :: q :: qs)) with (p ++ "," ++ join (q :: qs)).
    now rewrite IH.
Qed.

(** After a value inside an array or an object comes a comma or the
    closing bracket, which ends a number. *)
Lemma delimited_in_container (v : JValue) (parts : list string)
    (close : ascii) (rest : string) :
  isNumberChar close = false ->
  delimited v (tailText parts ++ String close rest) = true.
Proof.
  intros Hclose. destruct v; try reflexivity.
  destruct parts as [|p parts]; cbn; [now rewrite Hclose|reflexivity].
Qed.

Lemma skip_value (v : JValue) (rest : string) :
  wellFormed v = true ->
  skipWhitespace (stringify v ++ rest) = stringify v ++ rest
  /\ exists c tail, stringify v ++ rest = String c tail
                    /\ Ascii.eqb c "]" = false.
Proof.
  intros Hwf. destruct (value_head v Hwf) as (c & tail & E & Hws & Hb).
  rewrite E. cbn [append skipWhitespace]. rewrite Hws.
  split; [reflexivity|]. now exists c, (tail ++ rest).
Qed.

Lemma parseElements_comma pv (budget : nat) (rest : string) :
  parseElements pv (S budget) (String "," rest) =
  match pv rest with
  | Some (v, after) =>
      match parseElements pv budget after with
      | Some (vs, final) => Some (v :: vs, final)
      | None => None
      end
  | None => None
  end.
Proof. reflexivity. Qed.

Lemma parseElements_tail pv (vs : list JValue) :
  Forall (reads pv) vs ->
  forall budget rest,
    List.length vs < budget ->
    parseElements pv budget
      (tailText (map stringify vs) ++ String "]" rest) = Some (vs, rest).
Proof.
  induction 1 as [|v vs Hv Hvs IH]; intros budget rest Hbudget;
    (destruct budget as [|budget]; [cbn in Hbudget; lia|]).
  - reflexivity.
  - cbn [map tailText]. rewrite !append_assoc. cbn [append].
    rewrite parseElements_comma, Hv
      by (now apply delimited_in_container).
    rewrite IH by (cbn in Hbudget; lia). reflexivity.
Qed.

Lemma parseMember_quote pv (r : string) :
  parseMember pv (String dquote r) =
  match parseChars r with
  | Some (key, after) =>
      match skipWhitespace after with
      | String colon after' =>
          if Ascii.eqb colon ":" then
            match pv after' with
            | Some (v, final) => Some (key, v, final)
            | None => None
            end
          else None
      | EmptyString => None
      end
  | None => None
  end.
Proof. reflexivity. Qed.

Lemma parseMember_text pv (k : string) (v : JValue) (rest : string) :
  reads pv v -> delimited v rest = true ->
  parseMember pv (memberText (k, v) ++ rest) = Some (k, v, rest).
Proof.
  intros Hv Hrest.
  assert (E : memberText (k, v) ++ rest =
              String dquote
                (escape k ++ String dquote (String ":" (stringify v ++ rest)))).
  { cbn [memberText]. now rewrite append_assoc, quote_append. }
  rewrite E, parseMember_quote, parseChars_escape.
  change (skipWhitespace (String ":" (stringify v ++ rest)))
    with (String ":" (stringify v ++ rest)).
  change (Ascii.eqb ":" ":") with true. cbn iota.
  now rewrite Hv.
Qed.

Lemma parseMembers_comma pv (budget : nat) (obj : JsObject)
    (rest : string) :
  parseMembers pv (S budget) obj (String "," rest) =
  match parseMember pv rest with
  | Some (key, v, after) => parseMembers pv budget (setProp key v obj) after
  | None => None
  end.
Proof. reflexivity. Qed.

Lemma parseMembers_tail pv (ps : list (string * JValue)) :
  Forall (fun kv : string * JValue => reads pv (snd kv)) ps ->
  forall budget seen obj rest,
    List.length ps < budget ->
    (forall k, existsb (String.eqb k) seen = hasOwnProperty obj k) ->
    uniqueKeys seen (map fst ps) = true ->
    ownOrder (keys (obj ++ ps)%list) = true ->
    parseMembers pv budget obj
      (tailText (map memberText ps) ++ String "}" rest) =
    Some ((obj ++ ps)%list, rest).
Proof.
  induction 1 as [|[k v] ps Hv Hps IH];
    intros budget seen obj rest Hbudget Hseen Hunique Hord;
    (destruct budget as [|budget]; [cbn in Hbudget; lia|]).
  - cbn. now rewrite app_nil_r.
  - cbn [map tailText]. rewrite !append_assoc. cbn [append].
    rewrite parseMembers_comma.
    rewrite parseMember_text;
      [|exact Hv|now apply delimited_in_container].
    cbn [map fst uniqueKeys] in Hunique.
    apply andb_true_iff in Hunique. destruct Hunique as [Hk Hunique].
    assert (Hfresh : getProp k obj = None).
    { rewrite Hseen in Hk. unfold hasOwnProperty in Hk.
      destruct (getProp k obj); [discriminate|reflexivity]. }
    assert (Hsplit : (obj ++ (k, v) :: ps = (obj ++ [(k, v)]) ++ ps)%list)
      by now rewrite <- app_assoc.
    rewrite Hsplit in Hord.
    rewrite (setProp_last _ _ _ Hfresh).
    2:{ unfold keys in *. rewrite map_app in Hord.
        apply ownOrder_app_l in Hord. now rewrite map_app in Hord. }
    rewrite (IH budget (k :: seen)); [now rewrite <- app_assoc| | | |].
    + cbn in Hbudget. lia.
    + intros k'. cbn [existsb]. rewrite hasOwnProperty_app, Hseen.
      rewrite orb_comm. f_equal.
      unfold hasOwnProperty. cbn [getProp]. rewrite (String.eqb_sym k k').
      now destruct (String.eqb k' k).
    + exact Hunique.
    + exact Hord.
Qed.


(** ** Values *)

Lemma parseValue_string (fuel : nat) (r : string) :
  parseValue (S fuel) (String dquote r) =
  option_map (fun p : string * string => (JString (fst p), snd p))
             (parseChars r).
Proof. reflexivity. Qed.

Lemma parseValue_array (fuel : nat) (r : string) :
  parseValue (S fuel) (String "[" r) =
  match skipWhitespace r with
  | String c' rest' =>
      if Ascii.eqb c' "]" then Some (JArray [], rest')
      else
        match parseValue fuel r with
        | Some (v, after) =>
            match parseElements (parseValue fuel) fuel after with
            | Some (vs, final) => Some (JArray (v :: vs), final)
            | None => None
            end
        | None => None
        end
  | EmptyString => None
  end.
Proof. reflexivity. Qed.

Lemma parseValue_object (fuel : nat) (r : string) :
  parseValue (S fuel) (String "{" r) =
  match skipWhitespace r with
  | String c' rest' =>
      if Ascii.eqb c' "}" then Some (JObject [], rest')
      else
        match parseMember (parseValue fuel) r with
        | Some (key, v, after) =>
            match parseMembers (parseValue fuel) fuel (setProp key v [])
                    after with
            | Some (obj, final) => Some (JObject obj, final)
            | None => None
            end
        | None => None
        end
  | EmptyString => None
  end.
Proof. reflexivity. Qed.

Lemma size_in_sum {A : Type} (f : A -> nat) (x : A) (l : list A) :
  In x l -> f x <= list_sum (map f l).
Proof.
  induction l as [|y l IH]; intros Hin; [destruct Hin|].
  simpl. destruct Hin as [->|Hin]; [lia|].
  specialize (IH Hin). lia.
Qed.

(** [parseValue] reads back what [stringify] prints for a well-formed
    value, given fuel for its size, and leaves the text after it. *)
Theorem parseValue_stringify (v : JValue) :
  wellFormed v = true ->
  forall fuel rest,
    size v <= fuel -> delimited v rest = true ->
    parseValue fuel (stringify v ++ rest) = Some (v, rest).
Proof.
  induction v as [|b|text|s|elements IH|properties IH]
    using JValue_induction;
    intros Hwf fuel rest Hfuel Hrest;
    (destruct fuel as [|fuel]; [cbn in Hfuel; lia|]).
  - reflexivity.
  - destruct b; reflexivity.
  - cbn [wellFormed] in Hwf. unfold numberText in Hwf.
    apply andb_true_iff in Hwf. destruct Hwf as [Hne Hall].
    destruct text as [|c text]; [discriminate|].
    assert (Hc : isNumberChar c = true).
    { cbn [allNumberChars] in Hall. now apply andb_true_iff in Hall. }
    cbn [stringify append]. rewrite (parseValue_number _ _ _ Hc).
    change (String c (text ++ rest)) with (String c text ++ rest).
    now rewrite (spanNumber_text _ _ Hall Hrest).
  - cbn [stringify]. rewrite quote_append, parseValue_string.
    now rewrite parseChars_escape.
  - destruct elements as [|v vs]; [reflexivity|].
    cbn [wellFormed forallb] in Hwf.
    apply andb_true_iff in Hwf. destruct Hwf as [Hv Hvs].
    inversion IH as [|? ? IHv IHvs]; subst.
    cbn [size List.length map list_sum fold_right] in Hfuel.
    cbn [stringify]. cbn [map]. rewrite join_cons.
    rewrite !append_assoc. cbn [append]. rewrite parseValue_array.
    destruct (skip_value v (tailText (map stringify vs) ++ String "]" rest)
                Hv) as (Hskip & c & tail & E & Hb).
    rewrite Hskip, E, Hb, <- E.
    rewrite (IHv Hv) by
      (try lia; now apply delimited_in_container).
    rewrite parseElements_tail; [reflexivity| |lia].
    rewrite Forall_forall in IHvs. rewrite forallb_forall in Hvs.
    apply Forall_forall. intros x Hx rest' Hrest'.
    apply IHvs; [assumption|now apply Hvs| |assumption].
    pose proof (size_in_sum size x vs Hx) as Hle.
    unfold list_sum in Hle. lia.
  - destruct properties as [|[k v] ps]; [reflexivity|].
    cbn [wellFormed map fst] in Hwf.
    apply andb_true_iff in Hwf. destruct Hwf as [Hunique Hall].
    apply andb_true_iff in Hunique. destruct Hunique as [Hunique Hord].
    cbn [forallb] in Hall.
    apply andb_true_iff in Hall. destruct Hall as [Hv Hps].
    inversion IH as [|? ? IHv IHps]; subst. cbn [snd] in IHv.
    cbn [size List.length map list_sum fold_right snd] in Hfuel.
    cbn [stringify]. cbn [map].
    change (fun kv : string * JValue =>
              let (k0, x) := kv in quote k0 ++ ":" ++ stringify x)
      with memberText.
    change (quote k ++ ":" ++ stringify v) with (memberText (k, v)).
    rewrite join_cons.
    rewrite !append_assoc. cbn [append]. rewrite parseValue_object.
    assert (Ehead : exists tail,
               memberText (k, v)
               ++ tailText (map memberText ps) ++ String "}" rest =
               String dquote tail).
    { cbn [memberText]. unfold quote. cbn [append]. eexists. reflexivity. }
    destruct Ehead as [tail Ehead].
    assert (Hskip : skipWhitespace
                      (memberText (k, v)
                       ++ tailText (map memberText ps) ++ String "}" rest) =
                    String dquote tail).
    { rewrite Ehead. reflexivity. }
    rewrite Hskip. change (Ascii.eqb dquote "}") with false. cbn iota.
    rewrite parseMember_text;
      [| |now apply delimited_in_container].
    2:{ intros rest' Hrest'. apply IHv; [assumption|lia|assumption]. }
    rewrite setProp_nil.
    cbn [uniqueKeys existsb negb andb] in Hunique.
    rewrite (parseMembers_tail (parseValue fuel) ps) with (seen := [k]);
      [reflexivity| |lia| |exact Hunique|exact Hord].
    + rewrite Forall_forall in IHps. rewrite forallb_forall in Hps.
      apply Forall_forall. intros [k' x] Hx rest' Hrest'. cbn [snd] in *.
      apply (IHps (k', x) Hx); [exact (Hps (k', x) Hx)| |assumption].
      pose proof (size_in_sum (fun kv : string * JValue => size (snd kv))
                    (k', x) ps Hx) as Hle. cbn [snd] in Hle.
      unfold list_sum in Hle. cbn [snd]. lia.
    + intros k'. cbn [existsb]. unfold hasOwnProperty. cbn [getProp].
      rewrite (String.eqb_sym k k'). now destruct (String.eqb k' k).
Qed.


(** ** Fuel from the length of the text *)

Lemma length_quote (s : string) : 2 <= String.length (quote s).
Proof.
  unfold quote. cbn [String.length]. rewrite length_append. cbn. lia.
Qed.

Lemma length_join_tail (parts : list string) :
  String.length (tailText parts) =
  List.length parts + list_sum (map String.length parts).
Proof.
  induction parts as [|p parts IH]; [reflexivity|].
  cbn [tailText map List.length]. cbn [append String.length].
  rewrite length_append, IH. unfold list_sum. cbn [fold_right]. lia.
Qed.

Lemma length_join (parts : list string) :
  List.length parts + list_sum (map String.length parts) <=
  S (String.length (join parts)).
Proof.
  destruct parts as [|p parts]; [cbn; lia|].
  rewrite join_cons, length_append, length_join_tail.
  unfold list_sum. cbn [map fold_right List.length]. lia.
Qed.

Lemma list_sum_le {A : Type} (f g : A -> nat) (l : list A) :
  Forall (fun x => f x <= g x) l ->
  list_sum (map f l) <= list_sum (map g l).
Proof.
  induction 1 as [|x l Hx Hl IH]; [reflexivity|].
  unfold list_sum in *. cbn [map fold_right]. lia.
Qed.

(** A well-formed value is printed on at least as many characters as the
    fuel its reading needs. *)
Lemma size_le_length (v : JValue) :
  wellFormed v = true -> size v <= String.length (stringify v).
Proof.
  induction v as [|b|text|s|elements IH|properties IH]
    using JValue_induction; intros Hwf.
  - cbn. lia.
  - destruct b; cbn; lia.
  - cbn [wellFormed] in Hwf. unfold numberText in Hwf.
    destruct text; [discriminate|]. cbn. lia.
  - cbn [size stringify]. pose proof (length_quote s). lia.
  - cbn [size stringify]. cbn [append String.length].
    rewrite length_append. cbn [String.length].
    pose proof (length_join (map stringify elements)) as Hjoin.
    rewrite length_map, map_map in Hjoin.
    assert (Hsum : list_sum (map size elements) <=
                   list_sum (map (fun x => String.length (stringify x))
                                 elements)).
    { apply list_sum_le. cbn [wellFormed] in Hwf.
      rewrite forallb_forall in Hwf. rewrite Forall_forall in IH.
      apply Forall_forall. intros x Hx. apply IH; [assumption|].
      now apply Hwf. }
    lia.
  - cbn [size stringify].
    change (fun kv : string * JValue =>
              let (k0, x) := kv in quote k0 ++ ":" ++ stringify x)
      with memberText.
    cbn [append String.length].
    rewrite length_append. cbn [String.length].
    pose proof (length_join (map memberText properties)) as Hjoin.
    rewrite length_map, map_map in Hjoin.
    assert (Hsum : list_sum (map (fun kv : string * JValue => size (snd kv))
                                 properties) <=
                   list_sum (map (fun kv => String.length (memberText kv))
                                 properties)).
    { apply list_sum_le. cbn [wellFormed] in Hwf.
      apply andb_true_iff in Hwf. destruct Hwf as [_ Hwf].
      rewrite forallb_forall in Hwf. rewrite Forall_forall in IH.
      apply Forall_forall. intros [k x] Hx. cbn [snd memberText].
      rewrite !length_append.
      specialize (IH (k, x) Hx). specialize (Hwf (k, x) Hx).
      cbn [snd] in IH. specialize (IH Hwf). lia. }
    lia.
Qed.

(** ** Reading at an offset of an edited source *)

Lemma drop_take_append (n : nat) (s x : string) :
  n <= String.length s -> drop n (take n s ++ x) = x.
Proof.
  revert s. induction n as [|n IH]; intros s Hn.
  - destruct s; reflexivity.
  - destruct s as [|c s]; [cbn in Hn; lia|].
    cbn [take append drop]. apply IH. cbn in Hn. lia.
Qed.

Lemma length_take (n : nat) (s : string) :
  n <= String.length s -> String.length (take n s) = n.
Proof.
  revert s. induction n as [|n IH]; intros s Hn.
  - destruct s; reflexivity.
  - destruct s as [|c s]; [cbn in Hn; lia|].
    cbn [take String.length]. rewrite IH; [reflexivity|]. cbn in Hn. lia.
Qed.

(** In the source in which the text [stringify v] has been put at
    [offset], the value that starts at [offset] is [v]. *)
Lemma parseAt_replaced (source : string) (offset : nat) (v : JValue)
    (after : string) :
  wellFormed v = true ->
  delimited v after = true ->
  offset <= String.length source ->
  parseAt (take offset source ++ stringify v ++ after) offset = Some v.
Proof.
  intros Hwf Hafter Hoffset. unfold parseAt.
  rewrite (drop_take_append _ _ _ Hoffset).
  rewrite parseValue_stringify; [reflexivity|assumption| |assumption].
  rewrite !length_append. pose proof (size_le_length v Hwf). lia.
Qed.

End JsonFacts.

(* ===================================================================== *)
(** * The object the rule prints *)
(* ===================================================================== *)

Module CanonicalFacts.
Import BinNat.
Import suggestedMetricPatterns SuggestedMetricSuggestionRule SuggestionSpec.
Import ObjectFacts.
Local Open Scope string_scope.

(** ** Reading the node's value *)

Lemma member_entries (v : JValue) (key : string) :
  v <> JNull -> member v key = ret (getProp key (entries v)).
Proof. destruct v; intros H; try reflexivity. contradiction. Qed.

Lemma objectKeys_entries (v : JValue) :
  v <> JNull -> objectKeys v = ret (keys (entries v)).
Proof. destruct v; intros H; try reflexivity. contradiction. Qed.

Lemma copyIfDefined_spec (key : string) (v : JValue) (o : Ordinary) :
  v <> JNull ->
  copyIfDefined key v o =
  ret match getProp key (entries v) with
      | Some x => assign o key x
      | None => o
      end.
Proof.
  intros Hv. unfold copyIfDefined. rewrite (member_entries v key Hv).
  cbn [bind ret Monad_Completion Monad_either].
  now destruct (getProp key (entries v)).
Qed.

(** ** The properties set first *)

Lemma getProp_presents (signalObj : JsObject) (ks : list string)
    (k : string) :
  getProp k (flat_map (present signalObj) ks) =
  if existsb (String.eqb k) ks then getProp k signalObj else None.
Proof.
  induction ks as [|key ks IH]; cbn [flat_map existsb]; [reflexivity|].
  rewrite getProp_app, IH. unfold present.
  destruct (String.eqb_spec k key) as [->|Hne]; cbn [orb].
  - destruct (getProp key signalObj) as [v|] eqn:Hkey; cbn [getProp].
    + now rewrite String.eqb_refl.
    + now destruct (existsb (String.eqb key) ks).
  - destruct (getProp key signalObj) as [v|]; cbn [getProp];
      [|reflexivity].
    destruct (String.eqb_spec key k) as [E|_]; [now symmetry in E|].
    reflexivity.
Qed.

Lemma getProp_head (signalObj : JsObject) (m k : string) :
  getProp k (headProperties signalObj m) =
  if String.eqb k "suggestedMetric" then Some (JString m)
  else if existsb (String.eqb k) knownFirst then getProp k signalObj
  else None.
Proof.
  unfold headProperties. rewrite getProp_app, getProp_presents.
  cbn [getProp]. rewrite (String.eqb_sym "suggestedMetric" k).
  destruct (String.eqb_spec k "suggestedMetric") as [->|Hne].
  - reflexivity.
  - destruct (existsb (String.eqb k) knownFirst); [|reflexivity].
    now destruct (getProp k signalObj).
Qed.

(** A property of the signal is among those set first exactly when its
    name is one of the five. *)
Lemma hasOwnProperty_head (signalObj : JsObject) (m k : string) :
  getProp k signalObj <> None ->
  hasOwnProperty (headProperties signalObj m) k =
  existsb (String.eqb k) (knownFirst ++ ["suggestedMetric"])%list.
Proof.
  intros Hk. unfold hasOwnProperty. rewrite getProp_head, existsb_app.
  cbn [existsb]. rewrite orb_false_r.
  destruct (String.eqb k "suggestedMetric"); [now rewrite orb_true_r|].
  rewrite orb_false_r.
  destruct (existsb (String.eqb k) knownFirst); [|reflexivity].
  now destruct (getProp k signalObj).
Qed.

Lemma head_names (signalObj : JsObject) (m : string) :
  forallb (fun kv : string * JValue => isName (fst kv))
          (headProperties signalObj m) = true.
Proof.
  unfold headProperties, knownFirst, present. cbn [flat_map].
  destruct (getProp "id" signalObj), (getProp "path" signalObj),
    (getProp "fmt" signalObj), (getProp "name" signalObj); reflexivity.
Qed.

Lemma head_starts (signalObj : JsObject) (m : string) :
  exists k v rest,
    headProperties signalObj m = (k, v) :: rest /\ arrayIndex k = None.
Proof.
  pose proof (head_names signalObj m) as Hnames.
  destruct (headProperties signalObj m) as [|[k v] rest] eqn:E.
  - unfold headProperties in E. now apply app_eq_nil in E.
  - exists k, v, rest. split; [reflexivity|].
    cbn [forallb fst] in Hnames. apply andb_true_iff in Hnames.
    now apply isName_arrayIndex.
Qed.

Lemma head_built (v : JValue) (m : string) :
  v <> JNull ->
  (orderedSignal <- copyIfDefined "id" v emptyObject ;;
   orderedSignal <- copyIfDefined "path" v orderedSignal ;;
   orderedSignal <- copyIfDefined "fmt" v orderedSignal ;;
   orderedSignal <- copyIfDefined "name" v orderedSignal ;;
   ret (assign orderedSignal "suggestedMetric" (JString m))) =
  ret {| own := headProperties (entries v) m; inherits := true |}.
Proof.
  intros Hv. rewrite !(copyIfDefined_spec _ v _ Hv).
  cbn [bind ret Monad_Completion Monad_either].
  rewrite !(copyIfDefined_spec _ v _ Hv).
  cbn [bind ret Monad_Completion Monad_either].
  rewrite !(copyIfDefined_spec _ v _ Hv).
  cbn [bind ret Monad_Completion Monad_either].
  rewrite !(copyIfDefined_spec _ v _ Hv).
  cbn [bind ret Monad_Completion Monad_either].
  unfold headProperties, knownFirst, present. cbn [flat_map].
  destruct (getProp "id" (entries v)), (getProp "path" (entries v)),
    (getProp "fmt" (entries v)), (getProp "name" (entries v));
    reflexivity.
Qed.

(** ** Names and indices *)

Lemma names_lack_index (o : JsObject) (k : string) :
  forallb (fun kv : string * JValue => isName (fst kv)) o = true ->
  isName k = false -> hasOwnProperty o k = false.
Proof.
  intros Hnames Hk. apply hasOwnProperty_false, getProp_In.
  intros Hin. unfold keys in Hin. apply in_map_iff in Hin.
  destruct Hin as [[k' x] [E Hin]]. cbn [fst] in E. subst k'.
  rewrite forallb_forall in Hnames. specialize (Hnames _ Hin).
  cbn [fst] in Hnames. congruence.
Qed.

Lemma indices_lack_name (o : JsObject) (k : string) :
  forallb (fun kv : string * JValue => negb (isName (fst kv))) o = true ->
  isName k = true -> hasOwnProperty o k = false.
Proof.
  intros Hindices Hk. apply hasOwnProperty_false, getProp_In.
  intros Hin. unfold keys in Hin. apply in_map_iff in Hin.
  destruct Hin as [[k' x] [E Hin]]. cbn [fst] in E. subst k'.
  rewrite forallb_forall in Hindices. specialize (Hindices _ Hin).
  cbn [fst] in Hindices. rewrite Hk in Hindices. discriminate.
Qed.

Lemma fresh_key (o : JsObject) (k : string) :
  ~ In k (keys o) -> hasOwnProperty o k = false.
Proof. intros H. now apply hasOwnProperty_false, getProp_In. Qed.

(** An object in the order of own keys is its indices followed by its
    names. *)
Lemma ownOrder_split (o : JsObject) :
  ownOrder (keys o) = true -> o = (indexPart o ++ namePart o)%list.
Proof.
  induction o as [|[k x] o IH]; intros Hord; [reflexivity|].
  unfold indexPart, namePart in *. cbn [filter fst].
  cbn [keys map fst] in Hord. pose proof (ownOrder_tail _ _ Hord) as Htail.
  destruct (isName k) eqn:Hk; cbn [negb app].
  - cbn [ownOrder] in Hord. apply isName_arrayIndex in Hk.
    rewrite Hk in Hord.
    assert (Hnone : filter (fun kv : string * JValue =>
                              negb (isName (fst kv))) o = []).
    { clear -Hord. induction o as [|[k' x'] o IHo]; [reflexivity|].
      cbn [map fst forallb] in Hord. apply andb_true_iff in Hord.
      destruct Hord as [Hk' Hrest]. cbn [filter fst]. rewrite Hk'.
      cbn [negb]. now apply IHo. }
    assert (Hall : filter (fun kv : string * JValue => isName (fst kv)) o
                   = o).
    { clear -Hord. induction o as [|[k' x'] o IHo]; [reflexivity|].
      cbn [map fst forallb] in Hord. apply andb_true_iff in Hord.
      destruct Hord as [Hk' Hrest]. cbn [filter fst]. rewrite Hk'.
      f_equal. now apply IHo. }
    now rewrite Hnone, Hall.
  - f_equal. now apply IH.
Qed.

(** ** The loop over the keys *)

Lemma copyRemaining_app (v : JValue) (first second : list string)
    (o : Ordinary) :
  copyRemaining v (first ++ second) o =
  (o' <- copyRemaining v first o ;; copyRemaining v second o').
Proof.
  revert o. induction first as [|k first IH]; intros o; [reflexivity|].
  cbn [app copyRemaining].
  destruct (copyIfMissing v o k) as [e|o']; [reflexivity|].
  cbn [bind ret Monad_Completion Monad_either]. apply IH.
Qed.

(** The array indices go in front of the properties set first. *)
Lemma copy_indices (v : JValue) (head : JsObject) :
  v <> JNull ->
  forallb (fun kv : string * JValue => isName (fst kv)) head = true ->
  (exists k x rest, head = (k, x) :: rest /\ arrayIndex k = None) ->
  hasOwnProperty head "hasOwnProperty" = false ->
  forall todo done,
    (forall k x, In (k, x) todo -> getProp k (entries v) = Some x) ->
    NoDup (keys (done ++ todo)%list) ->
    ownOrder (keys (done ++ todo)%list) = true ->
    forallb (fun kv : string * JValue => negb (isName (fst kv)))
            (done ++ todo)%list = true ->
    copyRemaining v (keys todo)
      {| own := (done ++ head)%list; inherits := true |} =
    ret {| own := ((done ++ todo) ++ head)%list; inherits := true |}.
Proof.
  intros Hv Hnames Hstart Hcallable.
  induction todo as [|[k x] todo IH]; intros done Hread Hnd Hord Hindices.
  - now rewrite app_nil_r.
  - cbn [keys map fst copyRemaining].
    assert (Hdone : forallb (fun kv : string * JValue =>
                               negb (isName (fst kv))) done = true).
    { rewrite forallb_app in Hindices.
      now apply andb_true_iff in Hindices. }
    assert (Hk : isName k = false).
    { rewrite forallb_app in Hindices.
      apply andb_true_iff in Hindices. destruct Hindices as [_ H].
      cbn [forallb fst] in H. apply andb_true_iff in H.
      now apply negb_true_iff. }
    destruct (arrayIndex k) as [i|] eqn:Hindex;
      [|unfold isName in Hk; rewrite Hindex in Hk; discriminate].
    assert (Hsplit : ((done ++ (k, x) :: todo) =
                      ((done ++ [(k, x)]) ++ todo))%list)
      by now rewrite <- app_assoc.
    assert (Hfresh : ~ In k (keys done)).
    { unfold keys in *. rewrite map_app in Hnd. cbn [map fst] in Hnd.
      apply NoDup_remove_2 in Hnd. intros Hin. apply Hnd.
      apply in_or_app. now left. }
    assert (Hproto : String.eqb k "__proto__" = false).
    { apply String.eqb_neq. intros ->. discriminate. }
    unfold copyIfMissing, callHasOwnProperty. cbn [own inherits].
    rewrite !hasOwnProperty_app.
    rewrite (indices_lack_name done "hasOwnProperty" Hdone eq_refl).
    rewrite Hcallable, (fresh_key done k Hfresh).
    rewrite (names_lack_index head k Hnames Hk).
    cbn [orb negb bind ret Monad_Completion Monad_either].
    rewrite (member_entries v k Hv), (Hread k x (or_introl eq_refl)).
    cbn [bind ret Monad_Completion Monad_either].
    unfold assign. cbn [own inherits]. rewrite Hproto. cbn [andb].
    assert (Hset : setProp k x (done ++ head)%list =
                   ((done ++ [(k, x)]) ++ head)%list).
    { unfold setProp. rewrite hasOwnProperty_app.
      rewrite (fresh_key done k Hfresh).
      rewrite (names_lack_index head k Hnames Hk). cbn [orb].
      rewrite Hindex, <- app_assoc. cbn [app].
      apply insertIndex_between.
      - apply (ownOrder_before_index (keys done) k i); [|assumption].
        rewrite Hsplit in Hord. unfold keys in *.
        rewrite map_app in Hord. apply ownOrder_app_l in Hord.
        now rewrite map_app in Hord.
      - destruct Hstart as (k0 & x0 & rest0 & -> & Hk0).
        now rewrite Hk0. }
    rewrite Hset, Hsplit.
    apply IH.
    + intros k' x' Hin. apply Hread. now right.
    + now rewrite <- Hsplit.
    + now rewrite <- Hsplit.
    + now rewrite <- Hsplit.
Qed.

Lemma copyRemaining_broken (v : JValue) (k : string) (ks : list string)
    (o : Ordinary) :
  hasOwnProperty (own o) "hasOwnProperty" || negb (inherits o) = true ->
  copyRemaining v (k :: ks) o = throw notAFunction.
Proof.
  intros Hbroken. cbn [copyRemaining].
  unfold copyIfMissing, callHasOwnProperty. now rewrite Hbroken.
Qed.

Lemma known_not_special (kv : string * JValue) :
  isRemaining kv = false ->
  String.eqb (fst kv) "hasOwnProperty" = false
  /\ String.eqb (fst kv) "__proto__" = false.
Proof.
  unfold isRemaining, knownFirst. cbn [app existsb]. intros H.
  apply negb_false_iff in H. rewrite !orb_true_iff in H.
  destruct H as [H|[H|[H|[H|[H|H]]]]]; try discriminate;
    apply String.eqb_eq in H; rewrite H; split; reflexivity.
Qed.

Lemma breaksEarly_skip (kv : string * JValue) (todo : JsObject) :
  isBreaker kv = false -> breaksEarly (kv :: todo) = breaksEarly todo.
Proof. intros H. cbn [breaksEarly]. rewrite H. now destruct todo. Qed.

Lemma breaksEarly_breaker (kv next : string * JValue) (todo : JsObject) :
  isBreaker kv = true -> breaksEarly (kv :: next :: todo) = true.
Proof. intros H. cbn [breaksEarly]. now rewrite H. Qed.

(** The names go after the properties set first, but for [__proto__];
    once [hasOwnProperty] has stopped being a function the next call
    throws. *)
Lemma copy_names (v : JValue) (front : JsObject) :
  v <> JNull ->
  forall todo kept,
    (forall k x, In (k, x) todo ->
                 getProp k (entries v) = Some x
                 /\ arrayIndex k = None
                 /\ hasOwnProperty front k = negb (isRemaining (k, x))) ->
    NoDup (keys (kept ++ todo)%list) ->
    hasOwnProperty (front ++ kept)%list "hasOwnProperty" = false ->
    match copyRemaining v (keys todo)
            {| own := (front ++ kept)%list; inherits := true |} with
    | inl e => e = notAFunction /\ breaksEarly todo = true
    | inr final =>
        breaksEarly todo = false
        /\ own final = (front ++ kept ++ filter isKept todo)%list
    end.
Proof.
  intros Hv.
  induction todo as [|[k x] todo IH]; intros kept Hread Hnd Hcallable.
  - cbn. split; [reflexivity|]. now rewrite app_nil_r.
  - destruct (Hread k x (or_introl eq_refl)) as (Hvalue & Hname & Hown).
    assert (Hsplit : ((kept ++ (k, x) :: todo) =
                      ((kept ++ [(k, x)]) ++ todo))%list)
      by now rewrite <- app_assoc.
    assert (Hfresh : ~ In k (keys kept)).
    { unfold keys in *. rewrite map_app in Hnd. cbn [map fst] in Hnd.
      apply NoDup_remove_2 in Hnd. intros Hin. apply Hnd.
      apply in_or_app. now left. }
    assert (Hlater : forall k' x', In (k', x') todo ->
               getProp k' (entries v) = Some x'
               /\ arrayIndex k' = None
               /\ hasOwnProperty front k' = negb (isRemaining (k', x'))).
    { intros k' x' Hin. apply Hread. now right. }
    assert (Hnd' : NoDup (keys (kept ++ todo)%list)).
    { unfold keys in *. rewrite map_app in *. cbn [map fst] in Hnd.
      now apply NoDup_remove_1 in Hnd. }
    pose proof (IH kept Hlater Hnd' Hcallable) as IHsame.
    cbn [keys map fst copyRemaining].
    unfold copyIfMissing, callHasOwnProperty. cbn [own inherits].
    rewrite Hcallable. cbn [orb negb bind ret Monad_Completion Monad_either].
    rewrite hasOwnProperty_app, Hown, (fresh_key kept k Hfresh).
    rewrite orb_false_r, negb_involutive.
    destruct (isRemaining (k, x)) eqn:Hremaining.
    + (* a property that is not yet there *)
      rewrite (member_entries v k Hv), Hvalue.
      cbn [bind ret Monad_Completion Monad_either].
      unfold assign. cbn [own inherits]. rewrite andb_true_r.
      destruct (String.eqb_spec k "__proto__") as [->|Hproto].
      * (* the setter of the prototype *)
        assert (Hkept : isKept ("__proto__", x) = false)
          by (unfold isKept; cbn [fst]; now rewrite andb_false_r).
        cbn [filter]. rewrite Hkept.
        destruct x as [|b|text|s|elements|properties];
          try (rewrite breaksEarly_skip by reflexivity; exact IHsame).
        -- destruct todo as [|[k' x'] todo].
           ++ cbn. split; [reflexivity|]. now rewrite app_nil_r.
           ++ cbn [keys map fst]. rewrite copyRemaining_broken
                by (cbn [own inherits]; now rewrite orb_true_r).
              split; reflexivity.
        -- destruct todo as [|[k' x'] todo].
           ++ cbn. split; [reflexivity|]. now rewrite app_nil_r.
           ++ cbn [keys map fst]. rewrite copyRemaining_broken
                by (cbn [own inherits]; now rewrite orb_true_r).
              split; reflexivity.
      * (* a new own property, last *)
        apply String.eqb_neq in Hproto. cbn [andb].
        assert (Hkept : isKept (k, x) = true)
          by (unfold isKept; cbn [fst]; now rewrite Hremaining, Hproto).
        cbn [filter]. rewrite Hkept.
        assert (Hset : setProp k x (front ++ kept)%list =
                       (front ++ kept ++ [(k, x)])%list).
        { rewrite setProp_name; [now rewrite <- app_assoc| |assumption].
          apply hasOwnProperty_false. rewrite hasOwnProperty_app, Hown.
          cbn [negb orb]. now apply fresh_key. }
        rewrite Hset.
        destruct (String.eqb_spec k "hasOwnProperty") as [->|Hmethod].
        -- destruct todo as [|[k' x'] todo].
           ++ cbn. split; reflexivity.
           ++ cbn [keys map fst]. rewrite copyRemaining_broken.
              ** split; reflexivity.
              ** cbn [own inherits]. rewrite !hasOwnProperty_app.
                 unfold hasOwnProperty at 3. cbn [getProp].
                 now rewrite !orb_true_r.
        -- apply String.eqb_neq in Hmethod.
           rewrite breaksEarly_skip
             by (unfold isBreaker; cbn [fst snd]; now rewrite Hmethod, Hproto).
           specialize (IH (kept ++ [(k, x)])%list Hlater).
           rewrite <- Hsplit in IH. specialize (IH Hnd).
           rewrite <- !app_assoc in IH. cbn [app] in IH.
           rewrite !app_assoc in IH. rewrite !app_assoc. apply IH.
           rewrite <- app_assoc, hasOwnProperty_app.
           rewrite <- hasOwnProperty_app.
           rewrite !hasOwnProperty_app in *.
           apply orb_false_iff in Hcallable.
           destruct Hcallable as [-> ->]. cbn [orb].
           unfold hasOwnProperty. cbn [getProp]. now rewrite Hmethod.
    + (* a property set first *)
      cbn [bind ret Monad_Completion Monad_either].
      assert (Hkept : isKept (k, x) = false)
        by (unfold isKept; now rewrite Hremaining).
      cbn [filter]. rewrite Hkept.
      destruct (known_not_special (k, x) Hremaining) as [Hmethod Hproto].
      cbn [fst] in Hmethod, Hproto.
      rewrite breaksEarly_skip
        by (unfold isBreaker; cbn [fst snd]; now rewrite Hmethod, Hproto).
      exact IHsame.
Qed.

Lemma index_not_breaker (kv : string * JValue) :
  isName (fst kv) = false -> isBreaker kv = false.
Proof.
  destruct kv as [k x]. cbn [fst]. intros Hk. unfold isBreaker. cbn [fst snd].
  destruct (String.eqb_spec k "hasOwnProperty") as [->|_]; [discriminate|].
  destruct (String.eqb_spec k "__proto__") as [->|_]; [discriminate|].
  reflexivity.
Qed.

Lemma breaksEarly_indices (front back : JsObject) :
  forallb (fun kv : string * JValue => negb (isName (fst kv))) front = true ->
  breaksEarly (front ++ back)%list = breaksEarly back.
Proof.
  induction front as [|kv front IH]; intros Hall; [reflexivity|].
  cbn [forallb] in Hall. apply andb_true_iff in Hall.
  destruct Hall as [Hkv Hfront]. apply negb_true_iff in Hkv.
  cbn [app]. rewrite (breaksEarly_skip _ _ (index_not_breaker kv Hkv)).
  now apply IH.
Qed.

Lemma forallb_filter {A : Type} (p : A -> bool) (l : list A) :
  forallb p (filter p l) = true.
Proof.
  induction l as [|x l IH]; [reflexivity|]. cbn [filter].
  destruct (p x) eqn:Hx; [|exact IH]. cbn [forallb]. now rewrite Hx.
Qed.

(** ** What [createSignalWithSuggestedMetric] returns *)

(** For a node whose value is not [null] and has its own properties
    listed once each, in the order of own keys: the call throws when a
    property after which [hasOwnProperty] is no function comes before
    the last, and otherwise returns the JSON of the array indices, the
    properties set first and the names that are kept. *)
Lemma createSignal_spec (signal : Signal) (node : jsonc.Node) (m : string) :
  jsonc.getNodeValue node <> JNull ->
  NoDup (keys (entries (jsonc.getNodeValue node))) ->
  ownOrder (keys (entries (jsonc.getNodeValue node))) = true ->
  createSignalWithSuggestedMetric signal node m =
  if breaksEarly (entries (jsonc.getNodeValue node))
  then throw notAFunction
  else ret (JSON.stringify
              (JObject (rewritten (entries (jsonc.getNodeValue node)) m))).
Proof.
  intros Hv Hnd Hord. unfold createSignalWithSuggestedMetric. cbv zeta.
  set (v := jsonc.getNodeValue node) in *. set (es := entries v) in *.
  rewrite (copyIfDefined_spec _ v _ Hv).
  cbn [bind ret Monad_Completion Monad_either].
  rewrite (copyIfDefined_spec _ v _ Hv).
  cbn [bind ret Monad_Completion Monad_either].
  rewrite (copyIfDefined_spec _ v _ Hv).
  cbn [bind ret Monad_Completion Monad_either].
  rewrite (copyIfDefined_spec _ v _ Hv).
  cbn [bind ret Monad_Completion Monad_either].
  fold es.
  match goal with
  | |- context [assign ?o "suggestedMetric" ?x] =>
      replace (assign o "suggestedMetric" x)
        with {| own := headProperties es m; inherits := true |}
  end.
  2:{ unfold headProperties, knownFirst, present. cbn [flat_map].
      destruct (getProp "id" es), (getProp "path" es),
        (getProp "fmt" es), (getProp "name" es); reflexivity. }
  rewrite (objectKeys_entries v Hv). fold es.
  cbn [bind ret Monad_Completion Monad_either].
  pose proof (ownOrder_split es Hord) as Hsplit.
  set (indices := indexPart es) in *. set (names := namePart es) in *.
  set (head := headProperties es m).
  assert (Hkeys : keys es = (keys indices ++ keys names)%list).
  { rewrite Hsplit at 1. unfold keys. now rewrite map_app. }
  assert (Hin : forall k x, In (k, x) es -> getProp k es = Some x)
    by (apply getProp_own; assumption).
  assert (Hindices : forallb (fun kv : string * JValue =>
                                negb (isName (fst kv))) indices = true)
    by apply forallb_filter.
  assert (Hmethod : hasOwnProperty head "hasOwnProperty" = false).
  { unfold hasOwnProperty, head. now rewrite getProp_head. }
  rewrite Hkeys, copyRemaining_app.
  rewrite Hkeys in Hnd, Hord.
  pose proof (copy_indices v head Hv (head_names es m) (head_starts es m)
                Hmethod indices []) as Hfirst.
  cbn [app] in Hfirst. rewrite Hfirst; clear Hfirst.
  - cbn [bind ret Monad_Completion Monad_either].
    pose proof (copy_names v (indices ++ head)%list Hv names []) as Hnext.
    rewrite app_nil_r in Hnext. cbn [app] in Hnext.
    assert (Hbreaks : breaksEarly es = breaksEarly names).
    { rewrite Hsplit. now apply breaksEarly_indices. }
    rewrite Hbreaks.
    assert (Hread : forall k x, In (k, x) names ->
               getProp k (entries v) = Some x
               /\ arrayIndex k = None
               /\ hasOwnProperty (indices ++ head)%list k =
                    negb (isRemaining (k, x))).
    { intros k x Hk. unfold names, namePart in Hk.
      apply filter_In in Hk. destruct Hk as [Hk Hname].
      cbn [fst] in Hname. split; [now apply Hin|].
      split; [now apply isName_arrayIndex|].
      rewrite hasOwnProperty_app.
      rewrite (indices_lack_name indices k Hindices Hname). cbn [orb].
      unfold head. rewrite hasOwnProperty_head
        by (rewrite (Hin k x Hk); discriminate).
      unfold isRemaining. cbn [fst]. now rewrite negb_involutive. }
    specialize (Hnext Hread (NoDup_app_remove_l _ _ Hnd)).
    assert (Hcallable : hasOwnProperty (indices ++ head)%list
                          "hasOwnProperty" = false).
    { rewrite hasOwnProperty_app, Hmethod.
      now rewrite (indices_lack_name indices "hasOwnProperty" Hindices
                     eq_refl). }
    specialize (Hnext Hcallable).
    destruct (copyRemaining v (keys names) _) as [e|final].
    + destruct Hnext as [-> Hb]. now rewrite Hb.
    + destruct Hnext as [Hb Hown]. rewrite Hb.
      cbn [bind ret Monad_Completion Monad_either].
      rewrite Hown. unfold rewritten. fold indices names head.
      now rewrite <- app_assoc.
  - intros k x Hk. apply Hin. unfold indices, indexPart in Hk.
    now apply filter_In in Hk.
  - now apply NoDup_app_remove_r in Hnd.
  - now apply ownOrder_app_l in Hord.
  - exact Hindices.
Qed.

(** On a node whose value is [null] the call throws. *)
Lemma createSignal_null (signal : Signal) (node : jsonc.Node) (m : string) :
  jsonc.getNodeValue node = JNull ->
  exists e, createSignalWithSuggestedMetric signal node m = throw e.
Proof.
  intros Hv. unfold createSignalWithSuggestedMetric. rewrite Hv.
  eexists. reflexivity.
Qed.

End CanonicalFacts.

(* ===================================================================== *)
(** * The printed object is well formed *)
(* ===================================================================== *)

Module RewrittenFacts.
Import BinNat.
Import suggestedMetricPatterns SuggestedMetricSuggestionRule SuggestionSpec.
Import ObjectFacts JsonText JsonFacts CanonicalFacts.
Local Open Scope string_scope.

(** ** Well-formed objects *)

Lemma existsb_eqb_In (k : string) (seen : list string) :
  existsb (String.eqb k) seen = false <-> ~ In k seen.
Proof.
  induction seen as [|x seen IH]; cbn [existsb In]; [tauto|].
  destruct (String.eqb_spec k x) as [->|Hne]; cbn [orb].
  - split; [discriminate|]. intros H. exfalso. apply H. now left.
  - rewrite IH. split; [intros H [E|I]; [now apply Hne|exact (H I)]|tauto].
Qed.

Lemma uniqueKeys_NoDup (ks seen : list string) :
  JSON.uniqueKeys seen ks = true <->
  NoDup ks /\ forall k, In k ks -> ~ In k seen.
Proof.
  revert seen. induction ks as [|k ks IH]; intros seen; cbn [JSON.uniqueKeys].
  - split; [intros _; split; [constructor|intros k []]|reflexivity].
  - rewrite andb_true_iff, negb_true_iff, existsb_eqb_In, IH. split.
    + intros [Hk [Hnd Hseen]]. split.
      * constructor; [|assumption]. intros Hin.
        apply (Hseen k Hin). now left.
      * intros k' [<-|Hin]; [assumption|].
        intros Hin'. apply (Hseen k' Hin). now right.
    + intros [Hnd Hseen]. inversion Hnd as [|? ? Hnotin Hnd']; subst.
      split; [apply Hseen; now left|]. split; [assumption|].
      intros k' Hin [<-|Hin']; [contradiction|].
      apply (Hseen k'); [now right|assumption].
Qed.

Lemma uniqueKeys_iff (ks : list string) :
  JSON.uniqueKeys [] ks = true <-> NoDup ks.
Proof.
  rewrite uniqueKeys_NoDup. split; [now intros [H _]|].
  intros H. split; [assumption|intros k _ []].
Qed.

Lemma wellFormedObject_iff (o : JsObject) :
  JSON.wellFormed (JObject o) = true <-> goodObject o.
Proof.
  unfold goodObject. cbn [JSON.wellFormed].
  rewrite !andb_true_iff, uniqueKeys_iff, forallb_forall, Forall_forall.
  unfold keys. split.
  - intros [[Hnd Hord] Hall]. repeat split; try assumption.
    intros [k x] Hin. exact (Hall (k, x) Hin).
  - intros [Hnd [Hord Hall]]. repeat split; try assumption.
    intros [k x] Hin. exact (Hall (k, x) Hin).
Qed.

Lemma indexed_values (items : list JValue) (from : nat) :
  Forall (fun x => JSON.wellFormed x = true) items ->
  Forall (fun kv : string * JValue => JSON.wellFormed (snd kv) = true)
         (indexed from items).
Proof.
  intros Hall. revert from.
  induction Hall as [|x items Hx Hitems IH]; intros from; cbn [indexed];
    constructor; [exact Hx|apply IH].
Qed.

Lemma characters_values (s : string) :
  Forall (fun x => JSON.wellFormed x = true) (characters s).
Proof.
  induction s as [|c s IH]; cbn [characters]; constructor;
    [reflexivity|exact IH].
Qed.

(** The own properties of a well-formed value that lists them in order
    are a well-formed object. *)
Lemma goodObject_entries (v : JValue) :
  JSON.wellFormed v = true -> listed v = true -> goodObject (entries v).
Proof.
  intros Hwf Hlisted. unfold listed in Hlisted.
  apply andb_true_iff in Hlisted. destruct Hlisted as [Hunique Hord].
  apply uniqueKeys_iff in Hunique.
  split; [assumption|]. split; [assumption|].
  destruct v as [|b|text|s|elements|properties]; cbn [entries];
    try constructor.
  - apply indexed_values, characters_values.
  - apply indexed_values. cbn [JSON.wellFormed] in Hwf.
    rewrite forallb_forall in Hwf. now apply Forall_forall.
  - apply wellFormedObject_iff in Hwf. apply Hwf.
Qed.

(** An object of the tree lists its own properties. *)
Lemma listed_object (o : JsObject) :
  JSON.wellFormed (JObject o) = true -> listed (JObject o) = true.
Proof.
  intros Hwf. apply wellFormedObject_iff in Hwf.
  destruct Hwf as (Hnd & Hord & _). unfold listed. cbn [entries].
  rewrite Hord, andb_true_r. now apply uniqueKeys_iff.
Qed.

Lemma getProp_value (key : string) (v : JValue) (o : JsObject) :
  getProp key o = Some v -> In (key, v) o.
Proof.
  induction o as [|[k x] o IH]; cbn [getProp]; [discriminate|].
  destruct (String.eqb_spec k key) as [->|_].
  - intros E. inversion E; subst. now left.
  - intros H. right. now apply IH.
Qed.

(** ** Reading a property of the printed object *)

Lemma getProp_filter_key (p : string -> bool) (o : JsObject) (k : string) :
  getProp k (filter (fun kv => p (fst kv)) o) =
  if p k then getProp k o else None.
Proof.
  induction o as [|[k0 v0] o IH]; cbn [filter getProp fst].
  - now destruct (p k).
  - destruct (p k0) eqn:Hk0; cbn [getProp];
      destruct (String.eqb_spec k0 k) as [->|Hne]; try exact IH.
    + now rewrite Hk0.
    + now rewrite Hk0 in *.
Qed.

Lemma filter_filter_and {A : Type} (p q : A -> bool) (l : list A) :
  filter p (filter q l) = filter (fun x => q x && p x) l.
Proof.
  induction l as [|x l IH]; [reflexivity|]. cbn [filter].
  destruct (q x); cbn [andb filter]; [|exact IH].
  destruct (p x); now rewrite IH.
Qed.

(** In the printed object suggestedMetric is the suggested value, there
    is no [__proto__], and every other name has the value it has in the
    signal. *)
Lemma getProp_rewritten (signalObj : JsObject) (m k : string) :
  getProp k (rewritten signalObj m) =
  if String.eqb k "suggestedMetric" then Some (JString m)
  else if String.eqb k "__proto__" then None
  else getProp k signalObj.
Proof.
  unfold rewritten, indexPart, namePart.
  rewrite filter_filter_and, !getProp_app, getProp_head.
  rewrite (getProp_filter_key (fun key => negb (isName key))).
  change (filter (fun x : string * JValue => isName (fst x) && isKept x)
                 signalObj)
    with (filter (fun kv : string * JValue =>
                    (fun key =>
                       isName key
                       && (negb (existsb (String.eqb key)
                                   (knownFirst ++ ["suggestedMetric"])%list)
                           && negb (String.eqb key "__proto__")))
                      (fst kv)) signalObj).
  rewrite getProp_filter_key, existsb_app. cbn [existsb].
  rewrite orb_false_r.
  destruct (isName k) eqn:Hname; cbn [negb andb].
  - destruct (String.eqb k "suggestedMetric"); [reflexivity|].
    rewrite orb_false_r.
    destruct (existsb (String.eqb k) knownFirst) eqn:Hknown; cbn [negb andb].
    + destruct (String.eqb_spec k "__proto__") as [->|_]; [discriminate|].
      now destruct (getProp k signalObj).
    + now destruct (String.eqb k "__proto__").
  - destruct (String.eqb_spec k "suggestedMetric") as [->|_];
      [discriminate|].
    destruct (String.eqb_spec k "__proto__") as [->|_]; [discriminate|].
    destruct (getProp k signalObj); [reflexivity|].
    destruct (existsb (String.eqb k) knownFirst) eqn:Hknown;
      [|reflexivity].
    exfalso. unfold knownFirst in Hknown. cbn [existsb] in Hknown.
    rewrite !orb_true_iff in Hknown.
    destruct Hknown as [H|[H|[H|[H|H]]]]; try discriminate;
      apply String.eqb_eq in H; subst k; discriminate.
Qed.

(** ** The order and the names of the printed object *)

Lemma keys_filter_In (p : string * JValue -> bool) (o : JsObject)
    (k : string) :
  In k (keys (filter p o)) -> exists x, In (k, x) o /\ p (k, x) = true.
Proof.
  unfold keys. intros Hin. apply in_map_iff in Hin.
  destruct Hin as [[k' x] [E Hin]]. cbn [fst] in E. subst k'.
  apply filter_In in Hin. now exists x.
Qed.

Lemma NoDup_keys_filter (p : string * JValue -> bool) (o : JsObject) :
  NoDup (keys o) -> NoDup (keys (filter p o)).
Proof.
  induction o as [|[k x] o IH]; intros Hnd; [constructor|].
  cbn [keys map fst] in Hnd. inversion Hnd as [|? ? Hnotin Hnd']; subst.
  cbn [filter]. destruct (p (k, x)); [|now apply IH].
  cbn [keys map fst]. constructor; [|now apply IH].
  intros Hin. apply keys_filter_In in Hin. destruct Hin as [x' [Hin _]].
  apply Hnotin. unfold keys. change k with (fst (k, x')).
  now apply in_map.
Qed.

Lemma head_keys (signalObj : JsObject) (m k : string) :
  In k (keys (headProperties signalObj m)) ->
  existsb (String.eqb k) (knownFirst ++ ["suggestedMetric"])%list = true.
Proof.
  intros Hin.
  destruct (getProp k (headProperties signalObj m)) as [x|] eqn:Hk.
  - rewrite getProp_head in Hk. rewrite existsb_app. cbn [existsb].
    destruct (String.eqb k "suggestedMetric"); [now rewrite !orb_true_r|].
    destruct (existsb (String.eqb k) knownFirst); [reflexivity|discriminate].
  - now apply getProp_In in Hk.
Qed.

Lemma NoDup_head (signalObj : JsObject) (m : string) :
  NoDup (keys (headProperties signalObj m)).
Proof.
  unfold headProperties, knownFirst, present. cbn [flat_map].
  destruct (getProp "id" signalObj), (getProp "path" signalObj),
    (getProp "fmt" signalObj), (getProp "name" signalObj);
    cbn [app keys map fst];
    repeat (constructor; [cbn [In]; intuition discriminate|]);
    constructor.
Qed.

Lemma forallb_names_keys (o : JsObject) :
  forallb (fun kv : string * JValue => isName (fst kv)) o =
  forallb isName (keys o).
Proof.
  induction o as [|[k x] o IH]; [reflexivity|].
  cbn [forallb keys map fst]. now rewrite IH.
Qed.

Lemma ownOrder_indices_names (indices names : list string) :
  ownOrder indices = true ->
  forallb (fun k => negb (isName k)) indices = true ->
  forallb isName names = true ->
  ownOrder (indices ++ names) = true.
Proof.
  intros Hord Hindices Hnames.
  induction indices as [|k indices IH]; [now apply ownOrder_names|].
  cbn [forallb] in Hindices. apply andb_true_iff in Hindices.
  destruct Hindices as [Hk Hrest]. apply negb_true_iff in Hk.
  cbn [app ownOrder] in *. unfold isName in Hk.
  destruct (arrayIndex k) as [i|]; [|discriminate].
  apply andb_true_iff in Hord. destruct Hord as [Hnext Hord].
  rewrite (IH Hord Hrest), andb_true_r.
  destruct indices as [|k' indices]; [|exact Hnext].
  cbn [app]. destruct names as [|n names]; [reflexivity|].
  cbn [forallb] in Hnames. apply andb_true_iff in Hnames.
  destruct Hnames as [Hn _]. apply isName_arrayIndex in Hn.
  now rewrite Hn.
Qed.

(** The printed object is well formed when the own properties of the
    node's value are. *)
Lemma goodObject_rewritten (signalObj : JsObject) (m : string) :
  goodObject signalObj -> goodObject (rewritten signalObj m).
Proof.
  intros (Hnd & Hord & Hvalues).
  pose proof (ownOrder_split signalObj Hord) as Hsplit.
  assert (Hindices : forallb (fun kv : string * JValue =>
                                negb (isName (fst kv)))
                             (indexPart signalObj) = true)
    by apply forallb_filter.
  assert (Hnames : forallb (fun kv : string * JValue => isName (fst kv))
                           (filter isKept (namePart signalObj)) = true).
  { apply forallb_forall. intros kv Hkv. apply filter_In in Hkv.
    destruct Hkv as [Hkv _]. unfold namePart in Hkv.
    now apply filter_In in Hkv. }
  unfold rewritten. split; [|split].
  - unfold keys. rewrite !map_app. fold (keys (indexPart signalObj)).
    fold (keys (headProperties signalObj m)).
    fold (keys (filter isKept (namePart signalObj))).
    apply NoDup_app.
    + now apply NoDup_keys_filter.
    + apply NoDup_app.
      * apply NoDup_head.
      * apply NoDup_keys_filter. now apply NoDup_keys_filter.
      * intros k Hhead Hkept. apply head_keys in Hhead.
        apply keys_filter_In in Hkept. destruct Hkept as [x [_ Hkept]].
        unfold isKept, isRemaining in Hkept. cbn [fst] in Hkept.
        rewrite Hhead in Hkept. discriminate.
    + intros k Hindex Hrest.
      apply keys_filter_In in Hindex. destruct Hindex as [x [_ Hindex]].
      cbn [fst] in Hindex. apply negb_true_iff in Hindex.
      apply in_app_or in Hrest. destruct Hrest as [Hhead|Hkept].
      * pose proof (head_names signalObj m) as Hall.
        rewrite forallb_names_keys, forallb_forall in Hall.
        specialize (Hall k Hhead). congruence.
      * rewrite forallb_names_keys, forallb_forall in Hnames.
        specialize (Hnames k Hkept). congruence.
  - unfold keys. rewrite !map_app. fold (keys (indexPart signalObj)).
    fold (keys (headProperties signalObj m)).
    fold (keys (filter isKept (namePart signalObj))).
    apply ownOrder_indices_names.
    + assert (Hks : keys signalObj =
                    (keys (indexPart signalObj)
                     ++ keys (namePart signalObj))%list).
      { rewrite Hsplit at 1. unfold keys. apply map_app. }
      rewrite Hks in Hord. now apply ownOrder_app_l in Hord.
    + clear -Hindices. induction (indexPart signalObj) as [|[k x] o IH];
        [reflexivity|].
      cbn [forallb fst keys map] in *. apply andb_true_iff in Hindices.
      destruct Hindices as [-> Hrest]. now apply IH.
    + rewrite forallb_app, <- !forallb_names_keys.
      now rewrite head_names, Hnames.
  - rewrite Forall_forall in Hvalues. apply Forall_forall.
    intros [k x] Hin. cbn [snd].
    apply in_app_or in Hin. destruct Hin as [Hin|Hin].
    { apply filter_In in Hin. exact (Hvalues (k, x) (proj1 Hin)). }
    apply in_app_or in Hin. destruct Hin as [Hin|Hin].
    { unfold headProperties in Hin. apply in_app_or in Hin.
      destruct Hin as [Hin|[E|[]]].
      - apply in_flat_map in Hin. destruct Hin as [key [_ Hin]].
        unfold present in Hin.
        destruct (getProp key signalObj) as [y|] eqn:Hkey; [|destruct Hin].
        destruct Hin as [E|[]]. inversion E; subst.
        exact (Hvalues (k, x) (getProp_value _ _ _ Hkey)).
      - inversion E; subst. reflexivity. }
    apply filter_In in Hin. destruct Hin as [Hin _].
    apply filter_In in Hin. exact (Hvalues (k, x) (proj1 Hin)).
Qed.

End RewrittenFacts.

(* ===================================================================== *)
(** * Properties of the suggested-metric rule *)
(* ===================================================================== *)

Module SuggestionFacts.
Import suggestedMetricPatterns SuggestedMetricSuggestionRule SuggestionSpec.
Import ObjectFacts JsonText JsonFacts CanonicalFacts RewrittenFacts.
Local Open Scope string_scope.

Lemma testOptional_spec (re : option RegExp) (x : option JValue)
    (subject : string) :
  toString x = ret subject ->
  testOptional re x = ret (matchesOpt re subject).
Proof.
  intros Hx. unfold testOptional, matchesOpt.
  destruct re as [re|]; [|reflexivity]. now rewrite Hx.
Qed.

(** The loop returns what the first pattern that wins gives. *)
Lemma validateSignal_for_find (patterns : list MetricPattern)
    (signal : Signal) (node : jsonc.Node) (signalId signalName : option JValue)
    (id name : string) :
  toString signalId = ret id ->
  toString signalName = ret name ->
  validateSignal_for patterns signal node signalId signalName =
  match find (fun pattern => wins pattern id name) patterns with
  | Some pattern => suggestionOf pattern signal node
  | None => ret None
  end.
Proof.
  intros Hid Hname.
  induction patterns as [|pattern rest IH]; [reflexivity|].
  cbn [validateSignal_for find].
  rewrite (testOptional_spec _ _ _ Hid), !(testOptional_spec _ _ _ Hname).
  cbn [bind ret Monad_Completion Monad_either].
  fold (wins pattern id name).
  destruct (wins pattern id name); [|exact IH].
  unfold suggestionOf.
  now destruct (createSignalWithSuggestedMetric signal node _).
Qed.

Lemma find_app_none {A : Type} (p : A -> bool) (pre post : list A) :
  (forall x, In x pre -> p x = false) ->
  find p (pre ++ post) = find p post.
Proof.
  intros Hpre. induction pre as [|x pre IH]; simpl; [reflexivity|].
  rewrite (Hpre x (or_introl eq_refl)). apply IH.
  intros y Hy. apply Hpre. now right.
Qed.

Lemma find_skip {A : Type} (p : A -> bool) (pre : list A) (x : A)
    (post : list A) :
  p x = false -> find p (pre ++ x :: post) = find p (pre ++ post).
Proof.
  intros Hx. induction pre as [|y pre IH]; simpl.
  - now rewrite Hx.
  - destruct (p y); [reflexivity|exact IH].
Qed.

Lemma validateSignal_ready (metricPatterns : list MetricPattern)
    (signal : Signal) (node : jsonc.Node) (id name : string) :
  ready signal id name ->
  validateSignal metricPatterns signal node =
  match find (fun pattern => wins pattern id name) metricPatterns with
  | Some pattern => suggestionOf pattern signal node
  | None => ret None
  end.
Proof.
  intros (Hsignal & Hmetric & Hid & Hname & Hidtext & Hnametext).
  unfold validateSignal. rewrite !(member_entries signal _ Hsignal).
  cbn [bind ret Monad_Completion Monad_either].
  rewrite Hmetric, Hid, Hname. cbn [negb orb].
  now apply validateSignal_for_find.
Qed.

(** What a returned text reads back as. *)
Lemma createSignal_returns (signal : Signal) (node : jsonc.Node)
    (m text : string) :
  JSON.wellFormed (jsonc.getNodeValue node) = true ->
  listed (jsonc.getNodeValue node) = true ->
  createSignalWithSuggestedMetric signal node m = ret text ->
  jsonc.getNodeValue node <> JNull
  /\ breaksEarly (entries (jsonc.getNodeValue node)) = false
  /\ text =
       JSON.stringify
         (JObject (rewritten (entries (jsonc.getNodeValue node)) m))
  /\ JSON.wellFormed
       (JObject (rewritten (entries (jsonc.getNodeValue node)) m)) = true.
Proof.
  intros Hwf Hlisted Htext.
  assert (Hv : jsonc.getNodeValue node <> JNull).
  { intros Hnull. destruct (createSignal_null signal node m Hnull) as [e He].
    rewrite He in Htext. discriminate. }
  destruct (goodObject_entries _ Hwf Hlisted) as (Hnd & Hord & Hvalues).
  rewrite (createSignal_spec signal node m Hv Hnd Hord) in Htext.
  destruct (breaksEarly _); [discriminate|].
  inversion Htext; subst.
  repeat split; try assumption.
  apply wellFormedObject_iff, goodObject_rewritten.
  repeat split; assumption.
Qed.

Lemma parseAt_stringify (v : JValue) :
  JSON.wellFormed v = true -> JSON.parseAt (JSON.stringify v) 0 = Some v.
Proof.
  intros Hwf. unfold JSON.parseAt.
  replace (JSON.drop 0 (JSON.stringify v)) with (JSON.stringify v ++ "")
    by (rewrite append_nil_r; now destruct (JSON.stringify v)).
  rewrite parseValue_stringify; [reflexivity|assumption| |now destruct v].
  apply size_le_length. assumption.
Qed.



(** The signals ENGINE_RPM, Engine RPM that carry the suggestedMetric
    values [""], [0], [false] and [null] get a suggestion all the same;
    and on the signal [null], which has no id, the rule throws. *)
Lemma empty_suggestedMetric_not_skipped :
  getProp "suggestedMetric" (entries Samples.signalEmptyMetric) =
    Some (JString "")
  /\ (exists result,
        validateSignal [Samples.rpmById] Samples.signalEmptyMetric
          Samples.nodeEmptyMetric = ret (Some result))
  /\ (forall v,
        In v [JString ""; JNumber "0"; JBool false; JNull] ->
        exists result,
          validateSignal [Samples.rpmById] (Samples.signalWithValue v)
            Samples.nodeEngineRpm = ret (Some result))
  /\ (exists e,
        validateSignal [Samples.rpmById] JNull Samples.nodeEngineRpm =
        throw e).
Proof.
  split; [reflexivity|]. split; [eexists; reflexivity|]. split.
  - intros v [<-|[<-|[<-|[<-|[]]]]]; eexists; reflexivity.
  - eexists. reflexivity.
Qed.

(** C4, as the code has it.  [validateSignal] returns null, whatever the
    pattern table holds, on every signal other than [null] whose
    suggestedMetric is truthy (any value but the empty string, [0],
    [false] and [null]), or whose id is absent or falsy, or whose name is
    absent or falsy. *)
Theorem skipped_without_preconditions (metricPatterns : list MetricPattern)
    (signal : Signal) (node : jsonc.Node) :
  signal <> JNull ->
  truthyValue (getProp "suggestedMetric" (entries signal)) = true
  \/ truthyValue (getProp "id" (entries signal)) = false
  \/ truthyValue (getProp "name" (entries signal)) = false ->
  validateSignal metricPatterns signal node = ret None.
Proof.
  intros Hsignal Hcase. unfold validateSignal.
  rewrite !(member_entries signal _ Hsignal).
  cbn [bind ret Monad_Completion Monad_either].
  destruct (truthyValue (getProp "suggestedMetric" (entries signal)));
    [reflexivity|].
  destruct Hcase as [Hm|[Hid|Hname]]; [discriminate| |].
  - now rewrite Hid.
  - rewrite Hname. now rewrite orb_true_r.
Qed.

End SuggestionFacts.

(* ===================================================================== *)
(** * The edit of the suggested-metric rule *)
(* ===================================================================== *)

Module RewriteFacts.
Import suggestedMetricPatterns SuggestedMetricSuggestionRule SuggestionSpec.
Import ObjectFacts JsonText JsonFacts CanonicalFacts RewrittenFacts.
Local Open Scope string_scope.

(** ** What a returned result is *)

Lemma validateSignal_for_some (patterns : list MetricPattern)
    (signal : Signal) (node : jsonc.Node) (signalId signalName : option JValue)
    (result : LintResult) :
  validateSignal_for patterns signal node signalId signalName =
    ret (Some result) ->
  exists pattern newText,
    In pattern patterns
    /\ createSignalWithSuggestedMetric signal node (suggestedMetric pattern) =
         ret newText
    /\ result = resultWith pattern node newText.
Proof.
  induction patterns as [|pattern rest IH]; cbn [validateSignal_for];
    [discriminate|].
  destruct (testOptional (idPattern pattern) signalId) as [e|idMatches];
    [discriminate|].
  destruct (testOptional (namePattern pattern) signalName) as [e|nameMatches];
    [discriminate|].
  destruct (testOptional (excludeNamePattern pattern) signalName)
    as [e|excludedByName]; [discriminate|].
  cbn [bind ret Monad_Completion Monad_either].
  destruct ((idMatches || nameMatches) && negb excludedByName).
  - destruct (createSignalWithSuggestedMetric signal node
                (suggestedMetric pattern)) as [e|newText] eqn:Htext;
      [discriminate|].
    clear IH. intros E. exists pattern, newText.
    split; [now left|]. split; [exact Htext|]. now inversion E.
  - intros H. destruct (IH H) as (p & text & Hin & Htext & Hp).
    exists p, text. split; [now right|]. split; assumption.
Qed.

Lemma validateSignal_some (metricPatterns : list MetricPattern)
    (signal : Signal) (node : jsonc.Node) (result : LintResult) :
  validateSignal metricPatterns signal node = ret (Some result) ->
  exists pattern newText,
    In pattern metricPatterns
    /\ createSignalWithSuggestedMetric signal node (suggestedMetric pattern) =
         ret newText
    /\ result = resultWith pattern node newText.
Proof.
  unfold validateSignal.
  destruct (member signal "suggestedMetric") as [e|metric]; [discriminate|].
  cbn [bind ret Monad_Completion Monad_either].
  destruct (truthyValue metric); [discriminate|].
  destruct (member signal "id") as [e|signalId]; [discriminate|].
  destruct (member signal "name") as [e|signalName]; [discriminate|].
  cbn [bind ret Monad_Completion Monad_either].
  destruct (negb (truthyValue signalId) || negb (truthyValue signalName));
    [discriminate|].
  apply validateSignal_for_some.
Qed.

(** ** The order of the code and the canonical order *)

Lemma ordinaryNames_breaksEarly (signalObj : JsObject) :
  ordinaryNames signalObj = true -> breaksEarly signalObj = false.
Proof.
  induction signalObj as [|kv rest IH]; [reflexivity|].
  unfold ordinaryNames. cbn [forallb]. intros H.
  apply andb_true_iff in H. destruct H as [Hkv Hrest].
  apply andb_true_iff in Hkv. destruct Hkv as [Hproto Hhas].
  apply negb_true_iff in Hproto, Hhas.
  cbn [breaksEarly]. destruct rest as [|next rest]; [reflexivity|].
  unfold isBreaker at 1. rewrite Hproto, Hhas. cbn [orb andb].
  now apply IH.
Qed.

Lemma ordinaryNames_kept (signalObj : JsObject) :
  ordinaryNames signalObj = true ->
  filter isKept (namePart signalObj) = filter isRemaining (namePart signalObj).
Proof.
  intros Hnames. apply filter_ext_in. intros kv Hkv.
  unfold namePart in Hkv. apply filter_In in Hkv. destruct Hkv as [Hkv _].
  unfold ordinaryNames in Hnames. rewrite forallb_forall in Hnames.
  specialize (Hnames kv Hkv). apply andb_true_iff in Hnames.
  destruct Hnames as [Hproto _]. unfold isKept. rewrite Hproto.
  apply andb_true_r.
Qed.

Lemma present_names (signalObj : JsObject) :
  flat_map (present (namePart signalObj)) knownFirst =
  flat_map (present signalObj) knownFirst.
Proof.
  unfold knownFirst, present, namePart. cbn [flat_map].
  now rewrite !(getProp_filter_key isName).
Qed.

(** Without the two special names, the order of the code is the array
    indices, then the canonical order of the other properties. *)
Lemma rewritten_ordinary (signalObj : JsObject) (m : string) :
  ordinaryNames signalObj = true ->
  rewritten signalObj m =
  (indexPart signalObj ++ canonical (namePart signalObj) m)%list.
Proof.
  intros Hnames. unfold rewritten, canonical, headProperties.
  rewrite (ordinaryNames_kept _ Hnames), present_names.
  now rewrite <- !app_assoc.
Qed.

Lemma plainNames_parts (signalObj : JsObject) :
  plainNames signalObj = true ->
  indexPart signalObj = [] /\ namePart signalObj = signalObj.
Proof.
  intros Hplain. unfold plainNames in Hplain.
  rewrite forallb_forall in Hplain.
  assert (Hname : forall kv, In kv signalObj -> isName (fst kv) = true).
  { intros kv Hkv. specialize (Hplain kv Hkv).
    apply andb_true_iff in Hplain. destruct Hplain as [Hplain _].
    now apply andb_true_iff in Hplain. }
  unfold indexPart, namePart. clear Hplain.
  induction signalObj as [|kv rest IH]; [split; reflexivity|].
  cbn [filter]. rewrite (Hname kv (or_introl eq_refl)). cbn [negb].
  destruct IH as [IHi IHn]; [intros x Hx; apply Hname; now right|].
  split; [exact IHi|now rewrite IHn].
Qed.

(** ** The text in the edited source *)

Lemma take_length_append (a b : string) :
  JSON.take (String.length a) (a ++ b) = a.
Proof.
  induction a as [|c a IH]; cbn [String.length append JSON.take].
  - now destruct b.
  - now rewrite IH.
Qed.

Lemma drop_length_append (a b : string) :
  JSON.drop (String.length a) (a ++ b) = b.
Proof.
  induction a as [|c a IH]; cbn [String.length append JSON.drop].
  - now destruct b.
  - exact IH.
Qed.

Lemma applyEdit_span (before old after : string) (edit : Edit.Edit) :
  Edit.offset edit = String.length before ->
  Edit.length edit = String.length old ->
  TextEdit.applyEdit (before ++ old ++ after) edit =
  before ++ Edit.newText edit ++ after.
Proof.
  intros Hoffset Hlength. unfold TextEdit.applyEdit.
  rewrite Hoffset, Hlength, take_length_append.
  rewrite <- length_append, <- (append_assoc before old after).
  rewrite drop_length_append.
  reflexivity.
Qed.

Lemma parseSpan_stringify (before after : string) (v : JValue) :
  JSON.wellFormed v = true ->
  JSON.parseSpan (before ++ JSON.stringify v ++ after)
    (String.length before) (String.length (JSON.stringify v)) = Some v.
Proof.
  intros Hwf. unfold JSON.parseSpan.
  rewrite drop_length_append, take_length_append.
  rewrite <- (append_nil_r (JSON.stringify v)) at 2.
  rewrite parseValue_stringify; [reflexivity|assumption| |now destruct v].
  pose proof (size_le_length v Hwf). lia.
Qed.



(** C5.  Let the rule return a result for a signal whose node holds a
    value of the tree and spans the text [old] between [before] and
    [after] in the source, on a table whose suggested metrics are not
    empty.  The result has one edit; applied to the source it gives
    [before], the edit's text and [after], that is, it replaces exactly
    the span of the node.  The value whose text takes the place of the
    node in the edited source is an object that carries a non-empty
    suggestedMetric, and on that object [validateSignal] returns null,
    whatever node it is given with it. *)
Theorem suggestion_idempotent
    (metricPatterns : list MetricPattern) (signal : Signal)
    (node : jsonc.Node) (result : LintResult) (before old after : string)
    (node' : jsonc.Node) :
  Forall (fun pattern => suggestedMetric pattern <> "") metricPatterns ->
  JSON.wellFormed (jsonc.getNodeValue node) = true ->
  listed (jsonc.getNodeValue node) = true ->
  String.length before = jsonc.offset node ->
  String.length old = jsonc.length node ->
  validateSignal metricPatterns signal node = ret (Some result) ->
  exists title edit signal' m,
    suggestion result = Some {| title := title; edits := [edit] |}
    /\ TextEdit.applyEdit (before ++ old ++ after) edit =
         before ++ Edit.newText edit ++ after
    /\ JSON.parseSpan (TextEdit.applyEdit (before ++ old ++ after) edit)
         (jsonc.offset node) (String.length (Edit.newText edit)) =
         Some (JObject signal')
    /\ getProp "suggestedMetric" signal' = Some (JString m) /\ m <> ""
    /\ validateSignal metricPatterns (JObject signal') node' = ret None.
Proof.
  intros Hmetrics Hwf Hlisted Hbefore Hold Hresult.
  destruct (validateSignal_some _ _ _ _ Hresult)
    as (pattern & newText & Hin & Htext & ->).
  rewrite Forall_forall in Hmetrics. specialize (Hmetrics pattern Hin).
  destruct (SuggestionFacts.createSignal_returns _ _ _ _ Hwf Hlisted Htext)
    as (_ & _ & -> & Hgood).
  set (m := suggestedMetric pattern) in *.
  set (signal' := rewritten (entries (jsonc.getNodeValue node)) m) in *.
  eexists. eexists. exists signal', m.
  split; [reflexivity|].
  assert (Hmetric : getProp "suggestedMetric" signal' = Some (JString m))
    by (unfold signal'; now rewrite getProp_rewritten).
  split; [|split; [|split; [assumption|split; [assumption|]]]].
  - apply applyEdit_span; cbn [Edit.offset Edit.length]; congruence.
  - rewrite applyEdit_span; cbn [Edit.offset Edit.length Edit.newText];
      try congruence.
    rewrite <- Hbefore. now apply parseSpan_stringify.
  - unfold validateSignal. cbn [member entries].
    cbn [bind ret Monad_Completion Monad_either]. rewrite Hmetric.
    cbn [truthyValue]. destruct m; [contradiction|reflexivity].
Qed.

End RewriteFacts.

(* ===================================================================== *)
(** * Two runs of the traversal calls *)
(* ===================================================================== *)

Module RunFacts.
Import Stateful.

Lemma enabled_readOn {Store : Type} (store : Store)
    (registry : Stateful.RuleRegistry Store) :
  RuleRegistry.getEnabledRules (registryOn store registry) =
  map (readOn store) (Stateful.getEnabledRules registry).
Proof.
  unfold RuleRegistry.getEnabledRules, Stateful.getEnabledRules, registryOn.
  induction registry as [|registered registry IH]; [reflexivity|].
  cbn [map filter RuleRegistry.isEnabled].
  destruct (Stateful.isEnabled registered); cbn [map RuleRegistry.rule];
    now rewrite IH.
Qed.

Section Loops.

Context {Store : Type}.
Variable readStore : Store.

(** Each loop, on rules that keep the contract, returns what the loop of
    [BaseLinter] returns on the rules read on any one store. *)
Lemma lintSignal_for_reads (enabledRules : list (Stateful.ILinterRule Store))
    (target : Target) (node : jsonc.Node) :
  Forall keepsContract enabledRules ->
  forall results store,
    fst (Stateful.lintSignal_for enabledRules target node results store) =
    BaseLinter.lintSignal_for (map (readOn readStore) enabledRules)
      target node results.
Proof.
  induction 1 as [|r rest Hr Hrest IH]; intros results store;
    [reflexivity|].
  cbn [Stateful.lintSignal_for map BaseLinter.lintSignal_for readOn
       Rule.validateSignal].
  destruct Hr as (Hsignal & _).
  destruct (Stateful.validateSignal r) as [validate|] eqn:Hvalidate;
    cbn [option_map]; [|apply IH].
  specialize (Hsignal validate eq_refl target node store readStore).
  cbn [bind Monad_Step Monad_Completion Monad_either].
  destruct (validate target node store) as [[e|ruleResult] store'].
  - cbn [fst] in Hsignal. now rewrite <- Hsignal.
  - cbn [fst] in Hsignal. rewrite <- Hsignal.
    destruct ruleResult; apply IH.
Qed.

Lemma lintCommand_for_reads (enabledRules : list (Stateful.ILinterRule Store))
    (command : Command) (commandNode : jsonc.Node)
    (signalsInCommand : list SignalInCommand) :
  Forall keepsContract enabledRules ->
  forall results store,
    fst (Stateful.lintCommand_for enabledRules command commandNode
           signalsInCommand results store) =
    BaseLinter.lintCommand_for (map (readOn readStore) enabledRules)
      command commandNode signalsInCommand results.
Proof.
  induction 1 as [|r rest Hr Hrest IH]; intros results store;
    [reflexivity|].
  cbn [Stateful.lintCommand_for map BaseLinter.lintCommand_for readOn
       Rule.validateCommand].
  destruct Hr as (_ & Hcommand & _).
  destruct (Stateful.validateCommand r) as [validate|] eqn:Hvalidate;
    cbn [option_map]; [|apply IH].
  specialize (Hcommand validate eq_refl command commandNode signalsInCommand
                store readStore).
  cbn [bind Monad_Step Monad_Completion Monad_either].
  destruct (validate command commandNode signalsInCommand store)
    as [[e|ruleResult] store'].
  - cbn [fst] in Hcommand. now rewrite <- Hcommand.
  - cbn [fst] in Hcommand. rewrite <- Hcommand.
    destruct ruleResult; apply IH.
Qed.

Lemma lintCommands_for_reads
    (enabledRules : list (Stateful.ILinterRule Store))
    (commandsNode : jsonc.Node) :
  Forall keepsContract enabledRules ->
  forall results store,
    fst (Stateful.lintCommands_for enabledRules commandsNode results store) =
    BaseLinter.lintCommands_for (map (readOn readStore) enabledRules)
      commandsNode results.
Proof.
  induction 1 as [|r rest Hr Hrest IH]; intros results store;
    [reflexivity|].
  cbn [Stateful.lintCommands_for map BaseLinter.lintCommands_for readOn
       Rule.validateCommands].
  destruct Hr as (_ & _ & Hcommands & _).
  destruct (Stateful.validateCommands r) as [validate|] eqn:Hvalidate;
    cbn [option_map]; [|apply IH].
  specialize (Hcommands validate eq_refl commandsNode store readStore).
  cbn [bind Monad_Step Monad_Completion Monad_either].
  destruct (validate commandsNode store) as [[e|ruleResult] store'].
  - cbn [fst] in Hcommands. now rewrite <- Hcommands.
  - cbn [fst] in Hcommands. rewrite <- Hcommands.
    destruct ruleResult; apply IH.
Qed.

Lemma lintDocument_for_reads
    (enabledRules : list (Stateful.ILinterRule Store))
    (rootNode : jsonc.Node) :
  Forall keepsContract enabledRules ->
  forall results store,
    fst (Stateful.lintDocument_for enabledRules rootNode results store) =
    BaseLinter.lintDocument_for (map (readOn readStore) enabledRules)
      rootNode results.
Proof.
  induction 1 as [|r rest Hr Hrest IH]; intros results store;
    [reflexivity|].
  cbn [Stateful.lintDocument_for map BaseLinter.lintDocument_for readOn
       Rule.validateDocument].
  destruct Hr as (_ & _ & _ & Hdocument).
  destruct (Stateful.validateDocument r) as [validate|] eqn:Hvalidate;
    cbn [option_map]; [|apply IH].
  specialize (Hdocument validate eq_refl rootNode store readStore).
  cbn [bind Monad_Step Monad_Completion Monad_either].
  destruct (validate rootNode store) as [[e|ruleResult] store'].
  - cbn [fst] in Hdocument. now rewrite <- Hdocument.
  - cbn [fst] in Hdocument. rewrite <- Hdocument.
    destruct ruleResult; apply IH.
Qed.

End Loops.

(** ** The suggested-metric rule on its regular expressions *)

Import RegExpObject.

Lemma test_without_flags (re : RegExp) (subject : string) (store : Store) :
  keepsNoIndex (Some re) = true ->
  test re subject store =
  (ret (suggestedMetricPatterns.test (plainRegExp re) subject), store).
Proof.
  cbn [keepsNoIndex]. intros Hflags. apply negb_true_iff in Hflags.
  unfold test. rewrite Hflags.
  cbn [plainRegExp suggestedMetricPatterns.test].
  now destruct (matchFrom re 0 subject).
Qed.

Lemma testOptional_without_flags (re : option RegExp) (x : option JValue)
    (store : Store) :
  keepsNoIndex re = true ->
  testOptional re x store =
  (SuggestedMetricSuggestionRule.testOptional (option_map plainRegExp re) x,
   store).
Proof.
  intros Hflags. destruct re as [re|]; [|reflexivity].
  cbn [testOptional SuggestedMetricSuggestionRule.testOptional option_map].
  unfold lift. cbn [bind Monad_Step Monad_Completion Monad_either].
  destruct (toString x) as [e|subject]; [reflexivity|].
  now rewrite test_without_flags.
Qed.

Lemma validateSignal_for_without_flags (patterns : list MetricPattern)
    (signal : Signal) (node : jsonc.Node) (signalId signalName : option JValue)
    (store : Store) :
  withoutFlags patterns = true ->
  validateSignal_for patterns signal node signalId signalName store =
  (SuggestedMetricSuggestionRule.validateSignal_for
     (map plainPattern patterns) signal node signalId signalName,
   store).
Proof.
  induction patterns as [|pattern rest IH]; intros Hflags; [reflexivity|].
  cbn [withoutFlags forallb] in Hflags.
  apply andb_true_iff in Hflags. destruct Hflags as [Hpattern Hrest].
  apply andb_true_iff in Hpattern. destruct Hpattern as [Hpattern Hexclude].
  apply andb_true_iff in Hpattern. destruct Hpattern as [Hid Hname].
  cbn [validateSignal_for map
       SuggestedMetricSuggestionRule.validateSignal_for plainPattern
       suggestedMetricPatterns.idPattern suggestedMetricPatterns.namePattern
       suggestedMetricPatterns.excludeNamePattern
       suggestedMetricPatterns.suggestedMetric
       suggestedMetricPatterns.description].
  cbn [bind Monad_Step].
  rewrite (testOptional_without_flags _ _ _ Hid).
  destruct (SuggestedMetricSuggestionRule.testOptional _ signalId)
    as [e|idMatches]; [reflexivity|].
  rewrite (testOptional_without_flags _ _ _ Hname).
  destruct (SuggestedMetricSuggestionRule.testOptional
              (option_map plainRegExp (namePattern pattern)) signalName)
    as [e|nameMatches]; [reflexivity|].
  rewrite (testOptional_without_flags _ _ _ Hexclude).
  destruct (SuggestedMetricSuggestionRule.testOptional
              (option_map plainRegExp (excludeNamePattern pattern))
              signalName)
    as [e|excludedByName]; [reflexivity|].
  cbn [bind ret Monad_Completion Monad_either].
  destruct ((idMatches || nameMatches) && negb excludedByName);
    [|now apply IH].
  unfold lift.
  now destruct (SuggestedMetricSuggestionRule.createSignalWithSuggestedMetric
                  signal node (suggestedMetric pattern)).
Qed.

Lemma validateSignal_without_flags (metricPatterns : list MetricPattern)
    (signal : Signal) (node : jsonc.Node) (store : Store) :
  withoutFlags metricPatterns = true ->
  validateSignal metricPatterns signal node store =
  (SuggestedMetricSuggestionRule.validateSignal
     (map plainPattern metricPatterns) signal node,
   store).
Proof.
  intros Hflags.
  unfold validateSignal, SuggestedMetricSuggestionRule.validateSignal, lift.
  cbn [bind Monad_Step].
  destruct (member signal "suggestedMetric") as [e|metric]; [reflexivity|].
  cbn [bind ret Monad_Step Monad_Completion Monad_either].
  destruct (truthyValue metric); [reflexivity|].
  destruct (member signal "id") as [e|signalId]; [reflexivity|].
  destruct (member signal "name") as [e|signalName]; [reflexivity|].
  cbn [bind ret Monad_Completion Monad_either].
  destruct (negb (truthyValue signalId) || negb (truthyValue signalName));
    [reflexivity|].
  now apply validateSignal_for_without_flags.
Qed.

Lemma asRule_keepsContract (metricPatterns : list MetricPattern) :
  withoutFlags metricPatterns = true ->
  keepsContract (asRule metricPatterns).
Proof.
  intros Hflags. unfold keepsContract.
  cbn [asRule Stateful.validateSignal Stateful.validateCommand
       Stateful.validateCommands Stateful.validateDocument].
  split; [|repeat split; discriminate].
  intros validate E target node first second. inversion E; subst.
  cbn [bind Monad_Step].
  rewrite !(validateSignal_without_flags _ _ _ _ Hflags).
  now destruct (SuggestedMetricSuggestionRule.validateSignal
                  (map plainPattern metricPatterns) target node).
Qed.



End RunFacts.

(* ===================================================================== *)
(** * Properties of the grouping of results *)
(* ===================================================================== *)

Module GroupingFacts.
Import JsonText.
Local Open Scope string_scope.

Lemma sameValue_refl (v : JValue) : cli.sameValue v v = true.
Proof.
  induction v as [|b|text|s|elements IH|properties IH]
    using JValue_induction; cbn [cli.sameValue].
  - reflexivity.
  - now destruct b.
  - apply String.eqb_refl.
  - apply String.eqb_refl.
  - induction IH as [|x l Hx Hl IHl]; [reflexivity|].
    now rewrite Hx, IHl.
  - induction IH as [|[k x] l Hx Hl IHl]; [reflexivity|].
    cbn [snd] in Hx. now rewrite String.eqb_refl, Hx, IHl.
Qed.

Lemma sameEdits_refl (es : list Edit.Edit) : cli.sameEdits es es = true.
Proof.
  induction es as [|e es IH]; [reflexivity|].
  cbn [cli.sameEdits]. unfold cli.sameEdit.
  now rewrite String.eqb_refl, !Nat.eqb_refl, IH.
Qed.

Lemma sameResult_refl (r : LintResult) : cli.sameResult r r = true.
Proof.
  unfold cli.sameResult, cli.sameNode, cli.sameSuggestion.
  rewrite !String.eqb_refl, !Nat.eqb_refl, sameValue_refl.
  destruct (suggestion r) as [s|]; [|reflexivity].
  now rewrite String.eqb_refl, sameEdits_refl.
Qed.

Lemma sameResult_reads (r x : LintResult) :
  cli.sameResult r x = true ->
  cli.isError x = cli.isError r /\ cli.isWarning x = cli.isWarning r.
Proof.
  unfold cli.sameResult. rewrite !andb_true_iff.
  intros [[[Hid Hmsg] _] _].
  apply String.eqb_eq in Hid. apply String.eqb_eq in Hmsg.
  unfold cli.isError, cli.isWarning. now rewrite Hid, Hmsg.
Qed.

(** A result is included in the filtered array exactly when it is in the
    array and passes the filter's test, for a test that reads only the
    rule id and the message. *)
Lemma includes_filter (p : LintResult -> bool) (all : list LintResult)
    (r : LintResult) :
  (forall x, cli.sameResult r x = true -> p x = p r) ->
  In r all ->
  cli.includesResult (filter p all) r = p r.
Proof.
  intros Hp Hin. unfold cli.includesResult.
  destruct (p r) eqn:Hr.
  - apply existsb_exists. exists r. split; [|apply sameResult_refl].
    apply filter_In. now split.
  - destruct (existsb (cli.sameResult r) (filter p all)) eqn:E;
      [|reflexivity].
    apply existsb_exists in E. destruct E as [x [Hx Hsame]].
    apply filter_In in Hx. destruct Hx as [_ Hx].
    rewrite (Hp x Hsame) in Hx. congruence.
Qed.

(** The three groups cover the results, and the third group is what is in
    neither of the first two. *)
Lemma grouping_covers (allResults : list LintResult) (r : LintResult) :
  In r allResults ->
  (In r (cli.info allResults) <->
   ~ In r (cli.errors allResults) /\ ~ In r (cli.warnings allResults))
  /\ (In r (cli.errors allResults) \/ In r (cli.warnings allResults)
      \/ In r (cli.info allResults)).
Proof.
  intros Hin.
  assert (He : cli.includesResult (cli.errors allResults) r = cli.isError r).
  { apply includes_filter; [|assumption].
    intros x Hx. apply (sameResult_reads r x Hx). }
  assert (Hw : cli.includesResult (cli.warnings allResults) r =
               cli.isWarning r).
  { apply includes_filter; [|assumption].
    intros x Hx. apply (sameResult_reads r x Hx). }
  unfold cli.info, cli.errors, cli.warnings in *.
  rewrite !filter_In, He, Hw.
  destruct (cli.isError r), (cli.isWarning r); cbn; intuition congruence.
Qed.

(** The first two groups share every result that passes both tests. *)
Lemma grouping_overlap (allResults : list LintResult) (r : LintResult) :
  In r allResults -> cli.isError r = true -> cli.isWarning r = true ->
  In r (cli.errors allResults) /\ In r (cli.warnings allResults).
Proof.
  intros Hin He Hw. unfold cli.errors, cli.warnings.
  rewrite !filter_In. tauto.
Qed.

(** C9.  On the results [[r]], where the message of [r] holds both
    [error] and [warning], the grouping of the [lint] sub-command puts [r]
    in the errors and in the warnings, and nothing in the info group: the
    groups are not pairwise disjoint. *)
Theorem grouping_not_disjoint :
  cli.errors [Samples.resultBoth] = [Samples.resultBoth]
  /\ cli.warnings [Samples.resultBoth] = [Samples.resultBoth]
  /\ cli.info [Samples.resultBoth] = [].
Proof. repeat split; reflexivity. Qed.

End GroupingFacts.


(* ===================================================================== *)
(** * The theorems at sample inputs *)
(* ===================================================================== *)

Module Instances.
Import suggestedMetricPatterns SuggestedMetricSuggestionRule SuggestionSpec.
Import Samples.
Local Open Scope string_scope.

Lemma ready_signalEngineRpm :
  ready signalEngineRpm "ENGINE_RPM" "Engine RPM".
Proof. repeat split. discriminate. Qed.


Lemma keys_signalX1 :
  NoDup (keys [("id", JString "X1"); ("name", JString "Engine RPM");
               ("unit", JString "rpm")]).
Proof. apply RewrittenFacts.uniqueKeys_iff. reflexivity. Qed.


Lemma skipped_without_preconditions_witness :
  signalWithMetric <> JNull
  /\ truthyValue (getProp "suggestedMetric" (entries signalWithMetric)) = true
  /\ validateSignal [rpmById] signalWithMetric nodeEngineRpm = ret None.
Proof.
  assert (Hsignal : signalWithMetric <> JNull) by discriminate.
  split; [exact Hsignal|]. split; [reflexivity|].
  apply (SuggestionFacts.skipped_without_preconditions [rpmById]
           signalWithMetric nodeEngineRpm Hsignal).
  left. reflexivity.
Defined.

Lemma metrics_rpmByName :
  Forall (fun pattern => suggestedMetric pattern <> "") [rpmByName].
Proof. constructor; [discriminate|constructor]. Qed.

(** The signal of [sourceEngineRpm], between the text before it and the
    text after it. *)
Lemma suggestion_idempotent_witness :
  let before :=
    "{ " ++ quoted "commands" ++ ": [ { " ++ quoted "signals" ++ ": [ " in
  let old := JSON.stringify signalEngineRpm in
  let after := " ] } ] }" in
  before ++ old ++ after = sourceEngineRpm
  /\ String.length before = jsonc.offset nodeEngineRpm
  /\ String.length old = jsonc.length nodeEngineRpm
  /\ validateSignal [rpmByName] signalEngineRpm nodeEngineRpm =
       ret (Some (resultWith rpmByName nodeEngineRpm
                    (JSON.stringify signalWithMetric)))
  /\ exists title edit signal' m,
       suggestion (resultWith rpmByName nodeEngineRpm
                     (JSON.stringify signalWithMetric)) =
         Some {| title := title; edits := [edit] |}
       /\ TextEdit.applyEdit (before ++ old ++ after) edit =
            before ++ Edit.newText edit ++ after
       /\ JSON.parseSpan (TextEdit.applyEdit (before ++ old ++ after) edit)
            (jsonc.offset nodeEngineRpm)
            (String.length (Edit.newText edit)) = Some (JObject signal')
       /\ getProp "suggestedMetric" signal' = Some (JString m) /\ m <> ""
       /\ validateSignal [rpmByName] (JObject signal') nodeEngineRpm =
            ret None.
Proof.
  intros before old after.
  split; [reflexivity|]. split; [reflexivity|]. split; [reflexivity|].
  split; [reflexivity|].
  exact (RewriteFacts.suggestion_idempotent [rpmByName] signalEngineRpm
           nodeEngineRpm
           (resultWith rpmByName nodeEngineRpm
              (JSON.stringify signalWithMetric))
           before old after nodeEngineRpm metrics_rpmByName eq_refl eq_refl
           eq_refl eq_refl eq_refl).
Defined.

Lemma contract_rpmPlain :
  Forall Stateful.keepsContract
    (Stateful.getEnabledRules
       [ Stateful.mkRegistered
           (RegExpObject.asRule [RegExpObject.rpmPlain]) true ]).
Proof.
  constructor; [|constructor].
  now apply RunFacts.asRule_keepsContract.
Qed.


(** With the rule registered the result is converted; with an empty
    registry the conversion throws. *)
Lemma toDiagnostics_unknown_rule_throws_witness :
  let result :=
    resultWith rpmByName nodeEngineRpm (JSON.stringify signalWithMetric) in
  let document :=
    {| vscode.getText := sourceEngineRpm;
       vscode.positionAt := fun offset => vscode.mkPosition 0 offset |} in
  let registered :=
    {| SignalLinter.ruleRegistry :=
         [ {| rule := asRule [rpmByName]; isEnabled := false |} ];
       SignalLinter.lastResults := [] |} in
  let empty :=
    {| SignalLinter.ruleRegistry := [];
       SignalLinter.lastResults := [] |} in
  (exists diagnostics,
      snd (SignalLinter.toDiagnostics registered document [result]) =
      ret diagnostics
      /\ List.length diagnostics = 1)
  /\ (exists unknown,
        In unknown [result]
        /\ getRuleById [] (ruleId unknown) = None
        /\ snd (SignalLinter.toDiagnostics empty document [result]) =
             throw ("Rule not found: " ++ ruleId unknown)).
Proof.
  intros result document registered empty. split.
  - apply (proj2 (SignalLinterFacts.toDiagnostics_unknown_rule_throws
                    registered document [result])).
    intros r [<-|[]]. discriminate.
  - apply (proj1 (SignalLinterFacts.toDiagnostics_unknown_rule_throws
                    empty document [result])).
    exists result. split; [now left|reflexivity].
Defined.

End Instances.

(* ===================================================================== *)
(** * Properties of the command line *)
(* ===================================================================== *)

Module ArgsFacts.
Import process cliMain ArgsSpec.
Local Open Scope string_scope.
Local Open Scope list_scope.

Lemma truthy_Some (arg : string) : truthy (Some arg) = nonEmpty arg.
Proof. reflexivity. Qed.

(** The loop of [parseArgs] from any state it can be in. *)
Lemma parseArgs_for_spec (command : string) (args : list string) :
  forall workspacePath commandId commit json,
    parseArgs_for command args workspacePath commandId commit json =
    {| command := command;
       workspacePath := keep workspacePath (positional args);
       commandId :=
         if String.eqb command "command-support"
         then keep commandId (leftAfter workspacePath (positional args))
         else commandId;
       commit := commit || existsb (String.eqb "--commit") args;
       json := json || existsb (String.eqb "--json") args |}.
Proof.
  induction args as [|arg rest IH]; intros workspacePath commandId commit json.
  - cbn [parseArgs_for positional filter existsb]. unfold keep, leftAfter.
    cbn [firstKept find]. rewrite !orb_false_r.
    destruct (truthy workspacePath), (truthy commandId),
      (String.eqb command "command-support"); reflexivity.
  - cbn [parseArgs_for existsb]. unfold positional. cbn [filter].
    fold (positional rest). unfold isFlag.
    rewrite (String.eqb_sym "--commit" arg), (String.eqb_sym "--json" arg).
    destruct (String.eqb_spec arg "--commit") as [->|Hcommit].
    { rewrite IH. change ("--commit" =? "--json") with false.
      cbn [orb negb]. now rewrite orb_true_r. }
    destruct (String.eqb_spec arg "--json") as [->|Hjson].
    { rewrite IH. cbn [orb negb]. now rewrite orb_true_r. }
    cbn [orb negb].
    destruct (truthy workspacePath) eqn:Hws; cbn [negb].
    + destruct (truthy commandId) eqn:Hid; cbn [negb andb].
      * rewrite IH. unfold keep, leftAfter. now rewrite Hws, Hid.
      * destruct (String.eqb command "command-support") eqn:Hcs.
        -- rewrite IH. unfold keep, leftAfter. rewrite Hws, Hid.
           rewrite truthy_Some. unfold firstKept. cbn [find].
           destruct (nonEmpty arg) eqn:Harg; [reflexivity|].
           destruct (find nonEmpty (positional rest)); [reflexivity|].
           unfold nonEmpty in Harg. apply negb_false_iff in Harg.
           apply String.eqb_eq in Harg. subst arg.
           now destruct (positional rest).
        -- rewrite IH. unfold keep. now rewrite Hws.
    + rewrite IH. unfold keep, leftAfter. rewrite Hws, truthy_Some.
      unfold firstKept. cbn [find afterFirstKept].
      destruct (nonEmpty arg) eqn:Harg.
      * reflexivity.
      * unfold nonEmpty in Harg. apply negb_false_iff in Harg.
        apply String.eqb_eq in Harg. subst arg.
        destruct (find nonEmpty (positional rest)) eqn:Hfind;
          [reflexivity|].
        now destruct (positional rest).
Qed.

Lemma logAll_spec (lines : list string) (console : Console) :
  logAll lines console =
  (Returned tt, console ++ map (pair stdout) lines).
Proof.
  revert console. induction lines as [|line rest IH]; intros console.
  - cbn. now rewrite app_nil_r.
  - cbn [logAll map]. cbn [bind Monad_Process]. unfold console_log.
    rewrite IH. now rewrite <- app_assoc.
Qed.

Lemma fail_spec (message : string) (console : Console) :
  fail message console =
  (Exited 1, console ++ (stderr, message) :: map (pair stdout) usage).
Proof.
  unfold fail, printUsage. cbn [bind Monad_Process]. unfold console_error.
  rewrite logAll_spec. unfold exit. now rewrite <- app_assoc.
Qed.

Lemma parseArgs_spec (command : string) (rest : list string)
    (console : Console) :
  parseArgs (command :: rest) console =
  (Returned
     {| command := command;
        workspacePath := firstKept (positional rest);
        commandId :=
          if String.eqb command "command-support"
          then firstKept (afterFirstKept (positional rest))
          else None;
        commit := existsb (String.eqb "--commit") rest;
        json := existsb (String.eqb "--json") rest |},
   console).
Proof.
  cbn [parseArgs]. rewrite parseArgs_for_spec. cbn [ret Monad_Process].
  unfold keep, leftAfter. cbn [truthy orb].
  destruct (firstKept (positional rest)),
    (firstKept (afterFirstKept (positional rest))); reflexivity.
Qed.

Lemma ifMissing_firstKept {A : Type} (candidates : list string) (no : A)
    (yes : string -> A) :
  ifMissing (firstKept candidates) no yes =
  match find nonEmpty candidates with
  | Some arg => yes arg
  | None => no
  end.
Proof.
  unfold firstKept, ifMissing.
  destruct (find nonEmpty candidates) as [arg|] eqn:Hfind.
  - apply find_some in Hfind. destruct Hfind as [_ Harg].
    unfold nonEmpty in Harg. apply negb_true_iff in Harg. now rewrite Harg.
  - now destruct candidates.
Qed.

(** X1.  Without arguments [parseArgs] prints the ten lines of the usage
    on the standard output and ends the process with exit code 1; with at
    least one argument it returns, prints nothing, and the command is the
    first argument. *)
Theorem parseArgs_exits_without_arguments (console : Console) :
  parseArgs [] console = (Exited 1, console ++ map (pair stdout) usage)
  /\ forall first rest, exists options,
       parseArgs (first :: rest) console = (Returned options, console)
       /\ command options = first.
Proof.
  split.
  - cbn [parseArgs]. unfold printUsage. cbn [bind Monad_Process].
    now rewrite logAll_spec.
  - intros first rest. eexists. rewrite parseArgs_spec.
    split; reflexivity.
Qed.

(** X2.  The two flags are read wherever they stand after the command:
    [commit] is set exactly when [--commit] is among the arguments after
    the command, [json] exactly when [--json] is, and a flag is never taken
    for the workspace path or the command id. *)
Theorem parseArgs_flags_anywhere (first : string) (rest : list string)
    (console : Console) :
  exists options,
    parseArgs (first :: rest) console = (Returned options, console)
    /\ (commit options = true <-> In "--commit" rest)
    /\ (json options = true <-> In "--json" rest)
    /\ workspacePath options <> Some "--commit"
    /\ workspacePath options <> Some "--json"
    /\ commandId options <> Some "--commit"
    /\ commandId options <> Some "--json".
Proof.
  eexists. rewrite parseArgs_spec. split; [reflexivity|].
  cbn [commit json workspacePath commandId].
  assert (Hin : forall flag, existsb (String.eqb flag) rest = true <->
                             In flag rest).
  { intros flag. rewrite existsb_exists. split.
    - intros [x [Hx E]]. apply String.eqb_eq in E. now subst.
    - intros H. exists flag. split; [assumption|apply String.eqb_refl]. }
  assert (Hkept : forall candidates arg,
             firstKept candidates = Some arg ->
             arg = "" \/ In arg candidates).
  { intros candidates arg. unfold firstKept.
    destruct (find nonEmpty candidates) as [a|] eqn:Hfind.
    - intros E. inversion E; subst. right.
      now apply find_some in Hfind.
    - destruct candidates; [discriminate|]. intros E. inversion E. now left. }
  assert (Hafter : forall candidates arg,
             In arg (afterFirstKept candidates) -> In arg candidates).
  { induction candidates as [|c cs IHc]; intros arg; cbn [afterFirstKept];
      [tauto|].
    destruct (nonEmpty c); intros H; right; [assumption|now apply IHc]. }
  assert (Hpos : forall arg, In arg (positional rest) -> isFlag arg = false).
  { intros arg H. unfold positional in H. apply filter_In in H.
    destruct H as [_ H]. now apply negb_true_iff in H. }
  assert (Hws : forall flag, isFlag flag = true -> flag <> "" ->
                             firstKept (positional rest) <> Some flag).
  { intros flag Hflag Hne E. destruct (Hkept _ _ E) as [->|H];
      [now apply Hne|]. rewrite (Hpos _ H) in Hflag. discriminate. }
  assert (Hid : forall flag, isFlag flag = true -> flag <> "" ->
                  (if String.eqb first "command-support"
                   then firstKept (afterFirstKept (positional rest))
                   else None) <> Some flag).
  { intros flag Hflag Hne.
    destruct (String.eqb first "command-support"); [|discriminate].
    intros E. destruct (Hkept _ _ E) as [->|H]; [now apply Hne|].
    apply Hafter in H. rewrite (Hpos _ H) in Hflag. discriminate. }
  repeat split; try apply Hin; try (apply Hws; [reflexivity|discriminate]);
    apply Hid; [reflexivity|discriminate | reflexivity|discriminate].
Qed.

(** X3.  The workspace path is the first argument after the command that
    is neither a flag nor the empty string; when there is none the
    workspace path is unset or empty. *)
Theorem parseArgs_workspacePath (first : string) (rest : list string)
    (console : Console) :
  exists options,
    parseArgs (first :: rest) console = (Returned options, console)
    /\ match find nonEmpty (positional rest) with
       | Some arg => workspacePath options = Some arg
       | None => truthy (workspacePath options) = false
       end.
Proof.
  eexists. rewrite parseArgs_spec. split; [reflexivity|].
  cbn [workspacePath]. unfold firstKept.
  destruct (find nonEmpty (positional rest)); [reflexivity|].
  now destruct (positional rest).
Qed.

(** X4.  A command id is read only for the command [command-support]: for
    every other command it stays unset whatever the arguments, and for
    [command-support] it is the first non-empty positional argument after
    the one taken as workspace path. *)
Theorem parseArgs_commandId (first : string) (rest : list string)
    (console : Console) :
  exists options,
    parseArgs (first :: rest) console = (Returned options, console)
    /\ (first <> "command-support" -> commandId options = None)
    /\ (first = "command-support" ->
        match find nonEmpty (afterFirstKept (positional rest)) with
        | Some arg => commandId options = Some arg
        | None => truthy (commandId options) = false
        end).
Proof.
  eexists. rewrite parseArgs_spec. split; [reflexivity|].
  cbn [commandId]. split.
  - intros Hne. apply String.eqb_neq in Hne. now rewrite Hne.
  - intros ->. rewrite String.eqb_refl. unfold firstKept.
    destruct (find nonEmpty (afterFirstKept (positional rest)));
      [reflexivity|].
    now destruct (afterFirstKept (positional rest)).
Qed.

Section MainFacts.

Variable lintCommand : string -> bool -> Process unit.
Variable optimizeCommand : string -> bool -> Process unit.
Variable commandSupportCommand : string -> string -> Process unit.

(** X5.  [main] runs [lint] and [optimize] on the first non-empty
    positional argument as workspace path, [lint] with the [--json] flag
    and [optimize] with the [--commit] flag; without such an argument it
    writes the error line, prints the usage and exits with code 1, and the
    sub-command is not run. *)
Theorem main_lint_optimize (rest : list string) (console : Console) :
  main lintCommand optimizeCommand commandSupportCommand ("lint" :: rest)
    console =
    match find nonEmpty (positional rest) with
    | Some path =>
        lintCommand path (existsb (String.eqb "--json") rest) console
    | None =>
        (Exited 1,
         console
         ++ (stderr, "Error: workspace-path is required for lint command")
            :: map (pair stdout) usage)
    end
  /\ main lintCommand optimizeCommand commandSupportCommand
       ("optimize" :: rest) console =
       match find nonEmpty (positional rest) with
       | Some path =>
           optimizeCommand path (existsb (String.eqb "--commit") rest)
             console
       | None =>
           (Exited 1,
            console
            ++ (stderr,
                "Error: workspace-path is required for optimize command")
               :: map (pair stdout) usage)
       end.
Proof.
  unfold main. split.
  - cbn [bind Monad_Process]. rewrite parseArgs_spec.
    cbn [command workspacePath json String.eqb Ascii.eqb Bool.eqb].
    rewrite ifMissing_firstKept.
    destruct (find nonEmpty (positional rest)); [reflexivity|].
    apply fail_spec.
  - cbn [bind Monad_Process]. rewrite parseArgs_spec.
    cbn [command workspacePath commit String.eqb Ascii.eqb Bool.eqb].
    rewrite ifMissing_firstKept.
    destruct (find nonEmpty (positional rest)); [reflexivity|].
    apply fail_spec.
Qed.

(** X6.  [main] runs [command-support] only with both a workspace path and
    a command id, the first two non-empty positional arguments; when the
    path is missing, or the id is, it writes the matching error line,
    prints the usage and exits with code 1. *)
Theorem main_command_support (rest : list string) (console : Console) :
  main lintCommand optimizeCommand commandSupportCommand
    ("command-support" :: rest) console =
  match find nonEmpty (positional rest) with
  | Some path =>
      match find nonEmpty (afterFirstKept (positional rest)) with
      | Some id => commandSupportCommand path id console
      | None =>
          (Exited 1,
           console
           ++ (stderr, "Error: command-id is required for command-support")
              :: map (pair stdout) usage)
      end
  | None =>
      (Exited 1,
       console
       ++ (stderr, "Error: workspace-path is required for command-support")
          :: map (pair stdout) usage)
  end.
Proof.
  unfold main. cbn [bind Monad_Process]. rewrite parseArgs_spec.
  cbn [command workspacePath commandId String.eqb Ascii.eqb Bool.eqb].
  rewrite ifMissing_firstKept.
  destruct (find nonEmpty (positional rest)); [|apply fail_spec].
  rewrite ifMissing_firstKept.
  destruct (find nonEmpty (afterFirstKept (positional rest)));
    [reflexivity|apply fail_spec].
Qed.

(** X7.  For a first argument that is none of [lint], [optimize] and
    [command-support], [main] runs no sub-command: it writes
    [Error: Unknown command '<first>'] on the error stream, prints the
    usage and exits with code 1, whatever the other arguments are. *)
Theorem main_unknown_command (first : string) (rest : list string)
    (console : Console) :
  first <> "lint" -> first <> "optimize" -> first <> "command-support" ->
  main lintCommand optimizeCommand commandSupportCommand (first :: rest)
    console =
  (Exited 1,
   console
   ++ (stderr, ("Error: Unknown command '" ++ first ++ "'")%string)
      :: map (pair stdout) usage).
Proof.
  intros Hlint Hoptimize Hsupport.
  unfold main. cbn [bind Monad_Process]. rewrite parseArgs_spec.
  cbn [command].
  apply String.eqb_neq in Hlint, Hoptimize, Hsupport.
  rewrite Hlint, Hoptimize, Hsupport. apply fail_spec.
Qed.

End MainFacts.

End ArgsFacts.

(* ===================================================================== *)
(** * Properties of the [lint] pass *)
(* ===================================================================== *)

Module PassFacts.
Import EngineSpec cliLint PassSpec.

Section Tree.

Variable children : jsonc.Node -> option (list jsonc.Node).
Variable findNodeAtLocation :
  jsonc.Node -> list string -> option jsonc.Node.

Lemma lintSignals_for_spec linter signalNodes allResults :
  lintSignals_for linter signalNodes allResults =
  appended allResults
    (parts <- sequence (map (ofSignal linter) signalNodes) ;;
     ret (concat parts)).
Proof.
  revert allResults.
  induction signalNodes as [|signalNode rest IH]; intros allResults.
  - cbn. now rewrite app_nil_r.
  - cbn [lintSignals_for map sequence]. unfold ofSignal at 1.
    destruct (CliSignalLinter.lintSignal linter (jsonc.getNodeValue signalNode)
                signalNode) as [e|signalResults]; [reflexivity|].
    cbn [bind ret Monad_Completion Monad_either]. rewrite IH.
    unfold appended, push.
    destruct (sequence (map (ofSignal linter) rest)) as [e|parts];
      [reflexivity|].
    cbn. now rewrite app_assoc.
Qed.

Lemma lintEachCommand_for_spec linter commandNodes allResults :
  lintEachCommand_for children findNodeAtLocation linter commandNodes
    allResults =
  appended allResults
    (parts <- sequence
                (map (ofCommand children findNodeAtLocation linter)
                     commandNodes) ;;
     ret (concat parts)).
Proof.
  revert allResults.
  induction commandNodes as [|commandNode rest IH]; intros allResults.
  - cbn. now rewrite app_nil_r.
  - cbn [lintEachCommand_for map sequence]. unfold ofCommand at 1.
    unfold signalNodesOf.
    destruct (CliSignalLinter.lintCommand linter (jsonc.getNodeValue commandNode)
                commandNode _) as [e|commandResults]; [reflexivity|].
    cbn [bind ret Monad_Completion Monad_either].
    destruct (childrenOf children
                (findNodeAtLocation commandNode ["signals"]))
      as [signalNodes|].
    + rewrite lintSignals_for_spec. unfold appended, push.
      destruct (sequence (map (ofSignal linter) signalNodes))
        as [e|signalResults]; [reflexivity|].
      cbn [bind ret Monad_Completion Monad_either]. rewrite IH.
      unfold appended.
      destruct (sequence _) as [e|parts]; [reflexivity|].
      cbn. now rewrite <- !app_assoc.
    + cbn [bind ret Monad_Completion Monad_either map sequence concat].
      rewrite IH. unfold appended, push.
      destruct (sequence _) as [e|parts]; [reflexivity|].
      cbn. now rewrite app_nil_r, <- !app_assoc.
Qed.

(** The pass, call by call. *)
Lemma collectResults_spec (linter : CliSignalLinter.CliSignalLinter)
    (rootNode : jsonc.Node) :
  collectResults children findNodeAtLocation linter rootNode =
  inOrder children findNodeAtLocation linter rootNode.
Proof.
  unfold collectResults, inOrder, commandsOf, childrenOf.
  destruct (CliSignalLinter.lintDocument linter rootNode)
    as [e|documentResults]; [reflexivity|].
  cbn [bind ret Monad_Completion Monad_either].
  destruct (findNodeAtLocation rootNode ["commands"]) as [commandsNode|];
    [|reflexivity].
  destruct (children commandsNode) as [commandNodes|]; [|reflexivity].
  destruct (CliSignalLinter.lintCommands linter commandsNode)
    as [e|commandsResults]; [reflexivity|].
  cbn [bind ret Monad_Completion Monad_either].
  rewrite lintEachCommand_for_spec. unfold appended, push.
  destruct (sequence _) as [e|parts]; [reflexivity|].
  cbn. now rewrite <- app_assoc.
Qed.

(** X8.  The pass of the [lint] sub-command collects, in this order, the
    document-level results, the commands-level results, and then for each
    command node in document order the results of the command followed by
    those of each of its signals in order; the commands-level and later
    calls are made only when the root has a [commands] node with children.
    The first call that throws ends the pass with its error, and nothing
    collected before is returned. *)
Theorem collectResults_in_order (linter : CliSignalLinter.CliSignalLinter)
    (rootNode : jsonc.Node) :
  collectResults children findNodeAtLocation linter rootNode =
  inOrder children findNodeAtLocation linter rootNode.
Proof. apply collectResults_spec. Qed.

(** X9.  When the root has no [commands] node, or that node has no
    [children] array, the pass returns exactly the outcome of the
    document-level call: no commands-level, command or signal rule is
    called.  When the [commands] node has a [children] array that is
    empty, the commands-level call is still made, after the
    document-level call, and the pass returns the results of the two, no
    command or signal rule being called. *)
Theorem collectResults_without_commands
    (linter : CliSignalLinter.CliSignalLinter) (rootNode : jsonc.Node) :
  ((findNodeAtLocation rootNode ["commands"] = None
    \/ exists commandsNode,
         findNodeAtLocation rootNode ["commands"] = Some commandsNode
         /\ children commandsNode = None) ->
   collectResults children findNodeAtLocation linter rootNode =
   CliSignalLinter.lintDocument linter rootNode)
  /\ (forall commandsNode,
        findNodeAtLocation rootNode ["commands"] = Some commandsNode ->
        children commandsNode = Some [] ->
        collectResults children findNodeAtLocation linter rootNode =
        (documentResults <- CliSignalLinter.lintDocument linter rootNode ;;
         commandResults <- CliSignalLinter.lintCommands linter commandsNode ;;
         ret (documentResults ++ commandResults))).
Proof.
  assert (Hdoc : forall c : Completion (list LintResult),
             (documentResults <- c ;; ret (push [] documentResults)) = c).
  { intros [e|rs]; reflexivity. }
  unfold collectResults, childrenOf. split.
  - intros [Hnone|[commandsNode [Hsome Hchildren]]].
    + rewrite Hnone. apply Hdoc.
    + rewrite Hsome, Hchildren. apply Hdoc.
  - intros commandsNode Hsome Hchildren. rewrite Hsome, Hchildren.
    destruct (CliSignalLinter.lintDocument linter rootNode)
      as [e|documentResults]; [reflexivity|].
    cbn [bind ret Monad_Completion Monad_either].
    destruct (CliSignalLinter.lintCommands linter commandsNode)
      as [e|commandResults]; reflexivity.
Qed.

Lemma lint_without_rules (linter : CliSignalLinter.CliSignalLinter) :
  getEnabledRules (CliSignalLinter.ruleRegistry linter) = [] ->
  (forall target node, CliSignalLinter.lintSignal linter target node = ret [])
  /\ (forall command node signals,
        CliSignalLinter.lintCommand linter command node signals = ret [])
  /\ (forall node, CliSignalLinter.lintCommands linter node = ret [])
  /\ (forall node, CliSignalLinter.lintDocument linter node = ret []).
Proof.
  intros Hnone.
  unfold CliSignalLinter.lintSignal, CliSignalLinter.lintCommand,
    CliSignalLinter.lintCommands, CliSignalLinter.lintDocument.
  rewrite Hnone. repeat split.
Qed.

Lemma sequence_all (A : Type) (f : A -> Completion (list LintResult))
    (g : A -> list LintResult) (xs : list A) :
  (forall x, In x xs -> f x = ret (g x)) ->
  sequence (map f xs) = ret (map g xs).
Proof.
  induction xs as [|x xs IH]; intros Hall; [reflexivity|].
  cbn [map sequence]. rewrite (Hall x (or_introl eq_refl)).
  rewrite IH by (intros y Hy; apply Hall; now right). reflexivity.
Qed.

Lemma concat_map_nil (A B : Type) (xs : list A) :
  concat (map (fun _ : A => @nil B) xs) = [].
Proof. induction xs as [|x xs IH]; [reflexivity|exact IH]. Qed.

(** X10.  With no rule enabled the pass returns the empty sequence for
    every tree, without error, and the text report of that sequence is the
    single line that says no issues were found. *)
Theorem collectResults_without_rules
    (linter : CliSignalLinter.CliSignalLinter) (rootNode : jsonc.Node)
    (signalsetPath : string) (console : process.Console) :
  getEnabledRules (CliSignalLinter.ruleRegistry linter) = [] ->
  collectResults children findNodeAtLocation linter rootNode = ret []
  /\ reportText signalsetPath [] console =
       (process.Returned tt, console ++ [(process.stdout, noIssuesLine)]).
Proof.
  intros Hnone. split; [|reflexivity].
  destruct (lint_without_rules linter Hnone)
    as (Hsignal & Hcommand & Hcommands & Hdocument).
  rewrite collectResults_spec. unfold inOrder. rewrite Hdocument.
  cbn [bind ret Monad_Completion Monad_either].
  destruct (commandsOf children findNodeAtLocation rootNode)
    as [[commandsNode commandNodes]|]; [|reflexivity].
  rewrite Hcommands. cbn [bind ret Monad_Completion Monad_either].
  rewrite (sequence_all _ _ (fun _ => [])).
  - cbn [bind ret Monad_Completion Monad_either].
    now rewrite concat_map_nil.
  - intros commandNode _. unfold ofCommand. rewrite Hcommand.
    cbn [bind ret Monad_Completion Monad_either].
    rewrite (sequence_all _ _ (fun _ => [])).
    + cbn [bind ret Monad_Completion Monad_either].
      now rewrite concat_map_nil.
    + intros signalNode _. apply Hsignal.
Qed.

Lemma sequence_ext (A B : Type) (f g : A -> Completion B) (xs : list A) :
  (forall x, In x xs -> f x = g x) ->
  sequence (map f xs) = sequence (map g xs).
Proof.
  induction xs as [|x xs IH]; intros Hall; [reflexivity|].
  cbn [map sequence]. rewrite (Hall x (or_introl eq_refl)).
  rewrite IH by (intros y Hy; apply Hall; now right). reflexivity.
Qed.

(** X11.  With the suggested-metric rule as the only enabled rule, the
    pass calls [validateSignal] on the value of each signal node,
    command by command and signal by signal in document order, and
    returns the results of the calls that gave one, and nothing else;
    the first call that throws, as on a signal that is [null], ends the
    pass with its error. *)
Theorem collectResults_suggestions_only
    (linter : CliSignalLinter.CliSignalLinter)
    (metricPatterns : list suggestedMetricPatterns.MetricPattern)
    (rootNode : jsonc.Node) :
  getEnabledRules (CliSignalLinter.ruleRegistry linter) =
    [SuggestedMetricSuggestionRule.asRule metricPatterns] ->
  collectResults children findNodeAtLocation linter rootNode =
  match commandsOf children findNodeAtLocation rootNode with
  | Some (_, commandNodes) =>
      perCommand <-
        sequence
          (map (fun commandNode =>
                  perSignal <-
                    sequence
                      (map (fun signalNode =>
                              result <-
                                SuggestedMetricSuggestionRule.validateSignal
                                  metricPatterns
                                  (jsonc.getNodeValue signalNode)
                                  signalNode ;;
                              ret (resultList result))
                           (signalNodesOf children findNodeAtLocation
                              commandNode)) ;;
                  ret (concat perSignal))
               commandNodes) ;;
      ret (concat perCommand)
  | None => ret []
  end.
Proof.
  intros Honly.
  assert (Hsignal : forall target node,
             CliSignalLinter.lintSignal linter target node =
             (result <-
                SuggestedMetricSuggestionRule.validateSignal
                  metricPatterns target node ;;
              ret (resultList result))).
  { intros target node. unfold CliSignalLinter.lintSignal.
    rewrite Honly.
    cbn [CliSignalLinter.lintSignal_for SuggestedMetricSuggestionRule.asRule
         Rule.validateSignal].
    destruct (SuggestedMetricSuggestionRule.validateSignal
                metricPatterns target node) as [e|[result|]]; reflexivity. }
  assert (Hcommand : forall command node signals,
             CliSignalLinter.lintCommand linter command node signals =
             ret []).
  { intros. unfold CliSignalLinter.lintCommand. now rewrite Honly. }
  assert (Hcommands : forall node,
             CliSignalLinter.lintCommands linter node = ret []).
  { intros. unfold CliSignalLinter.lintCommands. now rewrite Honly. }
  assert (Hdocument : forall node,
             CliSignalLinter.lintDocument linter node = ret []).
  { intros. unfold CliSignalLinter.lintDocument. now rewrite Honly. }
  rewrite collectResults_spec. unfold inOrder. rewrite Hdocument.
  cbn [bind ret Monad_Completion Monad_either].
  destruct (commandsOf children findNodeAtLocation rootNode)
    as [[commandsNode commandNodes]|]; [|reflexivity].
  rewrite Hcommands. cbn [bind ret Monad_Completion Monad_either app].
  rewrite (sequence_ext _ _ (ofCommand children findNodeAtLocation linter)
             (fun commandNode =>
                perSignal <-
                  sequence
                    (map (fun signalNode =>
                            result <-
                              SuggestedMetricSuggestionRule.validateSignal
                                metricPatterns
                                (jsonc.getNodeValue signalNode)
                                signalNode ;;
                            ret (resultList result))
                         (signalNodesOf children findNodeAtLocation
                            commandNode)) ;;
                ret (concat perSignal))); [reflexivity|].
  intros commandNode _. unfold ofCommand. rewrite Hcommand.
  cbn [bind ret Monad_Completion Monad_either app].
  now rewrite (sequence_ext _ _ (ofSignal linter)
                 (fun signalNode =>
                    result <-
                      SuggestedMetricSuggestionRule.validateSignal
                        metricPatterns (jsonc.getNodeValue signalNode)
                        signalNode ;;
                    ret (resultList result)))
    by (intros signalNode _; apply Hsignal).
Qed.

End Tree.

End PassFacts.

(* ===================================================================== *)
(** * Properties of the grouping and of the text report *)
(* ===================================================================== *)

Module ReportFacts.
Import process cliLint ReportSpec.

Lemma writes_log (line : string) : writes (console_log line) [line].
Proof. intros console. reflexivity. Qed.

Lemma writes_ret : writes (ret tt) [].
Proof. intros console. cbn. now rewrite app_nil_r. Qed.

Lemma writes_then (p q : Process unit) (l1 l2 : list string) :
  writes p l1 -> writes q l2 -> writes (p ;; q) (l1 ++ l2).
Proof.
  intros Hp Hq console. cbn [bind Monad_Process]. rewrite Hp, Hq.
  now rewrite map_app, app_assoc.
Qed.

Lemma writes_when (cond : bool) (p : Process unit) (lines : list string) :
  writes p lines -> writes (when cond p) (if cond then lines else []).
Proof. intros Hp. destruct cond; [exact Hp|exact writes_ret]. Qed.

Lemma writes_logIssues (mark : string) (issues : list LintResult) :
  writes (logIssues mark issues) (map (issueLine mark) issues).
Proof.
  induction issues as [|issue rest IH]; [exact writes_ret|].
  cbn [logIssues map].
  exact (writes_then _ _ [_] _ (writes_log _) IH).
Qed.

Lemma groupLines_when (title mark : string)
    (group shown : list LintResult) (note : list string) :
  groupLines title mark group shown note =
  if Nat.ltb 0 (List.length group)
  then title :: map (issueLine mark) shown ++ note ++ [""]
  else [].
Proof. now destruct group. Qed.

(** The report writes the lines of [reportLines] and returns. *)
Lemma reportText_writes (signalsetPath : string)
    (allResults : list LintResult) :
  writes (reportText signalsetPath allResults)
         (reportLines signalsetPath allResults).
Proof.
  unfold reportText, reportLines.
  destruct allResults as [|r rest]; [exact (writes_log _)|].
  cbn [List.length Nat.eqb].
  set (all := r :: rest).
  repeat (apply (writes_then _ _ [_]); [apply writes_log|]).
  rewrite !groupLines_when.
  apply writes_then.
  { apply writes_when.
    apply (writes_then _ _ [_]); [apply writes_log|].
    rewrite app_nil_l.
    apply writes_then; [apply writes_logIssues|apply writes_log]. }
  apply writes_then.
  { apply writes_when.
    apply (writes_then _ _ [_]); [apply writes_log|].
    rewrite app_nil_l.
    apply writes_then; [apply writes_logIssues|apply writes_log]. }
  apply writes_then; [|apply writes_log].
  apply writes_when.
  apply (writes_then _ _ [_]); [apply writes_log|].
  apply writes_then; [apply writes_logIssues|].
  apply writes_then; [|apply writes_log].
  unfold moreNote. apply writes_when. apply writes_log.
Qed.

Lemma includes_errors (allResults : list LintResult) (r : LintResult) :
  In r allResults ->
  cli.includesResult (cli.errors allResults) r = cli.isError r.
Proof.
  intros Hin. apply GroupingFacts.includes_filter; [|assumption].
  intros x Hx. apply (GroupingFacts.sameResult_reads r x Hx).
Qed.

Lemma includes_warnings (allResults : list LintResult) (r : LintResult) :
  In r allResults ->
  cli.includesResult (cli.warnings allResults) r = cli.isWarning r.
Proof.
  intros Hin. apply GroupingFacts.includes_filter; [|assumption].
  intros x Hx. apply (GroupingFacts.sameResult_reads r x Hx).
Qed.

(** X12.  The info group is made of the results that pass neither the
    error test nor the warning test on their own rule id and message, in
    the order of the collected sequence: looking a result up in the two
    other groups, as the code does, comes to testing the result itself. *)
Theorem info_is_neither (allResults : list LintResult) :
  cli.info allResults =
  filter (fun r => negb (cli.isError r) && negb (cli.isWarning r))
         allResults.
Proof.
  unfold cli.info. apply filter_ext_in. intros r Hin.
  now rewrite includes_errors, includes_warnings.
Qed.

Lemma filter_sizes {A : Type} (p q : A -> bool) (l : list A) :
  List.length (filter p l) + List.length (filter q l)
  + List.length (filter (fun x => negb (p x) && negb (q x)) l) =
  List.length l + List.length (filter (fun x => p x && q x) l).
Proof.
  induction l as [|x l IH]; [reflexivity|].
  cbn [filter List.length].
  destruct (p x), (q x); cbn [negb andb List.length]; lia.
Qed.

(** X13.  The sizes of the three groups add up to the number of collected
    results plus the number of results that pass both the error test and
    the warning test: the group counts of the report exceed its total by
    the results listed twice. *)
Theorem group_sizes (allResults : list LintResult) :
  List.length (cli.errors allResults)
  + List.length (cli.warnings allResults)
  + List.length (cli.info allResults) =
  List.length allResults
  + List.length
      (filter (fun r => cli.isError r && cli.isWarning r) allResults).
Proof.
  assert (Hinfo : cli.info allResults =
                  filter (fun r => negb (cli.isError r)
                                   && negb (cli.isWarning r)) allResults).
  { unfold cli.info. apply filter_ext_in. intros r Hin.
    now rewrite includes_errors, includes_warnings. }
  rewrite Hinfo. unfold cli.errors, cli.warnings. apply filter_sizes.
Qed.

(** X14.  The text report never ends the process.  For no results it is
    the single no-issues line; otherwise its first lines are the path of
    the signalset and the number of results found, and its last line is
    the total, the same number. *)
Theorem reportText_frame (signalsetPath : string)
    (allResults : list LintResult) (console : Console) :
  exists lines,
    reportText signalsetPath allResults console =
      (Returned tt, console ++ map (pair stdout) lines)
    /\ (allResults = [] -> lines = [noIssuesLine])
    /\ (allResults <> [] ->
        exists groups,
          lines =
          headerLine signalsetPath
          :: foundLine (List.length allResults)
          :: EmptyString
          :: groups ++ [totalLine (List.length allResults)]).
Proof.
  exists (reportLines signalsetPath allResults).
  split; [apply (reportText_writes signalsetPath allResults console)|].
  split.
  - intros ->. reflexivity.
  - intros Hne. destruct allResults as [|r rest]; [contradiction|].
    unfold reportLines. eexists. cbn [app]. rewrite !app_assoc.
    reflexivity.
Qed.

Lemma In_groupLines (title mark : string) (group shown : list LintResult)
    (note : list string) (r : LintResult) :
  In r group -> In r shown ->
  In (issueLine mark r) (groupLines title mark group shown note).
Proof.
  intros Hgroup Hshown. destruct group as [|g group]; [destruct Hgroup|].
  cbn [groupLines]. right. apply in_or_app. left. now apply in_map.
Qed.

(** X15.  Every collected result that passes the error test or the warning
    test is listed in the report, and so is every other result when the
    info group has at most ten results; when the info group has more than
    ten, the report has the line that tells how many more there are, its
    size less ten. *)
Theorem reportText_lists_results (signalsetPath : string)
    (allResults : list LintResult) (console : Console) :
  let written := snd (reportText signalsetPath allResults console) in
  (forall r,
      In r allResults ->
      cli.isError r = true \/ cli.isWarning r = true
      \/ List.length (cli.info allResults) <= 10 ->
      exists mark, In (stdout, issueLine mark r) written)
  /\ (10 < List.length (cli.info allResults) ->
      In (stdout, moreLine (List.length (cli.info allResults))) written).
Proof.
  intros written. subst written.
  rewrite (reportText_writes signalsetPath allResults console). cbn [snd].
  split.
  - intros r Hin Hcase.
    assert (Hlisted : exists mark,
               In (issueLine mark r) (reportLines signalsetPath allResults)).
    { destruct allResults as [|r0 rest]; [destruct Hin|].
      unfold reportLines. set (all := r0 :: rest) in *.
      destruct (cli.isError r) eqn:He.
      { exists errorMark. apply in_or_app. right. apply in_or_app. left.
        apply In_groupLines; apply filter_In; now split. }
      destruct (cli.isWarning r) eqn:Hw.
      { exists warningMark. do 2 (apply in_or_app; right).
        apply in_or_app. left.
        apply In_groupLines; apply filter_In; now split. }
      destruct Hcase as [Hc|[Hc|Hc]]; try discriminate.
      exists infoMark. do 3 (apply in_or_app; right).
      apply in_or_app. left.
      assert (Hinfo : In r (cli.info all)).
      { unfold cli.info. apply filter_In. split; [assumption|].
        now rewrite includes_errors, includes_warnings, He, Hw. }
      apply In_groupLines; [assumption|].
      now rewrite firstn_all2. }
    destruct Hlisted as [mark Hmark]. exists mark.
    apply in_or_app. right.
    apply (in_map (pair stdout)) in Hmark. exact Hmark.
  - intros Hmore. apply in_or_app. right.
    apply (in_map (pair stdout)).
    destruct allResults as [|r0 rest]; [cbn in Hmore; lia|].
    unfold reportLines. set (all := r0 :: rest) in *.
    do 3 (apply in_or_app; right). apply in_or_app. left.
    destruct (cli.info all) as [|i info] eqn:Einfo; [cbn in Hmore; lia|].
    cbn [groupLines]. right. apply in_or_app. right.
    apply in_or_app. left. unfold moreNote.
    apply Nat.ltb_lt in Hmore. rewrite Hmore. now left.
Qed.

End ReportFacts.

(* ===================================================================== *)
(** * Properties of the text document of the command line *)
(* ===================================================================== *)

Module DocumentFacts.
Import BinInt.
Import vscodeShim DocumentSpec.
Local Open Scope string_scope.
Local Open Scope list_scope.

Lemma split_cons (content : string) :
  split content = hd EmptyString (split content) :: tl (split content).
Proof. destruct content as [|c rest]; [reflexivity|]. cbn [split].
  now destruct (Ascii.eqb c JSON.newline). Qed.

Lemma split_length (content : string) :
  List.length (split content) = S (lineFeeds content).
Proof.
  induction content as [|c rest IH]; [reflexivity|].
  cbn [split lineFeeds]. destruct (Ascii.eqb c JSON.newline).
  - cbn [List.length]. now rewrite IH.
  - rewrite (split_cons rest) in IH. cbn [List.length] in *. exact IH.
Qed.

Lemma concat_split (content : string) :
  String.concat lineFeed (split content) = content.
Proof.
  induction content as [|c rest IH]; [reflexivity|].
  cbn [split]. destruct (Ascii.eqb_spec c JSON.newline) as [->|Hc].
  - rewrite (split_cons rest) in *. cbn [String.concat] in *.
    unfold lineFeed at 1. cbn [append]. now rewrite IH.
  - rewrite (split_cons rest) in IH. cbn [String.concat] in *.
    destruct (tl (split rest)); cbn [append]; now rewrite IH.
Qed.

Lemma split_no_lineFeed (content line : string) :
  In line (split content) -> occurs JSON.newline line = false.
Proof.
  revert line. induction content as [|c rest IH]; intros line Hin.
  - destruct Hin as [<-|[]]. reflexivity.
  - cbn [split] in Hin. destruct (Ascii.eqb c JSON.newline) eqn:Hc.
    + destruct Hin as [<-|Hin]; [reflexivity|now apply IH].
    + rewrite (split_cons rest) in IH. destruct Hin as [<-|Hin].
      * cbn [occurs]. rewrite Hc. apply IH. now left.
      * apply IH. now right.
Qed.

Lemma orEmpty_Some (s : string) : orEmpty (Some s) = s.
Proof.
  unfold orEmpty, truthy. destruct s; reflexivity.
Qed.

Lemma lengthOrZero_orEmpty (s : option string) :
  lengthOrZero s = String.length (orEmpty s).
Proof.
  destruct s as [s|]; [|reflexivity]. rewrite orEmpty_Some.
  cbn [lengthOrZero]. now destruct (String.length s).
Qed.

Lemma at_of_nat (lines : list string) (n : nat) :
  at_ lines (Z.of_nat n) = nth_error lines n.
Proof.
  unfold at_. destruct (Z.ltb_spec (Z.of_nat n) 0); [lia|].
  now rewrite Znat.Nat2Z.id.
Qed.

Lemma at_outside (lines : list string) (n : Z) :
  (n < 0 \/ Z.of_nat (List.length lines) <= n)%Z -> at_ lines n = None.
Proof.
  intros Hn. unfold at_. destruct (Z.ltb_spec n 0) as [|Hpos];
    [reflexivity|].
  apply nth_error_None. lia.
Qed.

Lemma map_nth_error_seq (lines : list string) (start : nat)
    (prefix : list string) :
  List.length prefix = start ->
  map (fun n => orEmpty (nth_error (prefix ++ lines) n))
      (seq start (List.length lines)) = lines.
Proof.
  revert start prefix.
  induction lines as [|l lines IH]; intros start prefix Hlen;
    [reflexivity|].
  cbn [List.length seq map]. f_equal.
  - rewrite nth_error_app2 by lia. subst start. rewrite Nat.sub_diag.
    apply orEmpty_Some.
  - specialize (IH (S start) (prefix ++ [l])).
    rewrite <- app_assoc in IH. apply IH.
    rewrite length_app. cbn. lia.
Qed.

(** X16.  The document gives back the text it was made of, and its lines
    are the pieces of the text between line feeds: a text with [k] line
    feeds has the lines [0 .. k], and their texts joined by line feeds
    are the text again. *)
Theorem document_lines_round_trip (content : string) :
  let document := createTextDocument content in
  getText document tt = content
  /\ String.concat lineFeed
       (lineTexts document (S (lineFeeds content))) = content.
Proof.
  cbv zeta. split; [reflexivity|].
  unfold lineTexts, createTextDocument. cbn [lineAt text].
  rewrite <- split_length.
  rewrite (map_ext _ (fun n => orEmpty (nth_error ([] ++ split content) n)))
    by (intros n; now rewrite at_of_nat).
  rewrite map_nth_error_seq by reflexivity.
  apply concat_split.
Qed.

(** X17.  A line number that is negative or greater than the number of
    line feeds of the text gives an empty line: its text is empty, and
    its range starts and ends at character 0 of that line number.
    Nothing is thrown. *)
Theorem lineAt_outside (content : string) (n : Z) :
  (n < 0 \/ Z.of_nat (lineFeeds content) < n)%Z ->
  lineAt (createTextDocument content) n =
  {| text := EmptyString;
     lineNumber := n;
     range := {| start := {| line := n; character := 0 |};
                 end_ := {| line := n; character := 0 |} |} |}.
Proof.
  intros Hn. unfold createTextDocument. cbn [lineAt].
  rewrite at_outside; [reflexivity|].
  rewrite split_length. lia.
Qed.

(** X18.  Whatever the line number, the line the document returns bears
    that number, its text has no line feed, and its range goes from
    character 0 to the length of its text on that line. *)
Theorem lineAt_shape (content : string) (n : Z) :
  let textLine := lineAt (createTextDocument content) n in
  lineNumber textLine = n
  /\ occurs JSON.newline (text textLine) = false
  /\ range textLine =
     {| start := {| line := n; character := 0 |};
        end_ := {| line := n;
                   character := String.length (text textLine) |} |}.
Proof.
  cbv zeta. unfold createTextDocument. cbn [lineAt lineNumber text range].
  split; [reflexivity|]. split.
  - destruct (at_ (split content) n) as [l|] eqn:Hat; [|reflexivity].
    rewrite orEmpty_Some. apply (split_no_lineFeed content).
    unfold at_ in Hat. destruct (n <? 0)%Z; [discriminate|].
    now apply nth_error_In in Hat.
  - now rewrite lengthOrZero_orEmpty.
Qed.

End DocumentFacts.

(* ===================================================================== *)
(** * Further properties of the analysis engine *)
(* ===================================================================== *)

Module EngineCallFacts.
Import EngineSpec EngineCalls.
Local Open Scope list_scope.

Lemma lintAt_spec (call : Call) (self : BaseLinter.BaseLinter) :
  lintAt call self =
  (parts <- sequence (map (contributionTo call)
                          (getEnabledRules (BaseLinter.ruleRegistry self))) ;;
   ret (concat parts)).
Proof.
  destruct call; cbn [lintAt contributionTo];
    unfold BaseLinter.lintSignal, BaseLinter.lintCommand,
      BaseLinter.lintCommands, BaseLinter.lintDocument; cbv zeta.
  - rewrite EngineFacts.lintSignal_for_spec.
    now rewrite EngineFacts.appended_nil.
  - rewrite EngineFacts.lintCommand_for_spec.
    now rewrite EngineFacts.appended_nil.
  - rewrite EngineFacts.lintCommands_for_spec.
    now rewrite EngineFacts.appended_nil.
  - rewrite EngineFacts.lintDocument_for_spec.
    now rewrite EngineFacts.appended_nil.
Qed.

Lemma sequence_app {A : Type} (xs ys : list (Completion A)) :
  sequence (xs ++ ys) =
  (a <- sequence xs ;; b <- sequence ys ;; ret (a ++ b)).
Proof.
  induction xs as [|x xs IH]; cbn [app sequence].
  - cbn. now destruct (sequence ys).
  - destruct x as [e|x]; [reflexivity|]. cbn. rewrite IH.
    destruct (sequence xs) as [e|a]; [reflexivity|]. cbn.
    destruct (sequence ys); reflexivity.
Qed.

Lemma getEnabledRules_app (first second : RuleRegistry) :
  getEnabledRules (first ++ second) =
  getEnabledRules first ++ getEnabledRules second.
Proof. unfold getEnabledRules. now rewrite filter_app, map_app. Qed.

(** X19.  Linting with a registry made of two parts is linting with the
    first part and then with the second: the results of the first part
    followed by those of the second, or the first throw.  This holds at
    each of the four entry points. *)
Theorem lint_registry_app (call : Call) (first second : RuleRegistry) :
  lintAt call (linterOf (first ++ second)) =
  andThen (lintAt call (linterOf first)) (lintAt call (linterOf second)).
Proof.
  unfold andThen. rewrite !lintAt_spec. cbn [linterOf BaseLinter.ruleRegistry].
  rewrite getEnabledRules_app, map_app, sequence_app.
  destruct (sequence (map _ (getEnabledRules first))) as [e|a];
    [reflexivity|].
  cbn. destruct (sequence (map _ (getEnabledRules second))) as [e|b];
    [reflexivity|].
  cbn. now rewrite concat_app.
Qed.

(** X20.  The call throws what the first enabled rule that throws has
    thrown, when the enabled rules before it return: the rules after it
    are not called and the results collected so far are lost.  This holds
    at each of the four entry points. *)
Theorem lint_first_throw (call : Call) (self : BaseLinter.BaseLinter)
    (before : list ILinterRule) (thrower : ILinterRule)
    (after : list ILinterRule) (e : JsError) :
  getEnabledRules (BaseLinter.ruleRegistry self) =
    before ++ thrower :: after ->
  (forall r, In r before -> exists results, contributionTo call r = ret results) ->
  contributionTo call thrower = throw e ->
  lintAt call self = throw e.
Proof.
  intros Hrules Hbefore Hthrow. rewrite lintAt_spec, Hrules.
  now rewrite (SignalLinterFacts.sequence_first_throw
                 (contributionTo call) before thrower after e Hbefore Hthrow).
Qed.

Lemma sequence_results {A B : Type} (g : A -> Completion B) (xs : list A)
    (parts : list B) :
  sequence (map g xs) = inr parts ->
  Forall2 (fun x part => g x = inr part) xs parts.
Proof.
  revert parts. induction xs as [|x xs IH]; intros parts; cbn [map sequence].
  - intros E. inversion E. constructor.
  - destruct (g x) as [e|b] eqn:Hx; [discriminate|]. cbn.
    destruct (sequence (map g xs)) as [e|bs]; [discriminate|]. cbn.
    intros E. inversion E; subst. constructor; [assumption|now apply IH].
Qed.

(** X21.  When the call returns, every result it returns was contributed
    by an enabled rule, and every result an enabled rule contributes is
    returned: the engine adds none of its own and drops none.  This holds
    at each of the four entry points. *)
Theorem lint_results_from_rules (call : Call) (self : BaseLinter.BaseLinter)
    (results : list LintResult) (result : LintResult) :
  lintAt call self = ret results ->
  (In result results <->
   exists r own,
     In r (getEnabledRules (BaseLinter.ruleRegistry self))
     /\ contributionTo call r = ret own /\ In result own).
Proof.
  rewrite lintAt_spec.
  destruct (sequence _) as [e|parts] eqn:Hparts; [discriminate|].
  cbn. intros E. inversion E; subst. clear E.
  apply sequence_results in Hparts.
  rewrite in_concat. split.
  - intros [own [Hown Hin]].
    induction Hparts as [|r part rules parts Hr Hrest IH];
      [destruct Hown|].
    destruct Hown as [->|Hown].
    + exists r, own. split; [now left|]. now split.
    + destruct (IH Hown) as [r' [own' [Hr' Hrest']]].
      exists r', own'. split; [now right|assumption].
  - intros [r [own [Hr [Hown Hin]]]]. exists own. split; [|assumption].
    induction Hparts as [|r0 part rules parts Hr0 Hrest IH];
      [destruct Hr|].
    destruct Hr as [->|Hr].
    + left. cbn in *. congruence.
    + right. now apply IH.
Qed.

End EngineCallFacts.

(* ===================================================================== *)
(** * Further properties of the suggested-metric rule *)
(* ===================================================================== *)

Module RuleFacts.
Import suggestedMetricPatterns SuggestedMetricSuggestionRule SuggestionSpec.
Import ObjectFacts JsonText JsonFacts CanonicalFacts RewrittenFacts.
Import RewriteFacts.
Import EngineSpec AdapterSpec.
Local Open Scope string_scope.


(** ** Rewriting a rewritten signal *)

Lemma breaksEarly_removelast (signalObj : JsObject) :
  breaksEarly signalObj = existsb isBreaker (removelast signalObj).
Proof.
  induction signalObj as [|kv rest IH]; [reflexivity|].
  cbn [breaksEarly removelast]. destruct rest as [|next rest];
    [reflexivity|].
  cbn [existsb]. now rewrite IH.
Qed.

Lemma removelast_filter_In {A : Type} (p : A -> bool) (x : A) (l : list A) :
  In x (removelast (filter p l)) -> In x (removelast l).
Proof.
  induction l as [|a l IH]; [intros []|].
  assert (Hstep : In x (removelast (filter p l)) ->
                  In x (removelast (a :: l))).
  { intros Hin. specialize (IH Hin). cbn [removelast].
    destruct l as [|b l]; [destruct IH|]. now right. }
  cbn [filter]. destruct (p a); [|exact Hstep].
  cbn [removelast]. destruct (filter p l) as [|b kept] eqn:Hkept;
    [intros []|].
  intros [<-|Hin].
  - destruct l as [|c l]; [discriminate|]. now left.
  - apply Hstep. exact Hin.
Qed.

Lemma removelast_app_In {A : Type} (x : A) (l l' : list A) :
  In x (removelast (l ++ l')) -> In x l \/ In x (removelast l').
Proof.
  induction l as [|a l IH]; [now right|].
  cbn [app removelast]. destruct (l ++ l')%list as [|b tail] eqn:Heq;
    [intros []|].
  intros [<-|Hin]; [left; now left|].
  destruct (IH Hin) as [H|H]; [left; now right|now right].
Qed.

Lemma head_not_breaker (signalObj : JsObject) (m : string)
    (kv : string * JValue) :
  In kv (headProperties signalObj m) -> isBreaker kv = false.
Proof.
  unfold headProperties, knownFirst, present. cbn [flat_map].
  intros Hin. unfold isBreaker.
  repeat (apply in_app_or in Hin; destruct Hin as [Hin|Hin]);
    try (destruct (getProp _ signalObj); cbn [In] in Hin);
    cbn [In] in Hin;
    repeat match goal with
           | H : _ \/ _ |- _ => destruct H
           | H : False |- _ => destruct H
           end; subst; reflexivity.
Qed.

(** A rewritten object has no property that breaks the loop before its
    last, when the object it is made from has none. *)
Lemma breaksEarly_rewritten (signalObj : JsObject) (m : string) :
  breaksEarly signalObj = false ->
  breaksEarly (rewritten signalObj m) = false.
Proof.
  rewrite !breaksEarly_removelast. intros Hearly.
  destruct (existsb isBreaker (removelast (rewritten signalObj m)))
    eqn:Hex; [|reflexivity].
  exfalso. apply existsb_exists in Hex. destruct Hex as [kv [Hin Hkv]].
  unfold rewritten in Hin.
  apply removelast_app_In in Hin. destruct Hin as [Hin|Hin].
  - unfold indexPart in Hin. apply filter_In in Hin.
    destruct Hin as [_ Hindex]. apply negb_true_iff in Hindex.
    rewrite (index_not_breaker kv Hindex) in Hkv. discriminate.
  - apply removelast_app_In in Hin. destruct Hin as [Hin|Hin].
    + rewrite (head_not_breaker _ _ _ Hin) in Hkv. discriminate.
    + apply removelast_filter_In in Hin. unfold namePart in Hin.
      apply removelast_filter_In in Hin.
      assert (Hnone : existsb isBreaker (removelast signalObj) = true)
        by (apply existsb_exists; now exists kv).
      congruence.
Qed.

Lemma filter_none {A : Type} (p : A -> bool) (l : list A) :
  (forall x, In x l -> p x = false) -> filter p l = [].
Proof.
  induction l as [|x l IH]; intros Hall; [reflexivity|]. cbn [filter].
  rewrite (Hall x (or_introl eq_refl)). apply IH.
  intros y Hy. apply Hall. now right.
Qed.

Lemma filter_all {A : Type} (p : A -> bool) (l : list A) :
  (forall x, In x l -> p x = true) -> filter p l = l.
Proof.
  induction l as [|x l IH]; intros Hall; [reflexivity|]. cbn [filter].
  rewrite (Hall x (or_introl eq_refl)). f_equal. apply IH.
  intros y Hy. apply Hall. now right.
Qed.

Lemma head_facts (signalObj : JsObject) (m : string)
    (kv : string * JValue) :
  In kv (headProperties signalObj m) ->
  isName (fst kv) = true /\ isKept kv = false.
Proof.
  unfold headProperties, knownFirst, present. cbn [flat_map].
  intros Hin.
  repeat (apply in_app_or in Hin; destruct Hin as [Hin|Hin]);
    try (destruct (getProp _ signalObj); cbn [In] in Hin);
    cbn [In] in Hin;
    repeat match goal with
           | H : _ \/ _ |- _ => destruct H
           | H : False |- _ => destruct H
           end; subst; split; reflexivity.
Qed.

Lemma head_rewritten (signalObj : JsObject) (m1 m2 : string) :
  headProperties (rewritten signalObj m1) m2 = headProperties signalObj m2.
Proof.
  unfold headProperties. f_equal.
  apply flat_map_agree. intros k Hk. unfold present.
  rewrite getProp_rewritten.
  unfold knownFirst in Hk. cbn [In] in Hk.
  destruct Hk as [<-|[<-|[<-|[<-|[]]]]]; reflexivity.
Qed.

Lemma rewritten_rewritten (signalObj : JsObject) (m1 m2 : string) :
  rewritten (rewritten signalObj m1) m2 = rewritten signalObj m2.
Proof.
  set (kept := filter isKept (namePart signalObj)).
  assert (Hkept : forall kv, In kv kept ->
                             isName (fst kv) = true /\ isKept kv = true).
  { intros kv Hkv. unfold kept, namePart in Hkv.
    apply filter_In in Hkv. destruct Hkv as [Hkv Hk].
    apply filter_In in Hkv. now destruct Hkv. }
  assert (Hindex : forall kv, In kv (indexPart signalObj) ->
                              isName (fst kv) = false).
  { intros kv Hkv. unfold indexPart in Hkv. apply filter_In in Hkv.
    destruct Hkv as [_ Hk]. now apply negb_true_iff in Hk. }
  assert (Hindices : indexPart (rewritten signalObj m1) =
                     indexPart signalObj).
  { unfold rewritten. fold kept. unfold indexPart at 1.
    rewrite !filter_app.
    rewrite (filter_all _ (indexPart signalObj))
      by (intros kv Hkv; now rewrite (Hindex kv Hkv)).
    rewrite (filter_none _ (headProperties signalObj m1))
      by (intros kv Hkv;
          now rewrite (proj1 (head_facts _ _ _ Hkv))).
    rewrite (filter_none _ kept)
      by (intros kv Hkv; now rewrite (proj1 (Hkept kv Hkv))).
    now rewrite !app_nil_r. }
  assert (Hnames : filter isKept (namePart (rewritten signalObj m1)) =
                   kept).
  { unfold rewritten. fold kept. unfold namePart at 1.
    rewrite !filter_app.
    rewrite (filter_none _ (indexPart signalObj))
      by (intros kv Hkv; apply Hindex; assumption).
    rewrite (filter_all _ (headProperties signalObj m1))
      by (intros kv Hkv; exact (proj1 (head_facts _ _ _ Hkv))).
    rewrite (filter_all _ kept)
      by (intros kv Hkv; exact (proj1 (Hkept kv Hkv))).
    cbn [filter app].
    rewrite (filter_none _ (headProperties signalObj m1))
      by (intros kv Hkv; exact (proj2 (head_facts _ _ _ Hkv))).
    rewrite (filter_all _ kept)
      by (intros kv Hkv; exact (proj2 (Hkept kv Hkv))).
    reflexivity. }
  unfold rewritten at 1. rewrite Hindices, Hnames, head_rewritten.
  reflexivity.
Qed.

(** X23.  Rewriting a signal that the rule has rewritten gives the text
    the rule gives on the signal itself: the order of the properties is
    kept, no second suggestedMetric is added, and the value suggested
    last is the one that stays. *)
Theorem rewrite_of_rewritten (signal signal' : Signal)
    (node node' : jsonc.Node) (m1 m2 text : string) :
  JSON.wellFormed (jsonc.getNodeValue node) = true ->
  listed (jsonc.getNodeValue node) = true ->
  createSignalWithSuggestedMetric signal node m1 = ret text ->
  JSON.parseAt text 0 = Some (jsonc.getNodeValue node') ->
  createSignalWithSuggestedMetric signal' node' m2 =
  createSignalWithSuggestedMetric signal node m2.
Proof.
  intros Hwf Hlisted Htext Hnode'.
  destruct (SuggestionFacts.createSignal_returns _ _ _ _ Hwf Hlisted Htext)
    as (Hvalue & Hbreaks & -> & Hgood).
  rewrite (SuggestionFacts.parseAt_stringify _ Hgood) in Hnode'.
  inversion Hnode' as [Hvalue'].
  destruct (goodObject_entries _ Hwf Hlisted) as (Hnd & Hord & _).
  rewrite (createSignal_spec signal node m2 Hvalue Hnd Hord), Hbreaks.
  apply wellFormedObject_iff in Hgood. destruct Hgood as (Hnd' & Hord' & _).
  rewrite createSignal_spec; rewrite <- Hvalue'; cbn [entries];
    try assumption; [|discriminate].
  rewrite (breaksEarly_rewritten _ _ Hbreaks).
  now rewrite rewritten_rewritten.
Qed.

(** ** What the rule reads *)

Lemma validateSignal_for_signal (patterns : list MetricPattern)
    (signal1 signal2 : Signal) (node : jsonc.Node)
    (signalId signalName : option JValue) :
  validateSignal_for patterns signal1 node signalId signalName =
  validateSignal_for patterns signal2 node signalId signalName.
Proof.
  induction patterns as [|pattern rest IH]; [reflexivity|].
  cbn [validateSignal_for]. now rewrite IH.
Qed.

(** X24.  Of the signal it is given the rule reads the id, the name and
    the suggestedMetric only: on two signals on which reading each of
    these three gives the same, value for value or error for error, it
    returns the same, with the same node.  The replacement text of the
    result is made from the value of the node, not from the signal. *)
Theorem validateSignal_reads_three (metricPatterns : list MetricPattern)
    (signal1 signal2 : Signal) (node : jsonc.Node) :
  member signal1 "id" = member signal2 "id" ->
  member signal1 "name" = member signal2 "name" ->
  member signal1 "suggestedMetric" = member signal2 "suggestedMetric" ->
  validateSignal metricPatterns signal1 node =
  validateSignal metricPatterns signal2 node.
Proof.
  intros Hid Hname Hmetric. unfold validateSignal.
  rewrite Hid, Hname, Hmetric.
  destruct (member signal2 "suggestedMetric") as [e|metric]; [reflexivity|].
  cbn [bind ret Monad_Completion Monad_either].
  destruct (truthyValue metric); [reflexivity|].
  destruct (member signal2 "id") as [e|signalId]; [reflexivity|].
  destruct (member signal2 "name") as [e|signalName]; [reflexivity|].
  cbn [bind ret Monad_Completion Monad_either].
  destruct (negb (truthyValue signalId) || negb (truthyValue signalName));
    [reflexivity|].
  apply validateSignal_for_signal.
Qed.

Lemma validateSignal_for_app (first second : list MetricPattern)
    (signal : Signal) (node : jsonc.Node)
    (signalId signalName : option JValue) :
  validateSignal_for (first ++ second) signal node signalId signalName =
  (result <- validateSignal_for first signal node signalId signalName ;;
   match result with
   | Some r => ret (Some r)
   | None => validateSignal_for second signal node signalId signalName
   end).
Proof.
  induction first as [|pattern rest IH].
  - cbn [app validateSignal_for bind ret Monad_Completion Monad_either].
    reflexivity.
  - cbn [app validateSignal_for].
    destruct (testOptional (idPattern pattern) signalId) as [e|idMatches];
      [reflexivity|].
    destruct (testOptional (namePattern pattern) signalName)
      as [e|nameMatches]; [reflexivity|].
    destruct (testOptional (excludeNamePattern pattern) signalName)
      as [e|excludedByName]; [reflexivity|].
    cbn [bind ret Monad_Completion Monad_either].
    destruct ((idMatches || nameMatches) && negb excludedByName);
      [|exact IH].
    now destruct (createSignalWithSuggestedMetric signal node
                    (suggestedMetric pattern)).
Qed.

(** X25.  On a table made of two tables one after the other the rule
    returns or throws what it does on the first, and what it does on the
    second only if it returns null on the first: patterns added at the end
    of the table change no suggestion that was made without them. *)
Theorem validateSignal_table_app (first second : list MetricPattern)
    (signal : Signal) (node : jsonc.Node) :
  validateSignal (first ++ second) signal node =
  (result <- validateSignal first signal node ;;
   match result with
   | Some r => ret (Some r)
   | None => validateSignal second signal node
   end).
Proof.
  unfold validateSignal.
  destruct (member signal "suggestedMetric") as [e|metric]; [reflexivity|].
  cbn [bind ret Monad_Completion Monad_either].
  destruct (truthyValue metric); [reflexivity|].
  destruct (member signal "id") as [e|signalId]; [reflexivity|].
  destruct (member signal "name") as [e|signalName]; [reflexivity|].
  cbn [bind ret Monad_Completion Monad_either].
  destruct (negb (truthyValue signalId) || negb (truthyValue signalName));
    [reflexivity|].
  apply validateSignal_for_app.
Qed.

(** X26.  With the rule registered under its id, [toDiagnostics] turns the
    results of the rule into diagnostics of severity Information, one for
    each result and in the same order, with the result's message, the
    range of the signal's node, the rule id as code and [obdb-linter] as
    source; and the linter keeps the results as its last results. *)
Theorem rule_results_to_diagnostics (self : SignalLinter.SignalLinter)
    (document : vscode.TextDocument)
    (metricPatterns registered : list MetricPattern)
    (results : list LintResult) :
  getRuleById (SignalLinter.ruleRegistry self) "suggested-metric-suggestion"
    = Some (asRule registered) ->
  Forall (fun result =>
            exists signal node,
              validateSignal metricPatterns signal node =
              ret (Some result))
         results ->
  let after := SignalLinter.toDiagnostics self document results in
  SignalLinter.getLastResults (fst after) = results
  /\ snd after =
     ret (map (fun result =>
                 {| vscode.range :=
                      {| vscode.start :=
                           vscode.positionAt document
                             (jsonc.offset (node result));
                         vscode.end_ :=
                           vscode.positionAt document
                             (jsonc.offset (node result)
                              + jsonc.length (node result)) |};
                    vscode.message := message result;
                    vscode.severity := vscode.DiagnosticSeverity.Information;
                    vscode.code := Some "suggested-metric-suggestion";
                    vscode.source := Some "obdb-linter" |})
              results).
Proof.
  intros Hrule Hresults after. subst after.
  unfold SignalLinter.toDiagnostics. cbn [fst snd]. split; [reflexivity|].
  rewrite AdapterFacts.convert_spec.
  rewrite <- (SequenceFacts.sequence_normal
                (fun result =>
                   {| vscode.range :=
                        {| vscode.start :=
                             vscode.positionAt document
                               (jsonc.offset (node result));
                           vscode.end_ :=
                             vscode.positionAt document
                               (jsonc.offset (node result)
                                + jsonc.length (node result)) |};
                      vscode.message := message result;
                      vscode.severity :=
                        vscode.DiagnosticSeverity.Information;
                      vscode.code := Some "suggested-metric-suggestion";
                      vscode.source := Some "obdb-linter" |}) results).
  f_equal. apply map_ext_in. intros result Hin.
  rewrite Forall_forall in Hresults.
  destruct (Hresults result Hin) as [signal [node Hresult]].
  destruct (validateSignal_some _ _ _ _ Hresult)
    as (pattern & newText & _ & _ & ->).
  unfold SignalLinter.ruleSeverity.
  cbn [SignalLinter.ruleRegistry SignalLinter.setLastResults resultWith
       ruleId id getConfig].
  rewrite Hrule. reflexivity.
Qed.

End RuleFacts.

(* ===================================================================== *)
(** * Further properties of the editor adapter *)
(* ===================================================================== *)

Module ConversionFacts.
Import EngineSpec AdapterSpec.
Local Open Scope list_scope.

Lemma sequence_throws {A B : Type} (g : A -> Completion B) (xs : list A)
    (e : JsError) :
  sequence (map g xs) = inl e ->
  exists pre x post,
    xs = pre ++ x :: post /\ g x = inl e
    /\ forall y, In y pre -> exists b, g y = inr b.
Proof.
  induction xs as [|x xs IH]; cbn [map sequence]; [discriminate|].
  destruct (g x) as [e'|b] eqn:Hx.
  - intros E. inversion E; subst. exists [], x, xs.
    repeat split; [assumption|intros y []].
  - cbn. destruct (sequence (map g xs)) as [e'|bs]; [|discriminate].
    cbn. intros E. inversion E; subst.
    destruct (IH eq_refl) as [pre [z [post [Heq [Hz Hpre]]]]].
    exists (x :: pre), z, post. rewrite Heq.
    repeat split; [assumption|].
    intros y [<-|Hy]; [now exists b|now apply Hpre].
Qed.

(** X27.  Whatever the severity callback does, the conversion is all or
    nothing.  When it returns, there is one diagnostic for each result, in
    order, made with the severity the callback returned for the rule id of
    the result.  When it throws, the error is the one the callback threw
    for the first result on which it throws, and no diagnostic of the
    results before it is returned. *)
Theorem convertToVscodeDiagnostics_all_or_nothing
    (document : vscode.TextDocument) (results : list LintResult)
    (getRuleSeverity : string -> Completion LintSeverity.LintSeverity) :
  (forall diagnostics,
      vscodeAdapter.convertToVscodeDiagnostics document results
        getRuleSeverity = ret diagnostics ->
      Forall2 (fun result diagnostic =>
                 exists severity,
                   getRuleSeverity (ruleId result) = ret severity
                   /\ diagnostic = diagnosticOf document result severity)
              results diagnostics)
  /\ (forall e,
        vscodeAdapter.convertToVscodeDiagnostics document results
          getRuleSeverity = throw e ->
        exists before result after,
          results = before ++ result :: after
          /\ getRuleSeverity (ruleId result) = throw e
          /\ forall earlier, In earlier before ->
               exists severity,
                 getRuleSeverity (ruleId earlier) = ret severity).
Proof.
  rewrite AdapterFacts.convert_spec. split.
  - intros diagnostics Hret.
    apply EngineCallFacts.sequence_results in Hret.
    induction Hret as [|result diagnostic rest ds Hone Hrest IH];
      constructor; [|exact IH].
    destruct (getRuleSeverity (ruleId result)) as [e|severity];
      [discriminate|].
    exists severity. split; [reflexivity|].
    cbn in Hone. now inversion Hone.
  - intros e Hthrow.
    destruct (sequence_throws _ _ _ Hthrow)
      as [before [result [after [Heq [Hresult Hbefore]]]]].
    exists before, result, after. split; [assumption|]. split.
    + destruct (getRuleSeverity (ruleId result)) as [e'|severity];
        [cbn in Hresult; now inversion Hresult|discriminate].
    + intros earlier Hin. destruct (Hbefore earlier Hin) as [d Hd].
      destruct (getRuleSeverity (ruleId earlier)) as [e'|severity];
        [discriminate|now exists severity].
Qed.

End ConversionFacts.

(* ===================================================================== *)
(** * Properties of the application of the edits *)
(* ===================================================================== *)

Module OptimizeFacts.
Import process cliOptimize OptimizeSpec.
Local Open Scope string_scope.
Local Open Scope list_scope.

(** ** Pieces of a text *)

Lemma take_drop (n : nat) (s : string) :
  (JSON.take n s ++ JSON.drop n s)%string = s.
Proof.
  revert s. induction n as [|n IH]; intros s.
  - now destruct s.
  - destruct s as [|c s]; [reflexivity|].
    cbn [JSON.take JSON.drop append]. now rewrite IH.
Qed.

Lemma take_take_append (n t : nat) (s x : string) :
  n <= t -> t <= String.length s ->
  JSON.take n (JSON.take t s ++ x)%string = JSON.take n s.
Proof.
  revert t s. induction n as [|n IH]; intros t s Hn Ht.
  - destruct (JSON.take t s ++ x)%string, s; reflexivity.
  - destruct t as [|t]; [lia|].
    destruct s as [|c s]; [cbn in Ht; lia|].
    cbn [JSON.take append]. f_equal. apply IH; [lia|]. cbn in Ht. lia.
Qed.

Lemma substring_take_append (n t : nat) (s x : string) :
  n <= t -> t <= String.length s ->
  substring n t (JSON.take t s ++ x)%string = substring n t s.
Proof.
  unfold substring. revert t s. induction n as [|n IH]; intros t s Hn Ht.
  - rewrite Nat.sub_0_r.
    replace (JSON.drop 0 (JSON.take t s ++ x)%string)
      with (JSON.take t s ++ x)%string
      by (now destruct (JSON.take t s ++ x)%string).
    replace (JSON.drop 0 s) with s by (now destruct s).
    now apply take_take_append.
  - destruct t as [|t]; [lia|].
    destruct s as [|c s]; [cbn in Ht; lia|].
    cbn [JSON.take append JSON.drop Nat.sub]. apply IH; [lia|].
    cbn in Ht. lia.
Qed.

Lemma take_substring (from n : nat) (s : string) :
  from <= n -> n <= String.length s ->
  (JSON.take from s ++ substring from n s)%string = JSON.take n s.
Proof.
  unfold substring. revert n s. induction from as [|from IH];
    intros n s Hfrom Hn.
  - rewrite Nat.sub_0_r.
    replace (JSON.drop 0 s) with s by (now destruct s).
    now destruct s.
  - destruct n as [|n]; [lia|].
    destruct s as [|c s]; [cbn in Hn; lia|].
    cbn [JSON.take append JSON.drop Nat.sub]. f_equal.
    apply IH; [lia|]. cbn in Hn. lia.
Qed.

(** ** The order of the edits *)

Lemma insert_last (edit : OptimizationEdit) (sorted : list OptimizationEdit) :
  Forall (fun x => commandIndex edit < commandIndex x) sorted ->
  insert edit sorted = sorted ++ [edit].
Proof.
  induction sorted as [|x rest IH]; intros Hall; [reflexivity|].
  inversion Hall as [|? ? Hx Hrest]; subst. cbn [insert app].
  destruct (Nat.leb_spec (commandIndex x) (commandIndex edit)); [lia|].
  now rewrite IH.
Qed.

Lemma ascendingFrom_lower (least : nat) (indices : list nat) :
  ascendingFrom least indices -> Forall (fun i => least <= i) indices.
Proof.
  revert least. induction indices as [|i rest IH]; intros least H;
    [constructor|].
  destruct H as [Hi Hrest]. constructor; [assumption|].
  apply IH in Hrest. rewrite Forall_forall in *.
  intros j Hj. specialize (Hrest j Hj). lia.
Qed.

Lemma ascendingFrom_weaken (least least' : nat) (indices : list nat) :
  least' <= least -> ascendingFrom least indices ->
  ascendingFrom least' indices.
Proof.
  intros Hle. destruct indices as [|i rest]; [trivial|].
  cbn [ascendingFrom]. intros [Hi Hrest]. split; [lia|assumption].
Qed.

(** Edits in the order of their commands are sorted into the reverse
    order. *)
Lemma sort_rev (editsToApply : list OptimizationEdit) :
  byCommand editsToApply -> sort editsToApply = rev editsToApply.
Proof.
  unfold byCommand. generalize 0 as least.
  induction editsToApply as [|edit rest IH]; intros least Hasc;
    [reflexivity|].
  cbn [map ascendingFrom] in Hasc. destruct Hasc as [_ Hrest].
  cbn [sort fold_right rev]. fold (sort rest).
  rewrite (IH _ Hrest). apply insert_last.
  apply ascendingFrom_lower in Hrest.
  rewrite Forall_forall in *. intros x Hx. apply in_rev in Hx.
  specialize (Hrest (commandIndex x) (in_map commandIndex _ _ Hx)). lia.
Qed.

Lemma In_insert (x edit : OptimizationEdit)
    (sorted : list OptimizationEdit) :
  In x (insert edit sorted) <-> x = edit \/ In x sorted.
Proof.
  induction sorted as [|y rest IH]; cbn [insert In].
  - intuition congruence.
  - destruct (Nat.leb (commandIndex y) (commandIndex edit)); cbn [In].
    + intuition congruence.
    + rewrite IH. intuition congruence.
Qed.

(** Sorting keeps the edits. *)
Lemma In_sort (x : OptimizationEdit) (editsToApply : list OptimizationEdit) :
  In x (sort editsToApply) <-> In x editsToApply.
Proof.
  induction editsToApply as [|edit rest IH]; [reflexivity|].
  cbn [sort fold_right In]. fold (sort rest).
  rewrite In_insert, IH. intuition congruence.
Qed.

(** ** Spans in order *)

Lemma spansInOrder_limit (from limit : nat) (nodes : list jsonc.Node) :
  spansInOrder from limit nodes -> from <= limit.
Proof.
  revert from. induction nodes as [|node rest IH]; intros from H;
    [exact H|].
  destruct H as [Hfrom Hrest]. apply IH in Hrest.
  unfold spanEnd in Hrest. lia.
Qed.

Lemma spansInOrder_weaken (from from' limit : nat)
    (nodes : list jsonc.Node) :
  from' <= from -> spansInOrder from limit nodes ->
  spansInOrder from' limit nodes.
Proof.
  intros Hle. destruct nodes as [|node rest]; cbn [spansInOrder].
  - lia.
  - intros [Hfrom Hrest]. split; [lia|assumption].
Qed.

(** The nodes at ascending indices of nodes in order are in order. *)
Lemma spansInOrder_select (limit : nat) (nodes : list jsonc.Node) :
  forall (from least : nat) (indices : list nat),
    spansInOrder from limit nodes ->
    ascendingFrom least indices ->
    Forall (fun i => i < least + List.length nodes) indices ->
    exists selected,
      Forall2 (fun i node => nth_error nodes (i - least) = Some node)
              indices selected
      /\ spansInOrder from limit selected.
Proof.
  induction nodes as [|node rest IH]; intros from least indices Hspans Hasc
    Hvalid.
  - destruct indices as [|i indices].
    + exists []. split; [constructor|exact Hspans].
    + exfalso. destruct Hasc as [Hi _].
      inversion Hvalid as [|? ? Hlt _]; subst. cbn in Hlt. lia.
  - destruct Hspans as [Hfrom Hrest].
    destruct indices as [|i indices].
    { exists []. split; [constructor|].
      apply spansInOrder_limit in Hrest. cbn [spansInOrder].
      unfold spanEnd in Hrest. lia. }
    destruct Hasc as [Hi Hasc].
    inversion Hvalid as [|? ? Hlt Hvalid']; subst.
    destruct (Nat.eq_dec i least) as [->|Hne].
    + destruct (IH (spanEnd node) (S least) indices Hrest Hasc)
        as [selected [Hsel Hord]].
      { rewrite Forall_forall in *. intros j Hj.
        specialize (Hvalid' j Hj). cbn in Hvalid'. lia. }
      exists (node :: selected). split.
      * constructor.
        -- now rewrite Nat.sub_diag.
        -- apply ascendingFrom_lower in Hasc.
           rewrite Forall_forall in Hasc.
           clear -Hsel Hasc. induction Hsel as [|j n js ns Hj Hjs IHs];
             [constructor|].
           constructor.
           ++ assert (S least <= j) by (apply Hasc; now left).
              replace (j - least) with (S (j - S least)) by lia.
              exact Hj.
           ++ apply IHs. intros k Hk. apply Hasc. now right.
      * split; assumption.
    + destruct (IH (spanEnd node) (S least) (i :: indices) Hrest)
        as [selected [Hsel Hord]].
      { split; [lia|assumption]. }
      { constructor; [cbn in Hlt; lia|].
        rewrite Forall_forall in *. intros j Hj.
        specialize (Hvalid' j Hj). cbn in Hvalid'. lia. }
      exists selected. split.
      * assert (Hlow : Forall (fun j => S least <= j) (i :: indices)).
        { constructor; [lia|].
          apply ascendingFrom_lower in Hasc.
          rewrite Forall_forall in *. intros j Hj.
          specialize (Hasc j Hj). lia. }
        rewrite Forall_forall in Hlow.
        clear -Hsel Hlow. induction Hsel as [|j n js ns Hj Hjs IHs];
          [constructor|].
        constructor.
        -- assert (S least <= j) by (apply Hlow; now left).
           replace (j - least) with (S (j - S least)) by lia.
           exact Hj.
        -- apply IHs. intros k Hk. apply Hlow. now right.
      * apply (spansInOrder_weaken (spanEnd node)); [|assumption].
        unfold spanEnd. lia.
Qed.

Lemma split_first_line (content : string) :
  exists line others, vscodeShim.split content = line :: others.
Proof.
  destruct content as [|c rest]; cbn [vscodeShim.split].
  - now exists "", [].
  - destruct (Ascii.eqb c JSON.newline); eexists; eexists; reflexivity.
Qed.

Lemma copyFilter_value (key : string) (filter : JValue)
    (orderedFilter : Ordinary) :
  filter <> JNull ->
  exists orderedFilter',
    copyFilter key (Some filter) orderedFilter = ret orderedFilter'.
Proof.
  intros Hfilter. unfold copyFilter, readFilter.
  rewrite (CanonicalFacts.member_entries _ _ Hfilter).
  cbn [bind ret Monad_Completion Monad_either].
  destruct (getProp key (entries filter)); eexists; reflexivity.
Qed.

Lemma copyFilter_missing (key : string) (filter : option JValue)
    (orderedFilter : Ordinary) :
  match filter with
  | Some JNull => True
  | Some _ => False
  | None => True
  end ->
  exists e, copyFilter key filter orderedFilter = throw e.
Proof.
  unfold copyFilter, readFilter.
  destruct filter as [[| | | | |]|]; intros []; eexists; reflexivity.
Qed.

Section Apply.

Variable removeDebugSettings : string -> string.
Variable tidy : string -> string.
Variable replaceTrailingComma : string -> string -> string.
Variable spaced : string -> string.

Local Abbreviation rewriteText :=
  (rewriteCommandText removeDebugSettings tidy replaceTrailingComma spaced).

Local Abbreviation applyFor :=
  (applyEdits_for removeDebugSettings tidy replaceTrailingComma spaced).

(** The rewriting returns exactly for an edit that has what it sets. *)
Lemma rewriteCommandText_returns (edit : OptimizationEdit)
    (commandText : string) :
  hasSetting edit = true ->
  exists text, rewriteText edit commandText = ret text.
Proof.
  intros Hsetting. unfold rewriteCommandText.
  destruct (split_first_line (removeDebugSettings commandText))
    as (line & others & ->).
  unfold hasSetting in Hsetting.
  destruct (useDbgTrue edit); [eexists; reflexivity|].
  cbn [orb] in Hsetting.
  destruct (newFilter edit) as [filter|]; [|discriminate].
  assert (Hfilter : filter <> JNull) by (intros ->; discriminate).
  destruct (copyFilter_value "to" filter emptyObject Hfilter) as [o1 ->].
  cbn [bind ret Monad_Completion Monad_either].
  destruct (copyFilter_value "years" filter o1 Hfilter) as [o2 ->].
  cbn [bind ret Monad_Completion Monad_either].
  destruct (copyFilter_value "from" filter o2 Hfilter) as [o3 ->].
  eexists. reflexivity.
Qed.

Lemma rewriteCommandText_throws (edit : OptimizationEdit)
    (commandText : string) :
  hasSetting edit = false ->
  exists e, rewriteText edit commandText = throw e.
Proof.
  intros Hsetting. unfold rewriteCommandText.
  destruct (split_first_line (removeDebugSettings commandText))
    as (line & others & ->).
  unfold hasSetting in Hsetting.
  destruct (useDbgTrue edit); [discriminate|]. cbn [orb] in Hsetting.
  destruct (copyFilter_missing "to" (newFilter edit) emptyObject)
    as [e ->].
  { destruct (newFilter edit) as [[| | | | |]|];
      first [discriminate | exact I]. }
  exists e. reflexivity.
Qed.

Lemma applyEdits_for_app (commandNodes : list jsonc.Node)
    (first second : list OptimizationEdit) (content : string)
    (console : Console) :
  applyFor commandNodes (first ++ second) content console =
  match applyFor commandNodes first content console with
  | (inr content', console') =>
      applyFor commandNodes second content' console'
  | (inl e, console') => (inl e, console')
  end.
Proof.
  revert content console.
  induction first as [|edit rest IH]; intros content console;
    [reflexivity|].
  cbn [app applyEdits_for].
  destruct (nth_error commandNodes (commandIndex edit)); [|reflexivity].
  destruct (rewriteCommandText _ _ _ _ edit _); [reflexivity|].
  apply IH.
Qed.

Lemma piecesOf_cons (commandNodes : list jsonc.Node)
    (edit : OptimizationEdit) (rest : list OptimizationEdit)
    (content : string) (node : jsonc.Node) :
  nth_error commandNodes (commandIndex edit) = Some node ->
  piecesOf rewriteText commandNodes (edit :: rest) content =
  (node,
   returned
     (rewriteText edit
        (substring (jsonc.offset node) (spanEnd node) content)))
  :: piecesOf rewriteText commandNodes rest content.
Proof.
  intros Hnode. unfold piecesOf. cbn [flat_map]. now rewrite Hnode.
Qed.

(** The loop on the edits in reverse order, when the nodes of the edits
    are in order from [from] on: the text before [from] is untouched. *)
Lemma applyEdits_for_rev (commandNodes : list jsonc.Node)
    (content : string) :
  forall (editsToApply : list OptimizationEdit)
         (selected : list jsonc.Node) (from : nat) (console : Console),
    Forall2 (fun edit node =>
               nth_error commandNodes (commandIndex edit) = Some node)
            editsToApply selected ->
    Forall (fun edit => hasSetting edit = true) editsToApply ->
    spansInOrder from (String.length content) selected ->
    applyFor commandNodes (rev editsToApply) content console =
    (ret (JSON.take from content
          ++ assembled from content
               (piecesOf rewriteText commandNodes editsToApply content))%string,
     console
     ++ map (fun edit => (stdout, appliedLine edit)) (rev editsToApply)).
Proof.
  intros editsToApply.
  induction editsToApply as [|edit rest IH];
    intros selected from console Hsel Hsettings Hspans.
  - cbn [rev piecesOf flat_map assembled map applyEdits_for].
    unfold substringFrom. now rewrite take_drop, app_nil_r.
  - inversion Hsel as [|? node ? selected' Hnode Hsel']; subst.
    inversion Hsettings as [|? ? Hsetting Hsettings']; subst.
    destruct Hspans as [Hfrom Hrest].
    pose proof (spansInOrder_limit _ _ _ Hrest) as Hend.
    cbn [rev]. rewrite applyEdits_for_app.
    rewrite (IH selected' (spanEnd node) console Hsel' Hsettings' Hrest).
    rewrite (piecesOf_cons _ _ _ _ _ Hnode).
    set (tail := assembled (spanEnd node) content
                   (piecesOf rewriteText commandNodes rest content)).
    assert (Hstart : jsonc.offset node <= spanEnd node)
      by (unfold spanEnd; lia).
    cbn [applyEdits_for]. rewrite Hnode.
    fold (spanEnd node). cbn [ret Monad_Completion Monad_either].
    rewrite (substring_take_append _ _ _ tail Hstart Hend).
    destruct (rewriteCommandText_returns edit
                (substring (jsonc.offset node) (spanEnd node) content)
                Hsetting) as [text Htext].
    rewrite Htext.
    cbn [returned applyEdits_for ret Monad_Completion Monad_either].
    rewrite map_app, app_assoc. cbn [map]. f_equal.
    cbn [assembled]. fold (spanEnd node). fold tail.
    unfold substringFrom.
    rewrite (JsonFacts.drop_take_append _ _ tail Hend).
    replace (substring 0 (jsonc.offset node)
               (JSON.take (spanEnd node) content ++ tail)%string)
      with (JSON.take (jsonc.offset node) content).
    2:{ unfold substring. rewrite Nat.sub_0_r.
        replace (JSON.drop 0 (JSON.take (spanEnd node) content ++ tail)%string)
          with (JSON.take (spanEnd node) content ++ tail)%string
          by (now destruct (JSON.take (spanEnd node) content ++ tail)%string).
        symmetry. now apply take_take_append. }
    apply f_equal.
    rewrite <- (take_substring from (jsonc.offset node) content Hfrom)
      by lia.
    now rewrite !JsonFacts.append_assoc.
Qed.

(** X28.  Let the command nodes span parts of the text that come one
    after the other without overlap, and let the edits be in the order of
    their commands, one at most for a command that exists, each with
    what it sets ([dbg], or a filter that is not [null]).  Then applying
    the edits returns the text in which the span of each edited command
    is replaced by the rewriting of the text the span had in the original,
    and everything outside these spans is as in the original: an edit
    never sees or moves the effect of another.  One line is written for
    each edit, the last command first. *)
Theorem applyEdits_replaces_spans (commandNodes : list jsonc.Node)
    (editsToApply : list OptimizationEdit) (content : string)
    (console : Console) :
  spansInOrder 0 (String.length content) commandNodes ->
  byCommand editsToApply ->
  Forall (fun edit => commandIndex edit < List.length commandNodes)
         editsToApply ->
  Forall (fun edit => hasSetting edit = true) editsToApply ->
  applyEdits removeDebugSettings tidy replaceTrailingComma spaced
    commandNodes editsToApply content console =
  (ret (assembled 0 content
          (piecesOf
             (rewriteCommandText removeDebugSettings tidy
                replaceTrailingComma spaced)
             commandNodes editsToApply content)),
   console
   ++ map (fun edit => (stdout, appliedLine edit)) (rev editsToApply)).
Proof.
  intros Hspans Hedits Hvalid Hsettings. unfold applyEdits.
  rewrite (sort_rev _ Hedits).
  destruct (spansInOrder_select (String.length content) commandNodes 0 0
              (map commandIndex editsToApply) Hspans Hedits)
    as [selected [Hsel Hord]].
  { rewrite Forall_forall in *. intros i Hi. apply in_map_iff in Hi.
    destruct Hi as [edit [<- Hin]]. exact (Hvalid edit Hin). }
  assert (Hsel' : Forall2 (fun edit node =>
                             nth_error commandNodes (commandIndex edit) =
                             Some node) editsToApply selected).
  { clear -Hsel. remember (map commandIndex editsToApply) as indices.
    revert editsToApply Heqindices.
    induction Hsel as [|i node indices selected Hi Hrest IHs];
      intros todo Heq.
    - destruct todo; [constructor|discriminate].
    - destruct todo as [|edit todo]; [discriminate|].
      cbn [map] in Heq. inversion Heq; subst. constructor.
      + now rewrite Nat.sub_0_r in Hi.
      + now apply IHs. }
  pose proof (applyEdits_for_rev commandNodes content editsToApply selected
                0 console Hsel' Hsettings Hord) as Happlied.
  rewrite Happlied.
  now destruct content.
Qed.

Lemma applyEdits_for_returns (commandNodes : list jsonc.Node)
    (sortedEdits : list OptimizationEdit) :
  forall (content : string) (console : Console),
    (exists content',
        fst (applyFor commandNodes sortedEdits content console) =
        ret content')
    <-> Forall (fun edit =>
                  commandIndex edit < List.length commandNodes
                  /\ hasSetting edit = true)
               sortedEdits.
Proof.
  induction sortedEdits as [|edit rest IH]; intros content console.
  - split; [constructor|]. intros _. now exists content.
  - cbn [applyEdits_for].
    destruct (nth_error commandNodes (commandIndex edit)) as [node|] eqn:Hnode.
    + destruct (hasSetting edit) eqn:Hsetting.
      * destruct (rewriteCommandText_returns edit
                    (substring (jsonc.offset node)
                       (jsonc.offset node + jsonc.length node) content)
                    Hsetting) as [text Htext].
        cbn [ret Monad_Completion Monad_either] in Htext.
        rewrite Htext. cbv iota.
        rewrite IH. split.
        -- intros Hrest. constructor; [|assumption].
           split; [|assumption]. apply nth_error_Some. now rewrite Hnode.
        -- intros Hall. now inversion Hall.
      * destruct (rewriteCommandText_throws edit
                    (substring (jsonc.offset node)
                       (jsonc.offset node + jsonc.length node) content)
                    Hsetting) as [e He].
        unfold throw in He. rewrite He. cbv iota. split.
        -- intros [content' H]. discriminate.
        -- intros Hall. inversion Hall as [|? ? [_ H] _]; subst.
           congruence.
    + split.
      * intros [content' H]. discriminate.
      * intros Hall. inversion Hall as [|? ? [Hlt _] _]; subst.
        apply nth_error_None in Hnode. lia.
Qed.

(** X29.  Applying the edits returns a text exactly when the command
    index of every edit is that of a command node and every edit has
    what it sets ([dbg], or a filter that is not [null]); an edit
    without its command node, or one that sets a filter and has none,
    makes the application throw, whatever the order of the edits, and no
    text is returned. *)
Theorem applyEdits_returns_iff (commandNodes : list jsonc.Node)
    (editsToApply : list OptimizationEdit) (content : string)
    (console : Console) :
  let outcome :=
    fst (applyEdits removeDebugSettings tidy replaceTrailingComma spaced
           commandNodes editsToApply content console) in
  ((exists content', outcome = ret content')
   <-> Forall (fun edit =>
                 commandIndex edit < List.length commandNodes
                 /\ hasSetting edit = true)
              editsToApply)
  /\ ((exists e, outcome = throw e)
      <-> exists edit,
            In edit editsToApply
            /\ (List.length commandNodes <= commandIndex edit
                \/ hasSetting edit = false)).
Proof.
  intros outcome.
  assert (Hreturns :
            (exists content', outcome = ret content')
            <-> Forall (fun edit =>
                          commandIndex edit < List.length commandNodes
                          /\ hasSetting edit = true)
                       editsToApply).
  { subst outcome. unfold applyEdits.
    pose proof (applyEdits_for_returns commandNodes (sort editsToApply)
                  content console) as H.
    rewrite H.
    rewrite !Forall_forall. split; intros Hall x Hx; apply Hall;
      now apply In_sort. }
  split; [exact Hreturns|]. split.
  - intros [e He].
    destruct (Forall_Exists_dec
                (fun edit =>
                   commandIndex edit < List.length commandNodes
                   /\ hasSetting edit = true)
                (fun edit =>
                   match lt_dec (commandIndex edit)
                           (List.length commandNodes),
                         bool_dec (hasSetting edit) true with
                   | left Hlt, left Hset => left (conj Hlt Hset)
                   | right Hlt, _ => right (fun H => Hlt (proj1 H))
                   | _, right Hset => right (fun H => Hset (proj2 H))
                   end) editsToApply)
      as [Hall|Hex].
    + apply Hreturns in Hall. destruct Hall as [content' Hc].
      rewrite Hc in He. discriminate.
    + apply Exists_exists in Hex. destruct Hex as [edit [Hin Hnot]].
      exists edit. split; [assumption|].
      destruct (lt_dec (commandIndex edit) (List.length commandNodes));
        [|left; lia].
      right. destruct (hasSetting edit); [|reflexivity].
      exfalso. apply Hnot. now split.
  - intros [edit [Hin Hbad]].
    destruct outcome as [e|content'] eqn:Hout; [now exists e|].
    exfalso.
    assert (Hall : Forall (fun edit =>
                             commandIndex edit < List.length commandNodes
                             /\ hasSetting edit = true)
                          editsToApply).
    { apply Hreturns. now exists content'. }
    rewrite Forall_forall in Hall. destruct (Hall edit Hin) as [Hlt Hset].
    destruct Hbad as [Hpast|Hnone]; [lia|congruence].
Qed.

End Apply.

End OptimizeFacts.

(* ===================================================================== *)
(** * The further theorems at sample inputs *)
(* ===================================================================== *)

Module MoreInstances.
Import BinInt.
Import suggestedMetricPatterns SuggestedMetricSuggestionRule SuggestionSpec.
Import process cliMain cliLint PassSpec EngineSpec EngineCalls.
Import Samples Examples.
Local Open Scope string_scope.
Local Open Scope list_scope.

(** [obdb help] is an unknown command. *)
Lemma main_unknown_command_witness :
  main (echoCommand "lint") (echoCommand "optimize") echoSupport
    ["help"; "workspace"] [] =
  (Exited 1,
   (stderr, "Error: Unknown command 'help'") :: map (pair stdout) usage).
Proof.
  apply (ArgsFacts.main_unknown_command (echoCommand "lint")
           (echoCommand "optimize") echoSupport "help" ["workspace"] []);
    discriminate.
Defined.

(** In a tree without [commands] only the document-level call is made;
    with an empty [commands] array the commands-level call is made
    too. *)
Lemma collectResults_without_commands_witness :
  collectResults noChildren nothingAt withSuggestions nodeX1 =
    CliSignalLinter.lintDocument withSuggestions nodeX1
  /\ collectResults emptyArrays findNodeAtLocation withSuggestions rootNode =
       (documentResults <-
          CliSignalLinter.lintDocument withSuggestions rootNode ;;
        commandResults <-
          CliSignalLinter.lintCommands withSuggestions commandsNode ;;
        ret (documentResults ++ commandResults)).
Proof.
  split.
  - apply (proj1 (PassFacts.collectResults_without_commands noChildren
                    nothingAt withSuggestions nodeX1)).
    left. reflexivity.
  - apply (proj2 (PassFacts.collectResults_without_commands emptyArrays
                    findNodeAtLocation withSuggestions rootNode)
             commandsNode); reflexivity.
Defined.

Lemma collectResults_without_rules_witness :
  getEnabledRules (CliSignalLinter.ruleRegistry withoutRules) = []
  /\ collectResults children findNodeAtLocation withoutRules rootNode =
       ret []
  /\ reportText "default.json" [] [] =
       (Returned tt, [(stdout, noIssuesLine)]).
Proof.
  split; [reflexivity|].
  exact (PassFacts.collectResults_without_rules children findNodeAtLocation
           withoutRules rootNode "default.json" [] eq_refl).
Defined.

(** The one signal of the sample tree gets the suggestion [rpm]; with
    [null] in its place the pass throws. *)
Lemma collectResults_suggestions_only_witness :
  collectResults children findNodeAtLocation withSuggestions rootNode =
    ret [resultWith rpmByName nodeEngineRpm
           (JSON.stringify signalWithMetric)]
  /\ collectResults childrenWithNull findNodeAtLocation withSuggestions
       rootNode =
     throw "Cannot read properties of null (reading 'suggestedMetric')".
Proof.
  split.
  - rewrite (PassFacts.collectResults_suggestions_only children
               findNodeAtLocation withSuggestions [rpmByName] rootNode
               eq_refl).
    reflexivity.
  - rewrite (PassFacts.collectResults_suggestions_only childrenWithNull
               findNodeAtLocation withSuggestions [rpmByName] rootNode
               eq_refl).
    reflexivity.
Defined.

(** A text with one line feed has the lines 0 and 1; line 5 is empty. *)
Lemma lineAt_outside_witness :
  let content := ("ab" ++ DocumentSpec.lineFeed ++ "c")%string in
  DocumentSpec.lineFeeds content = 1
  /\ vscodeShim.lineAt (vscodeShim.createTextDocument content) 5%Z =
     {| vscodeShim.text := "";
        vscodeShim.lineNumber := 5%Z;
        vscodeShim.range :=
          {| vscodeShim.start :=
               {| vscodeShim.line := 5%Z; vscodeShim.character := 0 |};
             vscodeShim.end_ :=
               {| vscodeShim.line := 5%Z; vscodeShim.character := 0 |} |} |}.
Proof.
  intros content. split; [reflexivity|].
  apply (DocumentFacts.lineAt_outside content 5%Z).
  right. reflexivity.
Defined.

(** The quiet rule returns, the next rule throws. *)
Lemma lint_first_throw_witness :
  let self :=
    linterOf [ {| rule := quietDocumentRule; isEnabled := true |};
               {| rule := throwingRule; isEnabled := true |};
               {| rule := asRule [rpmByName]; isEnabled := true |} ] in
  lintAt (OnSignal signalEngineRpm nodeEngineRpm) self =
  throw "Unexpected signal".
Proof.
  intros self.
  apply (EngineCallFacts.lint_first_throw
           (OnSignal signalEngineRpm nodeEngineRpm) self
           [quietDocumentRule] throwingRule [asRule [rpmByName]]
           "Unexpected signal").
  - reflexivity.
  - intros r [<-|[]]. exists []. reflexivity.
  - reflexivity.
Defined.

Lemma lint_results_from_rules_witness :
  let self :=
    linterOf [ {| rule := asRule [rpmByName]; isEnabled := true |} ] in
  let result :=
    resultWith rpmByName nodeEngineRpm (JSON.stringify signalWithMetric) in
  lintAt (OnSignal signalEngineRpm nodeEngineRpm) self = ret [result]
  /\ (In result [result] <->
      exists r own,
        In r (getEnabledRules (BaseLinter.ruleRegistry self))
        /\ contributionTo (OnSignal signalEngineRpm nodeEngineRpm) r =
             ret own
        /\ In result own).
Proof.
  intros self result. split; [reflexivity|].
  exact (EngineCallFacts.lint_results_from_rules
           (OnSignal signalEngineRpm nodeEngineRpm) self [result] result
           eq_refl).
Defined.


(** The signal X1 rewritten with [rpm], then with [speed]. *)
Lemma rewrite_of_rewritten_witness :
  createSignalWithSuggestedMetric signalX1 nodeX1 "rpm" = ret rewrittenX1
  /\ JSON.parseAt rewrittenX1 0 = Some (jsonc.getNodeValue nodeRewrittenX1)
  /\ createSignalWithSuggestedMetric signalX1 nodeRewrittenX1 "speed" =
     createSignalWithSuggestedMetric signalX1 nodeX1 "speed".
Proof.
  split; [reflexivity|]. split; [reflexivity|].
  exact (RuleFacts.rewrite_of_rewritten signalX1 signalX1 nodeX1
           nodeRewrittenX1 "rpm" "speed" rewrittenX1 eq_refl eq_refl
           eq_refl eq_refl).
Defined.

Lemma validateSignal_reads_three_witness :
  validateSignal [rpmByName] signalX1 nodeX1 =
  validateSignal [rpmByName] signalX1Reordered nodeX1.
Proof.
  exact (RuleFacts.validateSignal_reads_three [rpmByName] signalX1
           signalX1Reordered nodeX1 eq_refl eq_refl eq_refl).
Defined.

Lemma rule_results_to_diagnostics_witness :
  let result :=
    resultWith rpmByName nodeEngineRpm (JSON.stringify signalWithMetric) in
  let document :=
    {| vscode.getText := sourceEngineRpm;
       vscode.positionAt := fun offset => vscode.mkPosition 0 offset |} in
  let self :=
    {| SignalLinter.ruleRegistry :=
         [ {| rule := asRule [rpmByName]; isEnabled := true |} ];
       SignalLinter.lastResults := [] |} in
  let after := SignalLinter.toDiagnostics self document [result] in
  SignalLinter.getLastResults (fst after) = [result]
  /\ snd after =
     ret [ {| vscode.range :=
                {| vscode.start := vscode.mkPosition 0 31;
                   vscode.end_ := vscode.mkPosition 0 70 |};
              vscode.message := message result;
              vscode.severity := vscode.DiagnosticSeverity.Information;
              vscode.code := Some "suggested-metric-suggestion";
              vscode.source := Some "obdb-linter" |} ].
Proof.
  intros result document self after.
  apply (RuleFacts.rule_results_to_diagnostics self document [rpmByName]
           [rpmByName] [result] eq_refl).
  constructor; [|constructor].
  exists signalEngineRpm, nodeEngineRpm. reflexivity.
Defined.

(** The two commands of [[{a},{b}]], each with its setting. *)
Lemma applyEdits_replaces_spans_witness :
  cliOptimize.applyEdits unchanged unchanged commaReplaced unchanged
    twoCommandNodes twoEdits twoCommands [] =
  (ret ("[{a}, " ++ quoted "dbg" ++ ": true,{b}, " ++ quoted "dbgfilter"
        ++ ": " ++ JSON.stringify (JObject [("from", JNumber "2020")])
        ++ "]")%string,
   map (fun edit => (stdout, cliOptimize.appliedLine edit)) (rev twoEdits)).
Proof.
  rewrite (OptimizeFacts.applyEdits_replaces_spans unchanged unchanged
             commaReplaced unchanged twoCommandNodes twoEdits twoCommands []).
  - reflexivity.
  - cbn. lia.
  - cbn. lia.
  - repeat constructor.
  - repeat constructor.
Defined.

(** An edit that sets a filter and has [null] for it makes the
    application throw. *)
Lemma applyEdits_returns_iff_witness :
  exists e,
    fst (cliOptimize.applyEdits unchanged unchanged commaReplaced unchanged
           twoCommandNodes [editWithoutFilter] twoCommands []) = throw e.
Proof.
  apply (proj2 (OptimizeFacts.applyEdits_returns_iff unchanged unchanged
                  commaReplaced unchanged twoCommandNodes
                  [editWithoutFilter] twoCommands [])).
  exists editWithoutFilter. split; [now left|]. right. reflexivity.
Defined.

End MoreInstances.
